(** * binjgb host layer (src/host.c): pacing, audio back-pressure, playback control, geometry

    A shallow embedding of the SDL host of the binjgb emulator.  The C code
    talks to three collaborators whose code is not part of host.c: the SDL
    audio device, the display and the emulation core.  The SDL side is
    modelled as an explicit world state threaded through a small state and
    error monad; the emulation core is a type class, so that every theorem
    holds for any core that honours the stated contract. *)

From Stdlib Require Import ZArith QArith Qround Qabs Qpower Bool Lia Lqa.
From Stdlib Require Import Floats.SpecFloat.
From stdpp Require Import base list.

Local Open Scope Z_scope.

(** ** Machine integers *)

(** [u32], [u16]: the value an unsigned 32-bit or 16-bit object holds after
    an assignment, i.e. the mathematical result reduced modulo the width. *)
Definition u32 (z : Z) : Z := z mod 2 ^ 32.
Definition u16 (z : Z) : Z := z mod 2 ^ 16.

Definition is_u8 (z : Z) : Prop := 0 <= z < 2 ^ 8.
Definition is_u32 (z : Z) : Prop := 0 <= z < 2 ^ 32.

(** ** Doubles

    [f64] values are IEEE-754 binary64 numbers in the representation of
    the standard library's [SpecFloat]: signed zeros, infinities, NaN, and
    finite numbers [(-1)^s * m * 2^e].  Products and quotients round to
    nearest-even as the hardware does. *)
Definition f64 : Type := spec_float.
Definition f64_mul : f64 -> f64 -> f64 := SFmul 53 1024.
Definition f64_div : f64 -> f64 -> f64 := SFdiv 53 1024.

(** Conversion of an [int] constant to [double]. *)
Definition f64_of_int (z : Z) : f64 := binary_normalize 53 1024 z 0 false.

(** [0 <= x] as C evaluates it on doubles (false on NaN). *)
Definition f64_nonneg (x : f64) : Prop := SFleb (S754_zero false) x = true.

(** The rational a finite double denotes ([0] for the others). *)
Definition f64_value (x : f64) : Q :=
  match x with
  | S754_finite s m e =>
      if 0 <=? e then inject_Z (cond_Zopp s (Z.pos m) * 2 ^ e)
      else Qmake (cond_Zopp s (Z.pos m)) (2 ^ Z.to_pos (- e))%positive
  | _ => 0%Q
  end.

(** A finite double below zero. *)
Definition f64_negative (x : f64) : bool :=
  match x with S754_finite true _ _ => true | _ => false end.

(** The integral part of a finite double: the fraction is discarded. *)
Definition f64_trunc (s : bool) (m : positive) (e : Z) : Z :=
  cond_Zopp s (if 0 <=? e then Z.pos m * 2 ^ e else Z.pos m / 2 ^ (- e)).

(** The cast [(u32)x] of a double.  C defines it when the integral part
    of [x] is representable in the target type and leaves it undefined
    otherwise ([None]). *)
Definition f64_to_u32 (x : f64) : option Z :=
  match x with
  | S754_zero _ => Some 0
  | S754_finite s m e =>
      let t := f64_trunc s m e in
      if bool_decide (0 <= t < 2 ^ 32) then Some t else None
  | _ => None
  end.

(** ** Rounding

    The outcome of [binary_round_aux], the rounding step shared by the
    operations of [SpecFloat]. *)
Section Rounded.
Variables prec emax : Z.

(** [x] is what rounding delivers for the magnitude [M * 2^E] with sign
    [s]: a zero for [M = 0], an infinity when [E] is out of range, or a
    finite number of that value whose mantissa has at most [prec] bits;
    the exponent is [E], or [E + 1] when [M] is [2^prec]. *)
Definition rounded_to (s : bool) (M E : Z) (x : spec_float) : Prop :=
  match x with
  | S754_zero s' => s' = s /\ M = 0
  | S754_infinity s' => s' = s /\ 0 < M /\ emax - prec <= E
  | S754_nan => False
  | S754_finite s' m e =>
      s' = s /\ E <= e <= E + 1 /\ Z.pos m * 2 ^ (e - E) = M /\
      Z.pos m < 2 ^ prec /\ emin prec emax <= e <= emax - prec /\
      (e = E + 1 -> M = 2 ^ prec)
  end.
End Rounded.

(** ** The SDL world *)

(** Calls that leave host.c, in the order they are made.  Hooks are the
    optional callbacks of [HostInit]; the log records the point at which
    the [HOOK] macro is reached. *)
Inductive Call : Type :=
| EvClearQueuedAudio
| EvPauseAudioDevice (pause_on : bool)
| EvQueueAudio (chunk : list Z)
| EvSetSwapInterval (interval : Z)
| EvSetWindowFullscreen (desktop : bool)
| EvTexSubImage2D
| EvRunUntil (until_cycles : Z)
| EvHookAudioAddBuffer (old_size new_size : Z)
| EvHookAudioBufferReady (queued_size : Z).

#[global] Instance Call_eq_dec : EqDecision Call.
Proof. solve_decision. Defined.

(** The chunks handed to [SDL_QueueAudio], oldest first. *)
Definition enqueued (cs : list Call) : list (list Z) :=
  omap (fun c => match c with EvQueueAudio chunk => Some chunk | _ => None end) cs.

(** The number of times the device was unpaused. *)
Definition unpauses (cs : list Call) : nat :=
  length (filter (fun c => c = EvPauseAudioDevice false) cs).

(** The audio output device as host.c observes it: a byte count of queued
    audio and a paused flag, together with the log of calls made so far.
    [SDL_QueueAudio] appends, [SDL_ClearQueuedAudio] empties the queue,
    [SDL_PauseAudioDevice] sets the flag and [SDL_GetQueuedAudioSize]
    reads the count. *)
Record SDL : Type := mkSDL {
  audio_queued : Z;
  audio_paused : bool;
  calls : list Call
}.

(** State and error monad over the SDL world.  [None] is a failed [assert]
    or an access outside an array. *)
Definition M (A : Type) : Type := SDL -> option (A * SDL).

Definition ret {A} (a : A) : M A := fun w => Some (a, w).

Definition bind {A B} (m : M A) (k : A -> M B) : M B :=
  fun w => match m w with
           | Some (a, w') => k a w'
           | None => None
           end.

Definition fault {A} : M A := fun _ => None.

Definition lift {A} (o : option A) : M A :=
  fun w => match o with Some a => Some (a, w) | None => None end.

Definition assert (b : bool) : M unit := if b then ret tt else fault.

Declare Scope host_scope.
Delimit Scope host_scope with host.
Notation "'let!' x ':=' m 'in' k" := (bind m (fun x => k))
  (at level 10, x name, m at level 100, k at level 200) : host_scope.
Notation "'run!' m 'in' k" := (bind m (fun _ => k))
  (at level 10, m at level 100, k at level 200) : host_scope.
Local Open Scope host_scope.

Definition record (c : Call) : M unit :=
  fun w => Some (tt, mkSDL (audio_queued w) (audio_paused w) (calls w ++ [c])).

Definition SDL_GetQueuedAudioSize : M Z :=
  fun w => Some (audio_queued w, w).

Definition SDL_QueueAudio (chunk : list Z) (len : Z) : M unit :=
  fun w => Some (tt, mkSDL (audio_queued w + len) (audio_paused w)
                           (calls w ++ [EvQueueAudio chunk])).

Definition SDL_ClearQueuedAudio : M unit :=
  fun w => Some (tt, mkSDL 0 (audio_paused w) (calls w ++ [EvClearQueuedAudio])).

Definition SDL_PauseAudioDevice (pause_on : bool) : M unit :=
  fun w => Some (tt, mkSDL (audio_queued w) pause_on
                           (calls w ++ [EvPauseAudioDevice pause_on])).

(** The device plays on its own schedule: while unpaused it consumes up to
    [n] queued bytes between two calls of the host. *)
Definition device_consume (n : Z) (w : SDL) : SDL :=
  if audio_paused w then w
  else mkSDL (Z.max 0 (audio_queued w - Z.max 0 n)) (audio_paused w) (calls w).

(** ** Data of host.c *)

Definition AUDIO_SPEC_CHANNELS : Z := 2.
Definition AUDIO_SPEC_SAMPLE_SIZE : Z := 2.   (* sizeof(HostAudioSample), a u16 *)
Definition AUDIO_FRAME_SIZE : Z := AUDIO_SPEC_SAMPLE_SIZE * AUDIO_SPEC_CHANNELS.
Definition AUDIO_CONVERT_SAMPLE_FROM_U8 (x : Z) : Z := Z.shiftl x 8.

(** [SDL_AudioSpec]: only [size], the device buffer size in bytes, is read. *)
Record SDL_AudioSpec : Type := mkSpec { size : Z }.

(** [HostAudio].  [buffer] is the staging buffer, seen through the
    [HostAudioSample*] the code writes with: one list element per 16-bit
    sample slot, [spec.size / 2] of them. *)
Record HostAudio : Type := mkAudio {
  spec : SDL_AudioSpec;
  buffer : list Z;
  ready : bool
}.

(** [HostConfig] (host.h): the four flags host.c reads and writes. *)
Record HostConfig : Type := mkConfig {
  no_sync : bool;
  paused : bool;
  step : bool;
  fullscreen : bool
}.

(** Modelled from the spec: [AudioBuffer] and [audio_buffer_get_frames]
    live in emulator.h, which is absent.  The buffer holds the unsigned
    8-bit interleaved stereo samples the core produced since the last
    delivery; a frame is one sample per channel. *)
Record AudioBuffer : Type := mkAudioBuffer { data : list Z }.

Definition audio_buffer_get_frames (ab : AudioBuffer) : Z :=
  Z.of_nat (length (data ab)) / 2.

(** [EmulatorEvent]: the flag set returned by [emulator_run_until]; host.c
    tests the three flags independently. *)
Record EmulatorEvent : Type := mkEvent {
  EMULATOR_EVENT_NEW_FRAME : bool;
  EMULATOR_EVENT_AUDIO_BUFFER_FULL : bool;
  EMULATOR_EVENT_UNTIL_CYCLES : bool
}.

(** Modelled from the spec: [CPU_CYCLES_PER_SECOND] is defined in
    emulator.h, which is absent; the specification's third scenario gives
    its value. *)
Definition CPU_CYCLES_PER_SECOND : Z := 4194304.

(** The emulation core as host.c uses it. *)
Class EmulatorCore (Emulator : Type) : Type := {
  emulator_get_cycles : Emulator -> Z;
  emulator_run_until : Emulator -> Z -> Emulator * EmulatorEvent;
  emulator_get_audio_buffer : Emulator -> AudioBuffer
}.

(** ** The audio conversion loop *)

(** One sample as the loop stores it: the macro's value assigned to a
    [HostAudioSample]. *)
Definition convert_sample (x : Z) : Z := u16 (AUDIO_CONVERT_SAMPLE_FROM_U8 x).

(** [*dst = v] through a pointer into the staging buffer. *)
Definition store (buf : list Z) (i : nat) (v : Z) : option (list Z) :=
  if decide (i < length buf)%nat then Some (<[i := v]> buf) else None.

(** The body of the [for] loop of [host_render_audio], [n] iterations left;
    [src] and [dst] are the two running pointers as element offsets. *)
Fixpoint convert_loop (n : nat) (src : list Z) (s d d_end : nat)
    (buf : list Z) : option (list Z) :=
  match n with
  | O => Some buf
  | S n' =>
      if decide (d + 2 <= d_end)%nat then
        x0 ← src !! s;
        buf1 ← store buf d (convert_sample x0);
        x1 ← src !! S s;
        buf2 ← store buf1 (S d) (convert_sample x1);
        convert_loop n' src (S (S s)) (S (S d)) d_end buf2
      else None
  end.

(** ** The host *)

Section Host.
Context {Emulator : Type} `{EmulatorCore Emulator}.

(** [struct Host], restricted to the fields the pacing code touches.
    [hook_ctx_e] is [host->hook_ctx.e]; the C field is a pointer to the
    core, the record holds the state of the core behind it. *)
Record Host : Type := mkHost {
  config : HostConfig;
  audio : HostAudio;
  hook_ctx_e : Emulator
}.

Definition set_audio (h : Host) (a : HostAudio) : Host :=
  mkHost (config h) a (hook_ctx_e h).
Definition set_config (h : Host) (c : HostConfig) : Host :=
  mkHost c (audio h) (hook_ctx_e h).
Definition set_emulator (h : Host) (e : Emulator) : Host :=
  mkHost (config h) (audio h) e.

Definition spec_size (h : Host) : Z := size (spec (audio h)).

(** [emulator_get_cycles(host->hook_ctx.e)]. *)
Definition cycles (h : Host) : Z := emulator_get_cycles (hook_ctx_e h).

Definition AUDIO_TARGET_QUEUED_SIZE (h : Host) : Z := u32 (2 * spec_size h).
Definition AUDIO_MAX_QUEUED_SIZE (h : Host) : Z := u32 (5 * spec_size h).

(** [host_reset_audio]. *)
Definition host_reset_audio (h : Host) : M Host :=
  let h1 := set_audio h (mkAudio (spec (audio h)) (buffer (audio h)) false) in
  run! SDL_ClearQueuedAudio in
  run! SDL_PauseAudioDevice true in
  ret h1.

(** The number of frames one delivery converts. *)
Definition render_frames (h : Host) : Z :=
  let src_frames := audio_buffer_get_frames (emulator_get_audio_buffer (hook_ctx_e h)) in
  let max_dst_frames := spec_size h / AUDIO_FRAME_SIZE in
  Z.min src_frames max_dst_frames.

(** The samples a delivery reads from the core's audio buffer. *)
Definition source_samples (h : Host) : list Z :=
  take (Z.to_nat (render_frames h * AUDIO_SPEC_CHANNELS))
       (data (emulator_get_audio_buffer (hook_ctx_e h))).

(** [host_render_audio].  The [size_t] products cannot wrap: [frames] is
    at most [spec.size / 4] and [spec.size] is a [Uint32].  The locals
    [queued_size] and [buffer_size] are [u32]. *)
Definition host_render_audio (h : Host) : M Host :=
  let a := audio h in
  let audio_buffer := emulator_get_audio_buffer (hook_ctx_e h) in
  let frames := render_frames h in
  let src := data audio_buffer in
  let dst_end := frames * AUDIO_SPEC_CHANNELS in
  run! assert (bool_decide (dst_end * AUDIO_SPEC_SAMPLE_SIZE <= spec_size h)) in
  let! buf := lift (convert_loop (Z.to_nat frames) src 0 0 (Z.to_nat dst_end)
                                 (buffer a)) in
  let h1 := set_audio h (mkAudio (spec a) buf (ready a)) in
  let! queued_size := SDL_GetQueuedAudioSize in
  let! queued_size' :=
    (if bool_decide (queued_size < AUDIO_MAX_QUEUED_SIZE h) then
       let buffer_size := u32 (dst_end * AUDIO_SPEC_SAMPLE_SIZE) in
       run! SDL_QueueAudio (take (Z.to_nat dst_end) buf) buffer_size in
       run! record (EvHookAudioAddBuffer queued_size (u32 (queued_size + buffer_size))) in
       ret (u32 (queued_size + buffer_size))
     else ret queued_size) in
  if negb (ready a) && bool_decide (AUDIO_TARGET_QUEUED_SIZE h <= queued_size') then
    run! record (EvHookAudioBufferReady queued_size') in
    let h2 := set_audio h1 (mkAudio (spec a) buf true) in
    run! SDL_PauseAudioDevice false in
    ret h2
  else ret h1.

(** [host.audio.buffer] has [spec.size] bytes (the comment on the field,
    and the [calloc] of [host_init_audio]). *)
Definition staging_ok (h : Host) : Prop :=
  0 <= spec_size h /\
  Z.of_nat (length (buffer (audio h))) = spec_size h / AUDIO_SPEC_SAMPLE_SIZE.

(** [host_upload_video]: one [glTexSubImage2D] of the core's frame buffer. *)
Definition host_upload_video (h : Host) : M unit := record EvTexSubImage2D.

(** [host_get_config]. *)
Definition host_get_config (h : Host) : HostConfig := config h.

(** [host_set_config]. *)
Definition host_set_config (h : Host) (new_config : HostConfig) : M Host :=
  let! h1 :=
    (if bool_decide (no_sync (config h) <> no_sync new_config) then
       run! record (EvSetSwapInterval (if no_sync new_config then 0 else 1)) in
       host_reset_audio h
     else ret h) in
  let! h2 :=
    (if bool_decide (paused (config h1) <> paused new_config) then host_reset_audio h1
     else ret h1) in
  run! (if bool_decide (fullscreen (config h2) <> fullscreen new_config) then
          record (EvSetWindowFullscreen (fullscreen new_config))
        else ret tt) in
  ret (set_config h2 new_config).

(** The two locals of [host_run_ms]:
    [delta_cycles = (u32)(delta_ms * CPU_CYCLES_PER_SECOND / 1000)] and
    [until_cycles = emulator_get_cycles(e) + delta_cycles], both [u32]. *)
Definition delta_cycles_expr (delta_ms : f64) : f64 :=
  f64_div (f64_mul delta_ms (f64_of_int CPU_CYCLES_PER_SECOND)) (f64_of_int 1000).

Definition tick_target (h : Host) (delta_ms : f64) : option (Z * Z) :=
  delta_cycles ← f64_to_u32 (delta_cycles_expr delta_ms);
  Some (delta_cycles, u32 (emulator_get_cycles (hook_ctx_e h) + delta_cycles)).

(** The [while (1)] loop of [host_run_ms]; [fuel] bounds the number of
    iterations, and running out of it yields [None]. *)
Fixpoint run_loop (fuel : nat) (h : Host) (until_cycles : Z) : M Host :=
  match fuel with
  | O => fault
  | S fuel' =>
      run! record (EvRunUntil until_cycles) in
      let '(e', event) := emulator_run_until (hook_ctx_e h) until_cycles in
      let h0 := set_emulator h e' in
      run! (if EMULATOR_EVENT_NEW_FRAME event then host_upload_video h0 else ret tt) in
      let! h1 := (if EMULATOR_EVENT_AUDIO_BUFFER_FULL event then host_render_audio h0
                  else ret h0) in
      if EMULATOR_EVENT_UNTIL_CYCLES event then ret h1
      else run_loop fuel' h1 until_cycles
  end.

(** [host_run_ms]. *)
Definition host_run_ms (fuel : nat) (h : Host) (delta_ms : f64) : M Host :=
  if paused (config h) then ret h
  else
    let! target := lift (tick_target h delta_ms) in
    let until_cycles := snd target in
    let! h1 := run_loop fuel h until_cycles in
    let config := host_get_config h1 in
    if step config then
      host_set_config h1 (mkConfig (no_sync config) true false (fullscreen config))
    else ret h1.

(** Modelled from the spec: the contract of the emulation core, whose
    code (emulator.c) is absent.  The cycle counter is a 32-bit value that
    never decreases; a run reports [EMULATOR_EVENT_UNTIL_CYCLES] (the
    specification's TARGET_REACHED) exactly when the counter has reached
    the target it was given; a run that stops short of the target has
    made progress. *)
Class EmulatorLaws : Prop := {
  cycles_u32 e : is_u32 (emulator_get_cycles e);
  run_until_monotone e u :
    emulator_get_cycles e <= emulator_get_cycles (emulator_run_until e u).1;
  run_until_reached e u :
    is_u32 u ->
    (EMULATOR_EVENT_UNTIL_CYCLES (emulator_run_until e u).2 = true
     <-> u <= emulator_get_cycles (emulator_run_until e u).1);
  run_until_progress e u :
    is_u32 u ->
    EMULATOR_EVENT_UNTIL_CYCLES (emulator_run_until e u).2 = false ->
    emulator_get_cycles e < emulator_get_cycles (emulator_run_until e u).1
}.

(** Modelled from the spec ("the core always advances by exactly
    [delta_cycles]"): a run that reaches a target ahead of it without
    raising another event stops on the target. *)
Definition stops_on_target : Prop :=
  forall e u,
    is_u32 u ->
    emulator_get_cycles e <= u ->
    (emulator_run_until e u).2 = mkEvent false false true ->
    emulator_get_cycles (emulator_run_until e u).1 = u.

(** Modelled from the spec ("the core always advances by exactly
    [delta_cycles]"): a run that reports a target ahead of it reached has
    stopped on the target, whatever else it reports. *)
Definition stops_exactly : Prop :=
  forall e u,
    is_u32 u ->
    emulator_get_cycles e <= u ->
    EMULATOR_EVENT_UNTIL_CYCLES (emulator_run_until e u).2 = true ->
    emulator_get_cycles (emulator_run_until e u).1 = u.
(** *** Sequences of ticks *)

(** Between two ticks the main loop may install a new configuration
    ([host_poll_events] ends with [host_set_config]). *)
Inductive TickStep : Type :=
| Tick (delta_ms : f64)
| Configure (new_config : HostConfig).

(** What a tick that runs the core computes on entry. *)
Record TickObservation : Type := mkTick {
  cycles_before : Z;      (* [emulator_get_cycles(e)] *)
  delta_cycles : Z;
  until_cycles : Z
}.

Definition observe_tick (h : Host) (delta_ms : f64) : list TickObservation :=
  if paused (config h) then []
  else match tick_target h delta_ms with
       | Some (dc, until) => [mkTick (emulator_get_cycles (hook_ctx_e h)) dc until]
       | None => []
       end.

Fixpoint ticks (fuel : nat) (steps : list TickStep) (h : Host) (w : SDL)
    : option (list TickObservation * (Host * SDL)) :=
  match steps with
  | [] => Some ([], (h, w))
  | Tick delta_ms :: rest =>
      '(h', w') ← host_run_ms fuel h delta_ms w;
      '(obs, final) ← ticks fuel rest h' w';
      Some (observe_tick h delta_ms ++ obs, final)
  | Configure new_config :: rest =>
      '(h', w') ← host_set_config h new_config w;
      ticks fuel rest h' w'
  end.

(** The delta of every tick can be cast to [u32]. *)
Definition castable (s : TickStep) : Prop :=
  match s with
  | Tick delta_ms => is_Some (f64_to_u32 (delta_cycles_expr delta_ms))
  | Configure _ => True
  end.

(** The ticks that ran the core, oldest first: each starts at or above
    [low], computes its target in 32 bits, and leaves the counter at or
    above both its start and its target. *)
Fixpoint ticks_trace (low : Z) (obs : list TickObservation) : Prop :=
  match obs with
  | [] => True
  | o :: rest =>
      low <= cycles_before o /\ 0 <= delta_cycles o /\
      until_cycles o = u32 (cycles_before o + delta_cycles o) /\
      ticks_trace (Z.max (cycles_before o) (until_cycles o)) rest
  end.

(** *** Sequences of deliveries *)

(** Between two deliveries the device may play ([Consume]) and the core
    produces a new audio buffer ([Deliver e]: the core is in state [e] when
    [host_render_audio] is called). *)
Inductive AudioStep : Type :=
| Consume (n : Z)
| Deliver (e : Emulator).

(** What is observed right after one call of [host_render_audio]. *)
Record Observation : Type := mkObs {
  queued_after : Z;       (* the device's queued byte count *)
  ready_after : bool;     (* [host->audio.ready] *)
  unpaused_by : nat       (* [SDL_PauseAudioDevice(dev, 0)] calls made by it *)
}.

Fixpoint deliveries (steps : list AudioStep) (h : Host) (w : SDL)
    : option (list Observation * (Host * SDL)) :=
  match steps with
  | [] => Some ([], (h, w))
  | Consume n :: rest => deliveries rest h (device_consume n w)
  | Deliver e :: rest =>
      '(h', w') ← host_render_audio (set_emulator h e) w;
      '(obs, final) ← deliveries rest h' w';
      Some (mkObs (audio_queued w') (ready (audio h'))
                  (unpauses (calls w') - unpauses (calls w)) :: obs, final)
  end.

(** The pacer seen through the observations of successive deliveries:
    [seen] tells whether the target watermark was already reached. *)
Fixpoint pacer_trace (target : Z) (seen : bool) (obs : list Observation) : Prop :=
  match obs with
  | [] => True
  | o :: rest =>
      let r := bool_decide (target <= queued_after o) in
      unpaused_by o = (if negb seen && r then 1 else 0)%nat /\
      ready_after o = seen || r /\
      pacer_trace target (seen || r) rest
  end.

End Host.

Arguments Host Emulator : clear implicits.
Arguments AudioStep Emulator : clear implicits.
Arguments EmulatorLaws Emulator {_}.
Arguments stops_on_target Emulator {_}.
Arguments stops_exactly Emulator {_}.

(** ** A concrete core

    A core that advances by at most [sim_quantum] cycles per call, reports
    a new frame and a full audio buffer whenever it stops short of the
    target, and stops exactly on the target otherwise.  It serves to run
    the host on concrete inputs. *)
Record SimCore : Type := mkSim {
  sim_cycles : Z;
  sim_quantum : Z;
  sim_audio : list Z
}.

Definition sim_get_cycles (e : SimCore) : Z :=
  Z.max 0 (Z.min (sim_cycles e) (2 ^ 32 - 1)).

Definition sim_run_until (e : SimCore) (until_cycles : Z) : SimCore * EmulatorEvent :=
  let c := sim_get_cycles e in
  if bool_decide (until_cycles <= c) then (e, mkEvent false false true)
  else
    let c' := Z.min until_cycles (c + Z.max 1 (sim_quantum e)) in
    (mkSim c' (sim_quantum e) (sim_audio e),
     if bool_decide (until_cycles <= c') then mkEvent false false true
     else mkEvent true true false).

#[global] Instance sim_core : EmulatorCore SimCore := {|
  emulator_get_cycles := sim_get_cycles;
  emulator_run_until := sim_run_until;
  emulator_get_audio_buffer e := mkAudioBuffer (sim_audio e)
|}.

(** A host whose device buffer holds [sz] bytes, staging buffer zeroed as
    by [calloc], audio not yet ready. *)
Definition sim_host (sz : Z) (c : HostConfig) (e : SimCore) : Host SimCore :=
  mkHost c (mkAudio (mkSpec sz) (replicate (Z.to_nat (sz / 2)) 0) false) e.

Definition running : HostConfig := mkConfig false false false false.

(** The device right after [host_reset_audio]: empty and paused. *)
Definition sdl_idle : SDL := mkSDL 0 true [].

(** A core whose audio buffer holds [frames] stereo frames of silence
    (the unsigned 8-bit midpoint). *)
Definition sim_frames (frames : nat) : SimCore :=
  mkSim 0 70224 (replicate (2 * frames) 128).

(** A core that has run [c] cycles and holds two frames of audio. *)
Definition sim_at (c : Z) : SimCore := mkSim c 70224 [128; 128; 128; 128].

(** The double [16.0]. *)
Definition sixteen_ms : f64 := f64_of_int 16.

(** ** A core that overruns

    A core that raises no frame or audio event and, like one that
    finishes the instruction in flight, stops [over_slack] cycles past a
    target ahead of it. *)
Record OverCore : Type := mkOver {
  over_cycles : Z;
  over_slack : Z
}.

Definition over_get_cycles (e : OverCore) : Z :=
  Z.max 0 (Z.min (over_cycles e) (2 ^ 32 - 1)).

Definition over_run_until (e : OverCore) (until_cycles : Z) : OverCore * EmulatorEvent :=
  if bool_decide (until_cycles <= over_get_cycles e) then (e, mkEvent false false true)
  else (mkOver (until_cycles + Z.max 0 (over_slack e)) (over_slack e),
        mkEvent false false true).

#[global] Instance over_core : EmulatorCore OverCore := {|
  emulator_get_cycles := over_get_cycles;
  emulator_run_until := over_run_until;
  emulator_get_audio_buffer _ := mkAudioBuffer []
|}.

(** A host on the overrunning core, device buffer of 16 bytes. *)
Definition over_host (e : OverCore) : Host OverCore :=
  mkHost running (mkAudio (mkSpec 16) (replicate 8 0) false) e.

(** * The rest of host.c *)

(** ** Floats *)

(** [f32] values are IEEE-754 binary32 numbers, in the same representation
    as [f64]. *)
Definition f32 : Type := spec_float.
Definition f32_add : f32 -> f32 -> f32 := SFadd 24 128.
Definition f32_sub : f32 -> f32 -> f32 := SFsub 24 128.
Definition f32_mul : f32 -> f32 -> f32 := SFmul 24 128.
Definition f32_div : f32 -> f32 -> f32 := SFdiv 24 128.
Definition f32_lt : f32 -> f32 -> bool := SFltb.

(** Conversion of an integer to [float]. *)
Definition f32_of_int (z : Z) : f32 := binary_normalize 24 128 z 0 false.

(** The constant [0.5f]. *)
Definition f32_half : f32 := S754_finite false 8388608 (-24).

Definition f32_zero : f32 := S754_zero false.

Definition u64 (z : Z) : Z := z mod 2 ^ 64.

(** ** Values and rounding errors of [float]

    The exact value of a [float], and the two constants that bound the
    error of one binary32 operation: [2^-23] relative to the exact result
    and [2^-149], the least positive [float], when the result is too small
    for that. *)
Definition pow2 (e : Z) : Q := ((2 # 1) ^ e)%Q.

(** The rational a finite [float] denotes ([0] for the others). *)
Definition f32_value (x : f32) : Q := f64_value x.

Definition f32_finite (x : f32) : bool :=
  match x with
  | S754_zero _ | S754_finite _ _ _ => true
  | _ => false
  end.

(** A finite [float] in its canonical representation. *)
Definition f32_ok (x : f32) : Prop :=
  f32_finite x = true /\ valid_binary 24 128 x = true.

Definition f32_u : Q := 1 # 8388608.
Definition f32_eta : Q := pow2 (-149).

(** ** Time *)

(** The two time fields of [struct Host]. *)
Record HostClock : Type := mkClock {
  start_counter : Z;            (* u64 *)
  performance_frequency : Z     (* u64 *)
}.

(** [host_init_time]; [frequency] and [now] are what
    [SDL_GetPerformanceFrequency] and [SDL_GetPerformanceCounter] return. *)
Definition host_init_time (frequency now : Z) : HostClock :=
  mkClock now frequency.

(** [host_get_time_ms]; [now] is what [SDL_GetPerformanceCounter]
    returns.  The difference is taken in [u64], converted to [double],
    multiplied by [1000] and divided by the frequency as a [double]. *)
Definition host_get_time_ms (c : HostClock) (now : Z) : f64 :=
  f64_div (f64_mul (f64_of_int (u64 (now - start_counter c))) (f64_of_int 1000))
          (f64_of_int (performance_frequency c)).

(** [host_get_monitor_refresh_ms]; [display_mode] is the refresh rate
    that [SDL_GetWindowDisplayMode] stores when it returns [0], and [None]
    when it fails. *)
Definition monitor_refresh_rate (display_mode : option Z) : Z :=
  let refresh_rate_hz := match display_mode with Some r => r | None => 0 end in
  if bool_decide (refresh_rate_hz = 0) then 60 else refresh_rate_hz.

Definition host_get_monitor_refresh_ms (display_mode : option Z) : f64 :=
  f64_div (f64_of_int 1000) (f64_of_int (monitor_refresh_rate display_mode)).

(** ** Events *)

(** The scancodes [host_poll_events] distinguishes; every other key is
    [SDL_SCANCODE_other]. *)
Inductive Scancode : Type :=
| SDL_SCANCODE_1 | SDL_SCANCODE_2 | SDL_SCANCODE_3 | SDL_SCANCODE_4
| SDL_SCANCODE_B | SDL_SCANCODE_W | SDL_SCANCODE_O
| SDL_SCANCODE_F6 | SDL_SCANCODE_F9
| SDL_SCANCODE_N | SDL_SCANCODE_SPACE | SDL_SCANCODE_ESCAPE
| SDL_SCANCODE_TAB | SDL_SCANCODE_F11
| SDL_SCANCODE_other (code : Z).

#[global] Instance Scancode_eq_dec : EqDecision Scancode.
Proof. solve_decision. Defined.

(** An [SDL_Event] as far as [host_poll_events] looks at it: the event
    type, the window event with its two data fields, the scancode. *)
Inductive SDL_Event : Type :=
| SDL_WINDOWEVENT_RESIZED (data1 data2 : Z)
| SDL_WINDOWEVENT_other
| SDL_KEYDOWN (scancode : Scancode)
| SDL_KEYUP (scancode : Scancode)
| SDL_QUIT
| SDL_EVENT_other.

#[global] Instance SDL_Event_eq_dec : EqDecision SDL_Event.
Proof. solve_decision. Defined.

(** [EmulatorConfig] (emulator.h), restricted to the fields host.c
    toggles; the array [disable_sound] has one entry per channel. *)
Record EmulatorConfig : Type := mkEmuConfig {
  disable_sound1 : bool;
  disable_sound2 : bool;
  disable_sound3 : bool;
  disable_sound4 : bool;
  disable_bg : bool;
  disable_window : bool;
  disable_obj : bool
}.

(** [HostVertex] and the two geometry fields of [struct Host]. *)
Record HostVertex : Type := mkVertex {
  pos_x : f32;
  pos_y : f32;
  tex_u : f32;
  tex_v : f32
}.

Record HostVideo : Type := mkVideo {
  vertices : list HostVertex;    (* 4 entries *)
  proj_matrix : list f32         (* 9 entries *)
}.

Definition TEXTURE_WIDTH : Z := 256.
Definition TEXTURE_HEIGHT : Z := 256.

(** The body of the [SDL_WINDOWEVENT_RESIZED] case, after [glViewport].
    [SCREEN_WIDTH] and [SCREEN_HEIGHT] are constants of emulator.h, which
    is absent; they are parameters here.  Every entry of both arrays is
    assigned, so the result does not depend on their previous contents.
    Each operation rounds to binary32, as a compiler that evaluates
    [float] expressions in their own type does. *)
Definition resize_video (SCREEN_WIDTH SCREEN_HEIGHT : Z) (w h : f32) : HostVideo :=
  let proj :=
    [f32_div (f32_of_int 2) w; f32_zero; f32_zero;
     f32_zero; f32_div (f32_of_int (-2)) h; f32_zero;
     f32_of_int (-1); f32_of_int 1; f32_of_int 1] in
  let aspect := f32_div w h in
  let want_aspect := f32_div (f32_of_int SCREEN_WIDTH) (f32_of_int SCREEN_HEIGHT) in
  let new_w := if f32_lt aspect want_aspect then w else f32_mul h want_aspect in
  let new_h := if f32_lt aspect want_aspect then f32_div w want_aspect else h in
  let new_left := f32_mul (f32_sub w new_w) f32_half in
  let new_right := f32_add new_left new_w in
  let new_top := f32_mul (f32_sub h new_h) f32_half in
  let new_bottom := f32_add new_top new_h in
  let u_right := f32_div (f32_of_int SCREEN_WIDTH) (f32_of_int TEXTURE_WIDTH) in
  let v_bottom := f32_div (f32_of_int SCREEN_HEIGHT) (f32_of_int TEXTURE_HEIGHT) in
  mkVideo [mkVertex new_left new_top (f32_of_int 0) (f32_of_int 0);
           mkVertex new_left new_bottom (f32_of_int 0) v_bottom;
           mkVertex new_right new_top u_right (f32_of_int 0);
           mkVertex new_right new_bottom u_right v_bottom]
          proj.

(** ** Polling *)

Section Polling.
Context {Emulator : Type} `{EmulatorCore Emulator}.

(** The configuration accessors of the core (emulator.h). *)
Class EmulatorConfigAccess : Type := {
  emulator_get_config : Emulator -> EmulatorConfig;
  emulator_set_config : Emulator -> EmulatorConfig -> Emulator
}.

(** The two hooks [host_poll_events] may call, [None] when not
    registered.  A hook receives the hook context; it is taken to act on
    the core. *)
Class HostHooks : Type := {
  hook_write_state : option (Emulator -> Emulator);
  hook_read_state : option (Emulator -> Emulator)
}.

Context `{EmulatorConfigAccess} `{HostHooks}.
Variables SCREEN_WIDTH SCREEN_HEIGHT : Z.

(** Calls made by [host_poll_events] before its final [host_set_config]. *)
Inductive PollCall : Type :=
| PcViewport (w h : f32)
| PcHookWriteState
| PcHookReadState
| PcEmulatorSetConfig (c : EmulatorConfig).

(** The locals of [host_poll_events] and what its loop touches: the
    geometry, the core (through the hooks) and the calls made. *)
Record PollState : Type := mkPoll {
  poll_running : bool;
  poll_emu_config : EmulatorConfig;
  poll_host_config : HostConfig;
  poll_video : HostVideo;
  poll_core : Emulator;
  poll_calls : list PollCall
}.

Definition with_emu_config (s : PollState) (c : EmulatorConfig) : PollState :=
  mkPoll (poll_running s) c (poll_host_config s) (poll_video s) (poll_core s)
         (poll_calls s).
Definition with_host_config (s : PollState) (c : HostConfig) : PollState :=
  mkPoll (poll_running s) (poll_emu_config s) c (poll_video s) (poll_core s)
         (poll_calls s).
Definition with_running (s : PollState) (r : bool) : PollState :=
  mkPoll r (poll_emu_config s) (poll_host_config s) (poll_video s) (poll_core s)
         (poll_calls s).

(** [HOOK0(name)]. *)
Definition call_hook (hook : option (Emulator -> Emulator)) (c : PollCall)
    (s : PollState) : PollState :=
  match hook with
  | Some f => mkPoll (poll_running s) (poll_emu_config s) (poll_host_config s)
                     (poll_video s) (f (poll_core s)) (poll_calls s ++ [c])
  | None => s
  end.

(** The first [switch] of the [SDL_KEYDOWN] case. *)
Definition on_key_down (sc : Scancode) (s : PollState) : PollState :=
  let ec := poll_emu_config s in
  let hc := poll_host_config s in
  match sc with
  | SDL_SCANCODE_1 =>
      with_emu_config s (mkEmuConfig (negb (disable_sound1 ec)) (disable_sound2 ec)
        (disable_sound3 ec) (disable_sound4 ec) (disable_bg ec) (disable_window ec)
        (disable_obj ec))
  | SDL_SCANCODE_2 =>
      with_emu_config s (mkEmuConfig (disable_sound1 ec) (negb (disable_sound2 ec))
        (disable_sound3 ec) (disable_sound4 ec) (disable_bg ec) (disable_window ec)
        (disable_obj ec))
  | SDL_SCANCODE_3 =>
      with_emu_config s (mkEmuConfig (disable_sound1 ec) (disable_sound2 ec)
        (negb (disable_sound3 ec)) (disable_sound4 ec) (disable_bg ec) (disable_window ec)
        (disable_obj ec))
  | SDL_SCANCODE_4 =>
      with_emu_config s (mkEmuConfig (disable_sound1 ec) (disable_sound2 ec)
        (disable_sound3 ec) (negb (disable_sound4 ec)) (disable_bg ec) (disable_window ec)
        (disable_obj ec))
  | SDL_SCANCODE_B =>
      with_emu_config s (mkEmuConfig (disable_sound1 ec) (disable_sound2 ec)
        (disable_sound3 ec) (disable_sound4 ec) (negb (disable_bg ec)) (disable_window ec)
        (disable_obj ec))
  | SDL_SCANCODE_W =>
      with_emu_config s (mkEmuConfig (disable_sound1 ec) (disable_sound2 ec)
        (disable_sound3 ec) (disable_sound4 ec) (disable_bg ec) (negb (disable_window ec))
        (disable_obj ec))
  | SDL_SCANCODE_O =>
      with_emu_config s (mkEmuConfig (disable_sound1 ec) (disable_sound2 ec)
        (disable_sound3 ec) (disable_sound4 ec) (disable_bg ec) (disable_window ec)
        (negb (disable_obj ec)))
  | SDL_SCANCODE_F6 => call_hook hook_write_state PcHookWriteState s
  | SDL_SCANCODE_F9 => call_hook hook_read_state PcHookReadState s
  | SDL_SCANCODE_N =>
      with_host_config s (mkConfig (no_sync hc) false true (fullscreen hc))
  | SDL_SCANCODE_SPACE =>
      with_host_config s (mkConfig (no_sync hc) (negb (paused hc)) (step hc)
                                   (fullscreen hc))
  | SDL_SCANCODE_ESCAPE => with_running s false
  | _ => s
  end.

(** The [SDL_KEYUP] case, which the [SDL_KEYDOWN] case falls through to;
    [down] is [event.type == SDL_KEYDOWN]. *)
Definition on_key (down : bool) (sc : Scancode) (s : PollState) : PollState :=
  let hc := poll_host_config s in
  match sc with
  | SDL_SCANCODE_TAB =>
      with_host_config s (mkConfig down (paused hc) (step hc) (fullscreen hc))
  | SDL_SCANCODE_F11 =>
      if negb down then
        with_host_config s (mkConfig (no_sync hc) (paused hc) (step hc)
                                     (negb (fullscreen hc)))
      else s
  | _ => s
  end.

(** One iteration of the [while (SDL_PollEvent(&event))] loop. *)
Definition poll_event (s : PollState) (event : SDL_Event) : PollState :=
  match event with
  | SDL_WINDOWEVENT_RESIZED data1 data2 =>
      let w := f32_of_int data1 in
      let h := f32_of_int data2 in
      mkPoll (poll_running s) (poll_emu_config s) (poll_host_config s)
             (resize_video SCREEN_WIDTH SCREEN_HEIGHT w h) (poll_core s)
             (poll_calls s ++ [PcViewport w h])
  | SDL_WINDOWEVENT_other => s
  | SDL_KEYDOWN sc => on_key true sc (on_key_down sc s)
  | SDL_KEYUP sc => on_key false sc s
  | SDL_QUIT => with_running s false
  | SDL_EVENT_other => s
  end.

(** The state of the locals after the loop has drained [events], the
    pending events in the order [SDL_PollEvent] hands them out. *)
Definition poll_loop (events : list SDL_Event) (h : Host Emulator) (v : HostVideo)
    : PollState :=
  fold_left poll_event events
    (mkPoll true (emulator_get_config (hook_ctx_e h)) (host_get_config h) v
            (hook_ctx_e h) []).

(** [host_poll_events]: the result is the returned [running] flag, the
    host, its geometry and the calls made before [host_set_config]. *)
Definition host_poll_events (events : list SDL_Event) (h : Host Emulator)
    (v : HostVideo) : M (bool * Host Emulator * HostVideo * list PollCall) :=
  let s := poll_loop events h v in
  let e' := emulator_set_config (poll_core s) (poll_emu_config s) in
  let! h' := host_set_config (set_emulator h e') (poll_host_config s) in
  ret (poll_running s, h', poll_video s,
       poll_calls s ++ [PcEmulatorSetConfig (poll_emu_config s)]).

End Polling.

Arguments EmulatorConfigAccess Emulator : clear implicits.
Arguments HostHooks Emulator : clear implicits.

(** ** Start-up *)

Inductive Result (A : Type) : Type :=
| OK (a : A)
| ERROR.
Arguments OK {A} a.
Arguments ERROR {A}.

(** [HostInit] (host.h), restricted to the fields host.c reads. *)
Record HostInit : Type := mkInit {
  render_scale : Z;
  audio_frequency : Z;
  audio_frames : Z
}.

(** The fields of [want] that [host_init_audio] fills in; [samples] is a
    [Uint16]. *)
Record AudioWant : Type := mkWant {
  want_freq : Z;
  want_channels : Z;
  want_samples : Z
}.

(** What the environment answers during start-up: whether [SDL_Init]
    returned [0], whether [host_init_video] returned [OK], the spec
    [SDL_OpenAudioDevice] obtained ([None] when it returns [0]) and
    whether [calloc] returned a buffer. *)
Record StartupEnv : Type := mkEnv {
  SDL_Init_ok : bool;
  host_init_video_ok : bool;
  SDL_OpenAudioDevice : AudioWant -> option SDL_AudioSpec;
  calloc_ok : Z -> bool
}.

(** Modelled from the spec: [CHECK_MSG], [CHECK], [SUCCESS] and
    [ON_ERROR_RETURN] live in common.h, which is absent.  A failed check
    leaves the function with [ERROR] (the specification's fatal start-up
    errors).

    [host_init_audio].  The buffer is the [calloc]ed one, seen as 16-bit
    slots.  SDL opens an audio device paused and with nothing queued. *)
Definition host_init_audio (env : StartupEnv) (init : HostInit)
    : Result (HostAudio * SDL) :=
  let want := mkWant (audio_frequency init) AUDIO_SPEC_CHANNELS
                     (u16 (audio_frames init * AUDIO_SPEC_CHANNELS)) in
  match SDL_OpenAudioDevice env want with
  | None => ERROR
  | Some obtained =>
      if calloc_ok env (size obtained) then
        OK (mkAudio obtained
                    (replicate (Z.to_nat (size obtained / AUDIO_SPEC_SAMPLE_SIZE)) 0)
                    false,
            mkSDL 0 true [])
      else ERROR
  end.

Section Startup.
Context {Emulator : Type} `{EmulatorCore Emulator}.

(** [emulator_set_joypad_callback(e, joypad_callback, host)] (emulator.h),
    as a change of the core. *)
Variable emulator_set_joypad_callback : Emulator -> Emulator.

(** [host_init], as far as the audio, the configuration and the core go;
    [host_init_time] does not touch them. *)
Definition host_init (env : StartupEnv) (init : HostInit) (h : Host Emulator)
    : Result (Host Emulator * SDL) :=
  if SDL_Init_ok env then
    if host_init_video_ok env then
      match host_init_audio env init with
      | OK (a, w) =>
          OK (set_emulator (set_audio h a)
                (emulator_set_joypad_callback (hook_ctx_e h)), w)
      | ERROR => ERROR
      end
    else ERROR
  else ERROR.

(** [host_new]: the [calloc]ed [Host] has every flag of its
    configuration clear; [None] is the [NULL] result. *)
Definition host_new (env : StartupEnv) (init : HostInit) (e : Emulator)
    : option (Host Emulator * SDL) :=
  let host :=
    mkHost (mkConfig false false false false) (mkAudio (mkSpec 0) [] false) e in
  match host_init env init host with
  | OK r => Some r
  | ERROR => None
  end.

End Startup.

(** ** Describing runs *)

Section Runs.
Context {Emulator : Type} `{EmulatorCore Emulator}.
Context `{EmulatorConfigAccess Emulator} `{HostHooks Emulator}.
Variables SCREEN_WIDTH SCREEN_HEIGHT : Z.

(** The events the core reports when it is run towards [until_cycles]
    until it reports [EMULATOR_EVENT_UNTIL_CYCLES], at most [fuel] times. *)
Fixpoint core_reports (fuel : nat) (e : Emulator) (until_cycles : Z)
    : list EmulatorEvent :=
  match fuel with
  | O => []
  | S fuel' =>
      let '(e', event) := emulator_run_until e until_cycles in
      event :: (if EMULATOR_EVENT_UNTIL_CYCLES event then []
                else core_reports fuel' e' until_cycles)
  end.

(** The calls of a tick that go to the core and to the texture. *)
Definition core_or_video (c : Call) : bool :=
  match c with
  | EvRunUntil _ | EvTexSubImage2D => true
  | _ => false
  end.

Definition core_and_video_calls (cs : list Call) : list Call :=
  filter core_or_video cs.

(** The pacer and the device agree: the staging buffer has its size, the
    queue is below the maximum watermark plus one device buffer, and the
    device is paused exactly while the pacer is not ready. *)
Definition pacer_inv (h : Host Emulator) (w : SDL) : Prop :=
  staging_ok h /\
  0 <= audio_queued w < AUDIO_MAX_QUEUED_SIZE h + spec_size h /\
  audio_paused w = negb (ready (audio h)).

(** A client of host.c: it calls the public functions in any order, and
    the device plays in between. *)
Inductive HostCall : Type :=
| CallRunMs (delta_ms : f64)
| CallSetConfig (new_config : HostConfig)
| CallPollEvents (events : list SDL_Event)
| CallRenderAudio
| DevicePlays (n : Z).

Fixpoint host_calls (fuel : nat) (cs : list HostCall) (h : Host Emulator)
    (v : HostVideo) (w : SDL) : option (Host Emulator * HostVideo * SDL) :=
  match cs with
  | [] => Some (h, v, w)
  | CallRunMs delta_ms :: rest =>
      '(h', w') ← host_run_ms fuel h delta_ms w;
      host_calls fuel rest h' v w'
  | CallSetConfig new_config :: rest =>
      '(h', w') ← host_set_config h new_config w;
      host_calls fuel rest h' v w'
  | CallPollEvents events :: rest =>
      '(r, w') ← host_poll_events SCREEN_WIDTH SCREEN_HEIGHT events h v w;
      host_calls fuel rest r.1.1.2 r.1.2 w'
  | CallRenderAudio :: rest =>
      '(h', w') ← host_render_audio h w;
      host_calls fuel rest h' v w'
  | DevicePlays n :: rest => host_calls fuel rest h v (device_consume n w)
  end.

(** The delta of every tick of a client can be cast to [u32]. *)
Definition call_castable (c : HostCall) : Prop :=
  match c with
  | CallRunMs delta_ms => is_Some (f64_to_u32 (delta_cycles_expr delta_ms))
  | _ => True
  end.

End Runs.

Section Reports.
Context {Emulator : Type} `{EmulatorCore Emulator}.

(** The core and texture calls one report stands for. *)
Definition report_calls (until_cycles : Z) (event : EmulatorEvent) : list Call :=
  EvRunUntil until_cycles ::
  (if EMULATOR_EVENT_NEW_FRAME event then [EvTexSubImage2D] else []).

(** The core reports [EMULATOR_EVENT_UNTIL_CYCLES] within [fuel] runs. *)
Definition reaches_target (fuel : nat) (e : Emulator) (until_cycles : Z) : bool :=
  match last (core_reports fuel e until_cycles) with
  | Some event => EMULATOR_EVENT_UNTIL_CYCLES event
  | None => false
  end.

End Reports.

(** ** Describing batches of events *)

(** The number of key-down events of [sc] in a batch. *)
Definition key_downs (sc : Scancode) (events : list SDL_Event) : nat :=
  length (filter (fun ev => ev = SDL_KEYDOWN sc) events).

(** The number of key-up events of [sc] in a batch. *)
Definition key_ups (sc : Scancode) (events : list SDL_Event) : nat :=
  length (filter (fun ev => ev = SDL_KEYUP sc) events).

(** A flag toggled [n] times. *)
Definition toggled (b : bool) (n : nat) : bool := xorb b (Nat.odd n).

(** The events of a batch that ask to quit. *)
Definition quits (ev : SDL_Event) : bool :=
  match ev with
  | SDL_QUIT | SDL_KEYDOWN SDL_SCANCODE_ESCAPE => true
  | _ => false
  end.

(** The window sizes of the resize events of a batch, oldest first. *)
Definition resizes (events : list SDL_Event) : list (Z * Z) :=
  omap (fun ev => match ev with
                  | SDL_WINDOWEVENT_RESIZED data1 data2 => Some (data1, data2)
                  | _ => None
                  end) events.

(** The [paused] and [step] flags after the key-downs of a batch: [N]
    clears [paused] and sets [step], [SPACE] flips [paused]. *)
Definition playback_keys (ps : bool * bool) (ev : SDL_Event) : bool * bool :=
  match ev with
  | SDL_KEYDOWN SDL_SCANCODE_N => (false, true)
  | SDL_KEYDOWN SDL_SCANCODE_SPACE => (negb ps.1, ps.2)
  | _ => ps
  end.

(** The [no_sync] flag after the [TAB] events of a batch: the last one
    decides. *)
Definition sync_keys (ns : bool) (ev : SDL_Event) : bool :=
  match ev with
  | SDL_KEYDOWN SDL_SCANCODE_TAB => true
  | SDL_KEYUP SDL_SCANCODE_TAB => false
  | _ => ns
  end.

(** The events [host_poll_events] does nothing for: window events other
    than a resize, events of other types, key-downs of [F11] and of keys
    without a binding, and key-ups of every key but [TAB] and [F11]. *)
Definition ignored (ev : SDL_Event) : bool :=
  match ev with
  | SDL_WINDOWEVENT_other | SDL_EVENT_other => true
  | SDL_KEYDOWN SDL_SCANCODE_F11 | SDL_KEYDOWN (SDL_SCANCODE_other _) => true
  | SDL_KEYUP SDL_SCANCODE_TAB | SDL_KEYUP SDL_SCANCODE_F11 => false
  | SDL_KEYUP _ => true
  | _ => false
  end.

(** The geometry after the resize events of a batch. *)
Definition resized (SCREEN_WIDTH SCREEN_HEIGHT : Z) (v : HostVideo)
    (events : list SDL_Event) : HostVideo :=
  match last (resizes events) with
  | Some (data1, data2) =>
      resize_video SCREEN_WIDTH SCREEN_HEIGHT (f32_of_int data1) (f32_of_int data2)
  | None => v
  end.

Section Batches.
Context {Emulator : Type} `{HostHooks Emulator}.

(** The calls one event of a batch causes. *)
Definition event_calls (ev : SDL_Event) : list PollCall :=
  match ev with
  | SDL_WINDOWEVENT_RESIZED data1 data2 =>
      [PcViewport (f32_of_int data1) (f32_of_int data2)]
  | SDL_KEYDOWN SDL_SCANCODE_F6 =>
      match hook_write_state with Some _ => [PcHookWriteState] | None => [] end
  | SDL_KEYDOWN SDL_SCANCODE_F9 =>
      match hook_read_state with Some _ => [PcHookReadState] | None => [] end
  | _ => []
  end.

(** The core after the hooks one event of a batch calls. *)
Definition event_hooks (e : Emulator) (ev : SDL_Event) : Emulator :=
  match ev with
  | SDL_KEYDOWN SDL_SCANCODE_F6 =>
      match hook_write_state with Some f => f e | None => e end
  | SDL_KEYDOWN SDL_SCANCODE_F9 =>
      match hook_read_state with Some f => f e | None => e end
  | _ => e
  end.

End Batches.

(** A core with configuration, for running the host on concrete inputs. *)
#[global] Instance sim_config_access : EmulatorConfigAccess SimCore := {|
  emulator_get_config _ := mkEmuConfig false false false false false false false;
  emulator_set_config e _ := e
|}.

#[global] Instance sim_hooks : HostHooks SimCore := {|
  hook_write_state := None;
  hook_read_state := None
|}.

(** * Properties *)

(** ** Machine integers *)

Lemma u32_small z : is_u32 z -> u32 z = z.
Proof. unfold is_u32, u32; intros; apply Z.mod_small; lia. Qed.

Lemma u32_range z : is_u32 (u32 z).
Proof. unfold is_u32, u32; apply Z.mod_pos_bound; lia. Qed.

Lemma u32_le z : 0 <= z -> 0 <= u32 z <= z.
Proof.
  intros Hz; unfold u32; split; [apply Z.mod_pos_bound; lia|].
  apply Z.mod_le; lia.
Qed.

Lemma convert_u8_widens x :
  is_u8 x -> u16 (AUDIO_CONVERT_SAMPLE_FROM_U8 x) = x * 2 ^ 8.
Proof.
  unfold is_u8, u16, AUDIO_CONVERT_SAMPLE_FROM_U8; intros Hx.
  rewrite Z.shiftl_mul_pow2 by lia. apply Z.mod_small; lia.
Qed.

(** ** Doubles *)

Lemma binary_round_aux_sign prec emax s m e l :
  f64_negative (binary_round_aux prec emax s m e l) = true -> s = true.
Proof.
  unfold binary_round_aux.
  destruct (shr_fexp prec emax m e l) as [mrs' e'].
  destruct (shr_fexp prec emax _ e' loc_Exact) as [mrs'' e''].
  destruct (shr_m mrs''); cbn; try discriminate.
  destruct (_ <=? _); cbn; [|discriminate]. by destruct s.
Qed.

Lemma f64_mul_sign x y :
  f64_negative (f64_mul x y) = true ->
  exists sx sy, xorb sx sy = true /\
    match x with S754_finite s _ _ => s = sx | _ => False end /\
    match y with S754_finite s _ _ => s = sy | _ => False end.
Proof.
  unfold f64_mul, SFmul.
  destruct x as [sx|sx| |sx mx ex], y as [sy|sy| |sy my ey]; cbn; try discriminate.
  intros Hneg%binary_round_aux_sign. by exists sx, sy.
Qed.

Lemma f64_div_sign x y :
  f64_negative (f64_div x y) = true ->
  exists sx sy, xorb sx sy = true /\
    match x with S754_finite s _ _ => s = sx | _ => False end /\
    match y with S754_finite s _ _ => s = sy | _ => False end.
Proof.
  unfold f64_div, SFdiv.
  destruct x as [sx|sx| |sx mx ex], y as [sy|sy| |sy my ey]; cbn; try discriminate.
  destruct (SFdiv_core_binary _ _ _ _ _ _) as [[mz ez] lz].
  intros Hneg%binary_round_aux_sign. by exists sx, sy.
Qed.

(** On a double that is not below zero, discarding the fraction is taking
    the floor. *)
Lemma f64_to_u32_floor x n :
  f64_negative x = false -> f64_to_u32 x = Some n ->
  n = Qfloor (f64_value x) /\ is_u32 n.
Proof.
  destruct x as [s|s| |s m e]; cbn [f64_to_u32 f64_value f64_negative];
    try discriminate.
  - intros _ [= <-]. split; [reflexivity|]. unfold is_u32; lia.
  - intros Hs. destruct s; [discriminate|]. unfold f64_trunc. cbn [cond_Zopp].
    case_bool_decide as Hr; [|discriminate]. intros [= <-]. split; [|exact Hr].
    destruct (Z.leb_spec 0 e) as [He|He].
    + by rewrite Qfloor_Z.
    + cbn [Qfloor]. rewrite Pos2Z.inj_pow, Z2Pos.id by lia. reflexivity.
Qed.

Lemma f64_of_int_1000 : f64_of_int 1000 = S754_finite false 8796093022208000 (-43).
Proof. reflexivity. Qed.

Lemma f64_of_int_cps :
  f64_of_int CPU_CYCLES_PER_SECOND = S754_finite false 4503599627370496 (-30).
Proof. reflexivity. Qed.

(** For [delta_ms >= 0] the scaled value is not below zero. *)
Lemma delta_cycles_expr_sign delta_ms :
  f64_nonneg delta_ms -> f64_negative (delta_cycles_expr delta_ms) = false.
Proof.
  intros Hnn. destruct (f64_negative _) eqn:Hneg; [exfalso|reflexivity].
  unfold delta_cycles_expr in Hneg. rewrite f64_of_int_1000, f64_of_int_cps in Hneg.
  apply f64_div_sign in Hneg as (sx & sy & Hxor & Hx & <-).
  destruct (f64_mul _ _) as [| | |s m e] eqn:Hmul; try done. subst sx.
  assert (Hneg : f64_negative (f64_mul delta_ms
                   (S754_finite false 4503599627370496 (-30))) = true).
  { rewrite Hmul. cbn. by destruct s. }
  apply f64_mul_sign in Hneg as (sx & sy & Hxor' & Hd & <-).
  destruct delta_ms as [| | |sd md ed]; try done. subst sx.
  destruct sd; [|done]. unfold f64_nonneg in Hnn. cbn in Hnn. discriminate.
Qed.

(** ** The conversion loop *)

Lemma store_in_range (buf : list Z) i v :
  (i < length buf)%nat -> store buf i v = Some (<[i := v]> buf).
Proof. intros Hi; unfold store; case_decide; [done|lia]. Qed.

(** Pointwise description of the loop: slots [d .. d + 2n) receive the
    converted samples [s .. s + 2n) and every other slot is untouched. *)
Lemma convert_loop_lookup n : forall (src : list Z) s d d_end (buf : list Z),
  (d + 2 * n <= d_end)%nat -> (d_end <= length buf)%nat ->
  (s + 2 * n <= length src)%nat ->
  exists buf' : list Z,
    convert_loop n src s d d_end buf = Some buf' /\
    length buf' = length buf /\
    forall i, buf' !! i =
      if decide (d <= i < d + 2 * n)%nat
      then convert_sample <$> src !! (s + (i - d))%nat
      else buf !! i.
Proof.
  induction n as [|n IH]; intros src s d d_end buf Hd Hend Hs.
  - exists buf; split; [done|]; split; [done|].
    intros i; case_decide; [lia|done].
  - cbn [convert_loop]. case_decide; [|lia].
    destruct (lookup_lt_is_Some_2 src s) as [x0 Hx0]; [lia|].
    destruct (lookup_lt_is_Some_2 src (S s)) as [x1 Hx1]; [lia|].
    rewrite Hx0; cbn. rewrite store_in_range by lia; cbn.
    rewrite Hx1; cbn. rewrite store_in_range by (rewrite length_insert; lia); cbn.
    destruct (IH src (S (S s)) (S (S d)) d_end
                (<[S d := convert_sample x1]> (<[d := convert_sample x0]> buf)))
      as (buf' & Hrun & Hlen & Hlook);
      [lia | rewrite !length_insert; lia | lia |].
    exists buf'; split; [exact Hrun|]. split; [rewrite Hlen, !length_insert; done|].
    intros i; rewrite Hlook.
    destruct (decide (i = d)) as [->|Hid].
    + repeat case_decide; try lia.
      rewrite list_lookup_insert_ne by lia.
      rewrite list_lookup_insert_eq by lia.
      replace (s + (d - d))%nat with s by lia. by rewrite Hx0.
    + destruct (decide (i = S d)) as [->|HiS].
      * repeat case_decide; try lia.
        rewrite list_lookup_insert_eq by (rewrite length_insert; lia).
        replace (s + (S d - d))%nat with (S s) by lia. by rewrite Hx1.
      * rewrite !list_lookup_insert_ne by lia.
        repeat case_decide; try lia; try done.
        f_equal; f_equal; lia.
Qed.

(** Closed form of a whole run from the start of both buffers. *)
Lemma convert_loop_from_start n (src buf : list Z) :
  (2 * n <= length buf)%nat -> (2 * n <= length src)%nat ->
  convert_loop n src 0 0 (2 * n) buf
  = Some ((convert_sample <$> take (2 * n) src) ++ drop (2 * n) buf).
Proof.
  intros Hb Hs.
  destruct (convert_loop_lookup n src 0 0 (2 * n) buf) as (buf' & -> & Hlen & Hlook);
    [lia..|].
  f_equal. apply list_eq; intros i. rewrite Hlook.
  case_decide as Hi.
  - rewrite lookup_app_l by (rewrite length_fmap, length_take; lia).
    rewrite list_lookup_fmap, lookup_take_lt by lia.
    do 2 f_equal; lia.
  - rewrite lookup_app_r by (rewrite length_fmap, length_take; lia).
    rewrite length_fmap, length_take, lookup_drop. f_equal; lia.
Qed.

(** ** One delivery *)

Section Delivery.
Context {Emulator : Type} `{EmulatorCore Emulator}.
Implicit Types (h : Host Emulator) (w : SDL).

Lemma render_frames_bounds h :
  0 <= spec_size h ->
  0 <= render_frames h /\
  render_frames h <= audio_buffer_get_frames (emulator_get_audio_buffer (hook_ctx_e h)) /\
  render_frames h * AUDIO_FRAME_SIZE <= spec_size h.
Proof.
  intros Hsz. unfold render_frames, audio_buffer_get_frames, AUDIO_FRAME_SIZE,
    AUDIO_SPEC_SAMPLE_SIZE, AUDIO_SPEC_CHANNELS.
  set (len := Z.of_nat _).
  assert (0 <= len / 2) by (apply Z.div_pos; lia).
  assert (0 <= spec_size h / (2 * 2)) by (apply Z.div_pos; lia).
  assert (spec_size h / (2 * 2) * (2 * 2) <= spec_size h)
    by (rewrite Z.mul_comm; apply Z.mul_div_le; lia).
  lia.
Qed.

Lemma host_render_audio_convert h :
  staging_ok h ->
  convert_loop (Z.to_nat (render_frames h)) (data (emulator_get_audio_buffer (hook_ctx_e h)))
               0 0 (Z.to_nat (render_frames h * AUDIO_SPEC_CHANNELS)) (buffer (audio h))
  = Some ((convert_sample <$> source_samples h)
          ++ drop (Z.to_nat (render_frames h * AUDIO_SPEC_CHANNELS)) (buffer (audio h))).
Proof.
  intros [Hsz Hlen]. destruct (render_frames_bounds h Hsz) as (H0 & Hsrc & Hdst).
  unfold source_samples, AUDIO_FRAME_SIZE, AUDIO_SPEC_CHANNELS,
    AUDIO_SPEC_SAMPLE_SIZE, audio_buffer_get_frames in *.
  replace (Z.to_nat (render_frames h * 2)) with (2 * Z.to_nat (render_frames h))%nat by lia.
  apply convert_loop_from_start.
  - assert (render_frames h * 2 <= spec_size h / 2)
      by (apply Z.div_le_lower_bound; lia).
    lia.
  - set (len := Z.of_nat (length (data _))) in *.
    assert (2 * (len / 2) <= len) by (apply Z.mul_div_le; lia).
    lia.
Qed.

Lemma source_samples_length h :
  staging_ok h ->
  length (source_samples h) = Z.to_nat (render_frames h * AUDIO_SPEC_CHANNELS).
Proof.
  intros [Hsz _]. destruct (render_frames_bounds h Hsz) as (H0 & Hsrc & _).
  unfold source_samples, audio_buffer_get_frames, AUDIO_SPEC_CHANNELS in *.
  rewrite length_take.
  set (len := Z.of_nat (length (data _))) in *.
  assert (2 * (len / 2) <= len) by (apply Z.mul_div_le; lia).
  lia.
Qed.

(** What one call of [host_render_audio] does, in closed form. *)
Lemma host_render_audio_eq h w :
  staging_ok h ->
  let chunk := convert_sample <$> source_samples h in
  let buf := chunk ++ drop (length chunk) (buffer (audio h)) in
  let q := audio_queued w in
  let bsz := u32 (render_frames h * AUDIO_SPEC_CHANNELS * AUDIO_SPEC_SAMPLE_SIZE) in
  let enq := bool_decide (q < AUDIO_MAX_QUEUED_SIZE h) in
  let q' := if enq then u32 (q + bsz) else q in
  let fire := negb (ready (audio h)) && bool_decide (AUDIO_TARGET_QUEUED_SIZE h <= q') in
  host_render_audio h w =
    Some (set_audio h (mkAudio (spec (audio h)) buf (ready (audio h) || fire)),
          mkSDL (if enq then q + bsz else q)
                (audio_paused w && negb fire)
                (calls w
                 ++ (if enq then [EvQueueAudio chunk; EvHookAudioAddBuffer q q'] else [])
                 ++ (if fire then [EvHookAudioBufferReady q'; EvPauseAudioDevice false]
                     else []))).
Proof.
  intros Hok chunk buf q bsz enq q' fire.
  pose proof (source_samples_length h Hok) as Hlen.
  pose proof (host_render_audio_convert h Hok) as Hconv.
  destruct Hok as [Hsz Hbuf]. destruct (render_frames_bounds h Hsz) as (H0 & _ & Hdst).
  unfold host_render_audio, bind, assert.
  rewrite bool_decide_eq_true_2
    by (unfold AUDIO_FRAME_SIZE, AUDIO_SPEC_CHANNELS, AUDIO_SPEC_SAMPLE_SIZE in *; lia).
  cbn [ret]. rewrite Hconv; cbn [lift SDL_GetQueuedAudioSize].
  assert (Htake : take (Z.to_nat (render_frames h * AUDIO_SPEC_CHANNELS))
                    ((convert_sample <$> source_samples h)
                     ++ drop (Z.to_nat (render_frames h * AUDIO_SPEC_CHANNELS))
                          (buffer (audio h))) = chunk).
  { rewrite <- Hlen, <- (length_fmap convert_sample). apply take_app_length. }
  rewrite Htake.
  assert (Hbufeq : (convert_sample <$> source_samples h)
                   ++ drop (Z.to_nat (render_frames h * AUDIO_SPEC_CHANNELS))
                        (buffer (audio h)) = buf).
  { subst buf chunk. by rewrite length_fmap, Hlen. }
  rewrite Hbufeq.
  fold q bsz. fold enq.
  destruct w as [wq wp wc]; cbn in q; subst q.
  destruct enq eqn:Henq; cbn [SDL_QueueAudio record ret audio_queued audio_paused calls];
    fold q'; subst q'; cbn [audio_queued].
  - destruct (ready (audio h)) eqn:Hr; cbn [negb andb orb] in *; subst fire.
    + cbn [ret]. rewrite andb_true_r, <- !app_assoc. reflexivity.
    + cbn [andb orb negb]. case_bool_decide; cbn [ret SDL_PauseAudioDevice record negb
        audio_queued audio_paused calls set_audio audio config hook_ctx_e spec].
      * rewrite andb_false_r, <- !app_assoc. reflexivity.
      * rewrite andb_true_r, <- !app_assoc. reflexivity.
  - destruct (ready (audio h)) eqn:Hr; cbn [negb andb orb] in *; subst fire.
    + cbn [ret]. rewrite andb_true_r, !app_nil_r. reflexivity.
    + cbn [andb orb negb]. case_bool_decide; cbn [ret SDL_PauseAudioDevice record negb
        audio_queued audio_paused calls set_audio audio config hook_ctx_e spec].
      * rewrite andb_false_r, <- app_assoc. reflexivity.
      * rewrite andb_true_r, !app_nil_r. reflexivity.
Qed.

Lemma enqueued_app cs1 cs2 : enqueued (cs1 ++ cs2) = enqueued cs1 ++ enqueued cs2.
Proof. unfold enqueued. apply omap_app. Qed.

Lemma chunk_bytes_exact h :
  staging_ok h -> is_u32 (spec_size h) ->
  u32 (render_frames h * AUDIO_SPEC_CHANNELS * AUDIO_SPEC_SAMPLE_SIZE)
  = AUDIO_SPEC_SAMPLE_SIZE * Z.of_nat (length (convert_sample <$> source_samples h)).
Proof.
  intros Hok Hu. rewrite length_fmap, (source_samples_length h Hok).
  destruct Hok as [Hsz _]. destruct (render_frames_bounds h Hsz) as (H0 & _ & Hdst).
  unfold AUDIO_FRAME_SIZE, AUDIO_SPEC_CHANNELS, AUDIO_SPEC_SAMPLE_SIZE, is_u32 in *.
  rewrite u32_small by (unfold is_u32; lia). lia.
Qed.

(** C2.  Back-pressure of one delivery.  With the device buffer size such
    that [5 * size] fits in 32 bits, [host_render_audio] returns normally
    and: if the queued byte count it reads is at least [5 * size], nothing
    is handed to [SDL_QueueAudio] and the queued byte count is unchanged;
    otherwise exactly one chunk, the whole converted chunk, is appended and
    the queued byte count grows by the byte size of that chunk. *)
Theorem deliver_backpressure h w :
  staging_ok h -> 5 * spec_size h < 2 ^ 32 ->
  exists h' w',
    host_render_audio h w = Some (h', w') /\
    (5 * spec_size h <= audio_queued w ->
       audio_queued w' = audio_queued w /\
       enqueued (calls w') = enqueued (calls w)) /\
    (audio_queued w < 5 * spec_size h ->
       let chunk := convert_sample <$> source_samples h in
       enqueued (calls w') = enqueued (calls w) ++ [chunk] /\
       audio_queued w' =
         audio_queued w + AUDIO_SPEC_SAMPLE_SIZE * Z.of_nat (length chunk)).
Proof.
  intros Hok Hfit. pose proof Hok as [Hsz _].
  assert (Hmax : AUDIO_MAX_QUEUED_SIZE h = 5 * spec_size h)
    by (apply u32_small; unfold is_u32; lia).
  eexists _, _; split; [apply (host_render_audio_eq h w Hok)|].
  cbn [audio_queued calls]. rewrite Hmax. split.
  - intros Hfull. rewrite bool_decide_eq_false_2 by lia. split; [done|].
    rewrite !enqueued_app. cbn [app].
    destruct (_ && _); cbn; by rewrite app_nil_r.
  - intros Hroom. rewrite bool_decide_eq_true_2 by lia.
    rewrite chunk_bytes_exact by (done || unfold is_u32; lia). split; [|done].
    rewrite !enqueued_app.
    destruct (_ && _); cbn; by rewrite ?app_nil_r.
Qed.

(** C9.  The frames converted by one delivery number exactly
    [min(source frames, spec.size / AUDIO_FRAME_SIZE)], and every unsigned
    8-bit source sample [x] lands in the staging buffer, and in the chunk
    given to the device, as the 16-bit value [x << 8]; the staging buffer
    beyond the converted frames is left as it was. *)
Theorem deliver_converts h w :
  staging_ok h ->
  Forall is_u8 (data (emulator_get_audio_buffer (hook_ctx_e h))) ->
  let ab := emulator_get_audio_buffer (hook_ctx_e h) in
  let frames := Z.min (audio_buffer_get_frames ab) (spec_size h / AUDIO_FRAME_SIZE) in
  let n := Z.to_nat (frames * AUDIO_SPEC_CHANNELS) in
  let chunk := (fun x => Z.shiftl x 8) <$> take n (data ab) in
  exists h' w',
    host_render_audio h w = Some (h', w') /\
    Z.of_nat (length chunk) = frames * AUDIO_SPEC_CHANNELS /\
    Forall (fun y => 0 <= y < 2 ^ 16) chunk /\
    buffer (audio h') = chunk ++ drop n (buffer (audio h)) /\
    (audio_queued w < AUDIO_MAX_QUEUED_SIZE h ->
       enqueued (calls w') = enqueued (calls w) ++ [chunk]).
Proof.
  intros Hok Hu8 ab frames n chunk.
  assert (Hshift : forall x, is_u8 x -> convert_sample x = Z.shiftl x 8).
  { intros x Hx. unfold convert_sample. rewrite convert_u8_widens by done.
    unfold is_u8 in Hx. rewrite Z.shiftl_mul_pow2; lia. }
  assert (Hchunk : convert_sample <$> source_samples h = chunk).
  { subst chunk n frames ab. unfold source_samples, render_frames.
    apply Forall_fmap_ext_1, Forall_take.
    eapply Forall_impl; [exact Hu8|]. exact Hshift. }
  pose proof (source_samples_length h Hok) as Hlen.
  pose proof (host_render_audio_eq h w Hok) as Hrun. cbv zeta in Hrun.
  rewrite Hchunk in Hrun.
  assert (Hn : length chunk = n).
  { rewrite <- Hchunk, length_fmap, Hlen. reflexivity. }
  rewrite Hn in Hrun.
  eexists _, _; split; [exact Hrun|]. clear Hrun.
  cbn [audio buffer set_audio calls].
  destruct Hok as [Hsz _]. destruct (render_frames_bounds h Hsz) as (H0 & _ & _).
  repeat split.
  - rewrite Hn. subst n frames ab. fold (render_frames h).
    unfold AUDIO_SPEC_CHANNELS in *. lia.
  - subst chunk. apply Forall_fmap, Forall_take.
    eapply Forall_impl; [exact Hu8|]. intros x Hx; cbn.
    unfold is_u8 in Hx. rewrite Z.shiftl_mul_pow2; lia.
  - intros Hroom. rewrite bool_decide_eq_true_2 by done.
    rewrite !enqueued_app. destruct (_ && _); cbn; by rewrite ?app_nil_r.
Qed.

(** C10.  For every source frame count and every device buffer size that
    is a positive multiple of [AUDIO_FRAME_SIZE], with the staging buffer
    of [spec.size] bytes: the end pointer of the conversion is at most
    [spec.size] bytes into the staging buffer, and the call completes
    without a failed [assert] and without a store outside the buffer (the
    only ways the model of the loop can stop short); the slots from
    [dst_end] on are not written. *)
Theorem render_audio_in_bounds h w :
  0 < spec_size h -> (AUDIO_FRAME_SIZE | spec_size h) ->
  Z.of_nat (length (buffer (audio h))) = spec_size h / AUDIO_SPEC_SAMPLE_SIZE ->
  let frames := Z.min (audio_buffer_get_frames (emulator_get_audio_buffer (hook_ctx_e h)))
                      (spec_size h / AUDIO_FRAME_SIZE) in
  let dst_end := Z.to_nat (frames * AUDIO_SPEC_CHANNELS) in
  Z.of_nat dst_end * AUDIO_SPEC_SAMPLE_SIZE <= spec_size h /\
  (dst_end <= length (buffer (audio h)))%nat /\
  exists h' w',
    host_render_audio h w = Some (h', w') /\
    length (buffer (audio h')) = length (buffer (audio h)) /\
    drop dst_end (buffer (audio h')) = drop dst_end (buffer (audio h)).
Proof.
  intros Hpos _ Hbuf frames dst_end.
  assert (Hok : staging_ok h) by (split; [lia|exact Hbuf]).
  pose proof (source_samples_length h Hok) as Hlen.
  destruct (render_frames_bounds h (proj1 Hok)) as (H0 & _ & Hdst).
  fold (render_frames h) in frames. subst frames.
  assert (Hend : Z.of_nat dst_end * AUDIO_SPEC_SAMPLE_SIZE <= spec_size h).
  { subst dst_end.
    unfold AUDIO_FRAME_SIZE, AUDIO_SPEC_CHANNELS, AUDIO_SPEC_SAMPLE_SIZE in *. lia. }
  assert (Hslots : (dst_end <= length (buffer (audio h)))%nat).
  { unfold AUDIO_SPEC_SAMPLE_SIZE in *.
    assert (Z.of_nat dst_end <= spec_size h / 2) by (apply Z.div_le_lower_bound; lia).
    lia. }
  split; [exact Hend|]. split; [exact Hslots|].
  eexists _, _; split; [apply (host_render_audio_eq h w Hok)|].
  cbn [audio buffer set_audio]. rewrite length_fmap, Hlen. fold dst_end. split.
  - rewrite length_app, length_fmap, Hlen, length_drop. fold dst_end. lia.
  - rewrite drop_app_length'; [done|by rewrite length_fmap, Hlen].
Qed.

End Delivery.

(** ** Scenarios of the specification, run on the model *)

(** First scenario of the specification, scaled to a device buffer of 64
    bytes (16 frames): the second full delivery brings the queue to twice
    the buffer size and makes the pacer ready. *)
Example scenario_priming :
  option_map fst
    (deliveries [Deliver (sim_frames 16); Deliver (sim_frames 16);
                 Deliver (sim_frames 16)]
                (sim_host 64 running (sim_frames 0)) sdl_idle)
  = Some [mkObs 64 false 0; mkObs 128 true 1; mkObs 192 true 0].
Proof. vm_compute. reflexivity. Qed.

(** Second scenario: five full deliveries reach five times the buffer
    size; the sixth is dropped. *)
Example scenario_drop :
  option_map (fun r => map queued_after (fst r))
    (deliveries (replicate 6 (Deliver (sim_frames 16)))
                (sim_host 64 running (sim_frames 0)) sdl_idle)
  = Some [64; 128; 192; 256; 320; 320].
Proof. vm_compute. reflexivity. Qed.

(** ** Sequences of deliveries *)

Section Sequences.
Context {Emulator : Type} `{EmulatorCore Emulator}.
Implicit Types (h : Host Emulator) (w : SDL) (steps : list (AudioStep Emulator)).

Lemma unpauses_app cs1 cs2 : unpauses (cs1 ++ cs2) = (unpauses cs1 + unpauses cs2)%nat.
Proof. unfold unpauses. by rewrite filter_app, length_app. Qed.

Lemma device_consume_queued n w :
  0 <= audio_queued w ->
  0 <= audio_queued (device_consume n w) <= audio_queued w.
Proof. unfold device_consume. destruct (audio_paused w); cbn; lia. Qed.

Lemma device_consume_paused n w :
  audio_paused (device_consume n w) = audio_paused w.
Proof. unfold device_consume. by destruct (audio_paused w) eqn:E. Qed.

Lemma unpauses_queue chunk a b :
  unpauses [EvQueueAudio chunk; EvHookAudioAddBuffer a b] = 0%nat.
Proof. reflexivity. Qed.

Lemma unpauses_ready q :
  unpauses [EvHookAudioBufferReady q; EvPauseAudioDevice false] = 1%nat.
Proof. reflexivity. Qed.

(** One delivery, as far as the queue and the pacer state are concerned. *)
Lemma deliver_step h w :
  staging_ok h -> 0 <= audio_queued w ->
  exists h' w',
    host_render_audio h w = Some (h', w') /\
    staging_ok h' /\ spec (audio h') = spec (audio h) /\
    config h' = config h /\ hook_ctx_e h' = hook_ctx_e h /\
    audio_queued w <= audio_queued w' /\
    (audio_queued w' = audio_queued w \/
     audio_queued w < AUDIO_MAX_QUEUED_SIZE h /\
     audio_queued w' <= audio_queued w + spec_size h) /\
    (audio_queued w' < 2 ^ 32 ->
       let fire := negb (ready (audio h))
                   && bool_decide (AUDIO_TARGET_QUEUED_SIZE h <= audio_queued w') in
       ready (audio h') = ready (audio h) || fire /\
       audio_paused w' = audio_paused w && negb fire /\
       unpauses (calls w') = (unpauses (calls w) + if fire then 1 else 0)%nat).
Proof.
  intros Hok Hq.
  pose proof (source_samples_length h Hok) as Hlen.
  pose proof Hok as [Hsz Hbuf].
  destruct (render_frames_bounds h Hsz) as (H0 & _ & Hdst).
  eexists _, _; split; [apply (host_render_audio_eq h w Hok)|].
  cbn [audio buffer set_audio calls spec config hook_ctx_e ready audio_queued audio_paused].
  set (bsz := u32 (render_frames h * AUDIO_SPEC_CHANNELS * AUDIO_SPEC_SAMPLE_SIZE)).
  assert (Hbsz : 0 <= bsz <= spec_size h).
  { subst bsz. unfold AUDIO_FRAME_SIZE, AUDIO_SPEC_CHANNELS, AUDIO_SPEC_SAMPLE_SIZE in *.
    pose proof (u32_le (render_frames h * 2 * 2)). lia. }
  split.
  { split; [exact Hsz|]. unfold spec_size; cbn.
    rewrite length_app, length_drop, length_fmap, Hlen. fold (spec_size h).
    rewrite <- Hbuf. unfold AUDIO_FRAME_SIZE, AUDIO_SPEC_CHANNELS, AUDIO_SPEC_SAMPLE_SIZE in *.
    assert (render_frames h * 2 <= spec_size h / 2) by (apply Z.div_le_lower_bound; lia).
    lia. }
  do 3 (split; [reflexivity|]).
  case_bool_decide as Henq.
  - split; [lia|]. split; [right; lia|]. intros Hfit.
    rewrite (u32_small (audio_queued w + bsz)) by (unfold is_u32; lia).
    split; [reflexivity|]. split; [reflexivity|].
    rewrite !unpauses_app, unpauses_queue.
    destruct (_ && _); [rewrite unpauses_ready|]; cbn; lia.
  - split; [lia|]. split; [left; lia|]. intros Hfit.
    split; [reflexivity|]. split; [reflexivity|].
    rewrite !unpauses_app.
    destruct (_ && _); [rewrite unpauses_ready|]; cbn; lia.
Qed.

Lemma same_spec_size h h' :
  spec (audio h') = spec (audio h) ->
  spec_size h' = spec_size h /\
  AUDIO_MAX_QUEUED_SIZE h' = AUDIO_MAX_QUEUED_SIZE h /\
  AUDIO_TARGET_QUEUED_SIZE h' = AUDIO_TARGET_QUEUED_SIZE h.
Proof.
  intros Hs. unfold AUDIO_MAX_QUEUED_SIZE, AUDIO_TARGET_QUEUED_SIZE, spec_size.
  by rewrite Hs.
Qed.

Lemma deliveries_queue_bound steps : forall h w,
  staging_ok h ->
  0 <= audio_queued w < AUDIO_MAX_QUEUED_SIZE h + spec_size h ->
  exists obs final,
    deliveries steps h w = Some (obs, final) /\
    Forall (fun o => 0 <= queued_after o < AUDIO_MAX_QUEUED_SIZE h + spec_size h) obs.
Proof.
  induction steps as [|[n|e] steps IH]; intros h w Hok Hq; cbn [deliveries].
  - by eexists _, _.
  - pose proof (device_consume_queued n w (proj1 Hq)).
    apply IH; [done|lia].
  - assert (Hok' : staging_ok (set_emulator h e)) by exact Hok.
    destruct (deliver_step (set_emulator h e) w Hok' (proj1 Hq))
      as (h' & w' & -> & Hok2 & Hspec & _ & _ & Hle & Hcase & _).
    destruct (same_spec_size (set_emulator h e) h' Hspec) as (Hsz & Hmax & _).
    change (spec_size (set_emulator h e)) with (spec_size h) in *.
    change (AUDIO_MAX_QUEUED_SIZE (set_emulator h e)) with (AUDIO_MAX_QUEUED_SIZE h) in *.
    assert (Hq' : 0 <= audio_queued w' < AUDIO_MAX_QUEUED_SIZE h + spec_size h) by lia.
    cbn [mbind option_bind].
    destruct (IH h' w' Hok2) as (obs & final & -> & Hall); [rewrite Hsz, Hmax; lia|].
    cbn [mbind option_bind]. eexists _, _; split; [reflexivity|].
    constructor; [exact Hq'|]. by rewrite Hsz, Hmax in Hall.
Qed.

(** C1, as the code has it.  The watermark is tested before the chunk is
    appended, so after a delivery the queued byte count is strictly below
    [AUDIO_MAX_QUEUED_SIZE] plus one device buffer, i.e. below six device
    buffers, in every sequence of deliveries and device playback that
    starts below that bound (an empty queue in front of a non-empty
    device buffer in particular). *)
Theorem queue_bounded_after_delivery steps h w :
  staging_ok h ->
  0 <= audio_queued w < AUDIO_MAX_QUEUED_SIZE h + spec_size h ->
  exists obs final,
    deliveries steps h w = Some (obs, final) /\
    Forall (fun o => queued_after o < AUDIO_MAX_QUEUED_SIZE h + spec_size h) obs /\
    (5 * spec_size h < 2 ^ 32 ->
     Forall (fun o => queued_after o < 6 * spec_size h) obs).
Proof.
  intros Hok Hq.
  destruct (deliveries_queue_bound steps h w Hok Hq) as (obs & final & Hrun & Hall).
  exists obs, final. split; [exact Hrun|]. split.
  - eapply Forall_impl; [exact Hall|]. cbn; lia.
  - intros Hfit. destruct Hok as [Hsz _].
    assert (Hmax : AUDIO_MAX_QUEUED_SIZE h = 5 * spec_size h)
      by (apply u32_small; unfold is_u32; lia).
    eapply Forall_impl; [exact Hall|]. cbn; lia.
Qed.

Lemma host_reset_audio_eq h w :
  host_reset_audio h w =
    Some (set_audio h (mkAudio (spec (audio h)) (buffer (audio h)) false),
          mkSDL 0 true (calls w ++ [EvClearQueuedAudio; EvPauseAudioDevice true])).
Proof.
  unfold host_reset_audio, bind, SDL_ClearQueuedAudio, SDL_PauseAudioDevice, ret.
  cbn. by rewrite <- app_assoc.
Qed.

Lemma deliveries_pacer steps : forall h w,
  staging_ok h -> 7 * spec_size h <= 2 ^ 32 ->
  0 <= audio_queued w < 6 * spec_size h ->
  audio_paused w = negb (ready (audio h)) ->
  exists obs h' w',
    deliveries steps h w = Some (obs, (h', w')) /\
    pacer_trace (2 * spec_size h) (ready (audio h)) obs /\
    audio_paused w' = negb (ready (audio h')).
Proof.
  induction steps as [|[n|e] steps IH]; intros h w Hok Hfit Hq Hp; cbn [deliveries].
  - by eexists _, _, _.
  - pose proof (device_consume_queued n w (proj1 Hq)).
    apply IH; [done|done|lia|by rewrite device_consume_paused].
  - assert (Hok' : staging_ok (set_emulator h e)) by exact Hok.
    destruct (deliver_step (set_emulator h e) w Hok' (proj1 Hq))
      as (h' & w' & -> & Hok2 & Hspec & _ & _ & Hle & Hcase & Hpacer).
    destruct (same_spec_size (set_emulator h e) h' Hspec) as (Hsz & _ & _).
    change (spec_size (set_emulator h e)) with (spec_size h) in *.
    change (ready (audio (set_emulator h e))) with (ready (audio h)) in *.
    destruct Hok as [Hnn _].
    assert (Hmax : AUDIO_MAX_QUEUED_SIZE (set_emulator h e) = 5 * spec_size h)
      by (apply u32_small; unfold is_u32; change (spec_size _) with (spec_size h); lia).
    assert (Htgt : AUDIO_TARGET_QUEUED_SIZE (set_emulator h e) = 2 * spec_size h)
      by (apply u32_small; unfold is_u32; change (spec_size _) with (spec_size h); lia).
    rewrite Hmax in Hcase. rewrite Htgt in Hpacer.
    destruct Hpacer as (Hready & Hpaused & Hunp); [lia|].
    cbn [mbind option_bind].
    destruct (IH h' w' Hok2) as (obs & h'' & w'' & -> & Htrace & Hfinal);
      [rewrite Hsz; lia | rewrite Hsz; lia | |].
    { rewrite Hpaused, Hready, Hp.
      destruct (ready (audio h)), (bool_decide _); reflexivity. }
    cbn [mbind option_bind]. eexists _, _, _; split; [reflexivity|].
    split; [|exact Hfinal].
    cbn [pacer_trace queued_after ready_after unpaused_by].
    rewrite Hsz, Hready in Htrace.
    split; [rewrite Hunp; destruct (_ && _); lia|].
    split; [rewrite Hready|].
    + destruct (ready (audio h)), (bool_decide _); reflexivity.
    + destruct (ready (audio h)), (bool_decide _); exact Htrace.
Qed.

Lemma pacer_trace_lookup target obs : forall seen i o,
  pacer_trace target seen obs -> obs !! i = Some o ->
  (unpaused_by o <= 1)%nat /\
  (unpaused_by o = 1%nat <->
     seen = false /\ target <= queued_after o /\
     forall j o', (j < i)%nat -> obs !! j = Some o' -> queued_after o' < target) /\
  (ready_after o = true <->
     seen = true \/
     exists j o', (j <= i)%nat /\ obs !! j = Some o' /\ target <= queued_after o').
Proof.
  induction obs as [|o0 obs IH]; intros seen i o Htrace Hi; [done|].
  cbn [pacer_trace] in Htrace. destruct Htrace as (Hunp & Hrdy & Hrest).
  destruct i as [|i]; cbn in Hi.
  - injection Hi as <-. rewrite Hunp, Hrdy. clear Hunp Hrdy Hrest IH.
    assert (Hex : (exists j o', (j <= 0)%nat /\ (o0 :: obs) !! j = Some o'
                                /\ target <= queued_after o')
                  <-> target <= queued_after o0).
    { split.
      - intros (j & o' & Hj & Hlook & Hge).
        assert (j = 0)%nat as -> by lia. cbn in Hlook. by injection Hlook as <-.
      - intros Hge. by exists 0%nat, o0. }
    rewrite Hex. clear Hex.
    destruct seen; case_bool_decide as Hr; cbn [negb andb orb].
    + split; [lia|]. split; split; try done; try (intros; by left).
      intros (? & _); done.
    + split; [lia|]. split; split; try done; try (intros; by left).
      intros (? & _); done.
    + split; [lia|]. split; split; try done; try (intros; by right).
      intros _. repeat split; [done|]. intros j o' Hj; lia.
    + split; [lia|]. split; split; try done.
      * intros (_ & ? & _); lia.
      * intros [?|?]; [done|lia].
  - destruct (IH _ _ _ Hrest Hi) as (Hle & Hone & Hready).
    split; [exact Hle|]. split.
    + rewrite Hone. split.
      * intros (Hseen & Hge & Hbefore).
        apply orb_false_iff in Hseen as [-> Hr0].
        apply bool_decide_eq_false in Hr0.
        repeat split; [exact Hge|]. intros [|j] o' Hj Hlook; cbn in Hlook.
        -- injection Hlook as <-. lia.
        -- apply (Hbefore j); [lia|done].
      * intros (-> & Hge & Hbefore). split; [|split; [exact Hge|]].
        -- cbn. apply bool_decide_eq_false.
           specialize (Hbefore 0%nat o0). cbn in Hbefore.
           assert (queued_after o0 < target) by (apply Hbefore; [lia|done]). lia.
        -- intros j o' Hj Hlook. apply (Hbefore (S j)); [lia|done].
    + rewrite Hready. split.
      * intros [Hseen|(j & o' & Hj & Hlook & Hge)].
        -- apply orb_true_iff in Hseen as [->|Hr0]; [by left|].
           apply bool_decide_eq_true in Hr0.
           right. exists 0%nat, o0. repeat split; [lia|done].
        -- right. exists (S j), o'. repeat split; [lia|done|done].
      * intros [->|(j & o' & Hj & Hlook & Hge)]; [by left|].
        destruct j as [|j]; cbn in Hlook.
        -- injection Hlook as <-. left. apply orb_true_iff. right.
           by apply bool_decide_eq_true.
        -- right. exists j, o'. repeat split; [lia|done|done].
Qed.

Lemma pacer_trace_total target obs : forall seen,
  pacer_trace target seen obs ->
  sum_list (unpaused_by <$> obs) =
    if seen then 0%nat
    else if bool_decide (Exists (fun o => target <= queued_after o) obs)
         then 1%nat else 0%nat.
Proof.
  induction obs as [|o obs IH]; intros seen Htrace.
  - destruct seen; [reflexivity|]. rewrite bool_decide_eq_false_2; [reflexivity|].
    by intros ?%Exists_nil.
  - destruct Htrace as (Hunp & _ & Hrest). specialize (IH _ Hrest).
    rewrite fmap_cons. cbn [sum_list sum_list_with].
    rewrite Hunp. destruct seen; cbn [negb andb orb] in *; [exact IH|].
    destruct (bool_decide (target <= queued_after o)) eqn:Hr; cbn [orb] in IH.
    + apply bool_decide_eq_true in Hr.
      rewrite bool_decide_eq_true_2 by (by apply Exists_cons_hd). by rewrite IH.
    + apply bool_decide_eq_false in Hr. rewrite IH. cbn [Nat.add].
      rewrite (bool_decide_ext (Exists _ (o :: obs)) (Exists (fun o => target <= queued_after o) obs));
        [reflexivity|].
      rewrite Exists_cons. tauto.
Qed.

(** C3.  After [host_reset_audio] the pacer is Priming.  In any following
    sequence of deliveries and device playback, a delivery unpauses the
    device exactly when it is the first whose resulting queued byte count
    is at least twice the device buffer size; [audio.ready] is set from
    that delivery on, and the device is paused exactly while [audio.ready]
    is unset.  Over the whole sequence the device is unpaused once if some
    delivery reaches that watermark and never otherwise: the transition
    cannot fire a second time before the next [host_reset_audio]. *)
Theorem ready_transition_once steps h0 w0 h w :
  staging_ok h0 -> 0 < spec_size h0 -> 7 * spec_size h0 <= 2 ^ 32 ->
  host_reset_audio h0 w0 = Some (h, w) ->
  ready (audio h) = false /\
  exists obs h' w',
    deliveries steps h w = Some (obs, (h', w')) /\
    sum_list (unpaused_by <$> obs) =
      (if bool_decide (Exists (fun o => 2 * spec_size h0 <= queued_after o) obs)
       then 1%nat else 0%nat) /\
    (forall i o, obs !! i = Some o ->
       (unpaused_by o = 1%nat <->
          2 * spec_size h0 <= queued_after o /\
          forall j o', (j < i)%nat -> obs !! j = Some o' ->
                       queued_after o' < 2 * spec_size h0) /\
       (ready_after o = true <->
          exists j o', (j <= i)%nat /\ obs !! j = Some o' /\
                       2 * spec_size h0 <= queued_after o')) /\
    audio_paused w' = negb (ready (audio h')).
Proof.
  intros Hok Hpos Hfit Hreset. rewrite host_reset_audio_eq in Hreset.
  injection Hreset as <- <-. split; [reflexivity|].
  destruct (deliveries_pacer steps
              (set_audio h0 (mkAudio (spec (audio h0)) (buffer (audio h0)) false))
              (mkSDL 0 true (calls w0 ++ [EvClearQueuedAudio; EvPauseAudioDevice true])))
    as (obs & h' & w' & Hrun & Htrace & Hfinal);
    [exact Hok | exact Hfit | cbn; change (spec_size _) with (spec_size h0); lia
    | reflexivity |].
  change (spec_size _) with (spec_size h0) in Htrace. cbn [ready audio set_audio] in Htrace.
  exists obs, h', w'. split; [exact Hrun|]. split.
  { apply (pacer_trace_total _ _ _ Htrace). }
  split; [|exact Hfinal].
  intros i o Hi.
  destruct (pacer_trace_lookup _ _ _ _ _ Htrace Hi) as (_ & Hone & Hready).
  split.
  - rewrite Hone. split; [intros (_ & Hrest); exact Hrest | intros Hrest; by split].
  - rewrite Hready. split; [intros [[=]|Hex]; exact Hex | intros Hex; by right].
Qed.

End Sequences.

(** C1 as stated fails in the steady state.  With a 64-byte device
    buffer (16 frames, [AUDIO_MAX_QUEUED_SIZE] = 320) five full deliveries
    fill the queue to 320 bytes; the device, playing since the second
    delivery, consumes 4 bytes; 316 is below the watermark, so the next
    full delivery is accepted and leaves 380 bytes queued. *)
Lemma queue_exceeds_max_watermark :
  let h := sim_host 64 running (sim_frames 0) in
  let steps := replicate 5 (Deliver (sim_frames 16))
               ++ [Consume 4; Deliver (sim_frames 16)] in
  exists obs final,
    deliveries steps h sdl_idle = Some (obs, final) /\
    AUDIO_MAX_QUEUED_SIZE h = 5 * 64 /\
    queued_after <$> obs = [64; 128; 192; 256; 320; 380] /\
    ~ Forall (fun o => queued_after o <= AUDIO_MAX_QUEUED_SIZE h) obs.
Proof.
  cbv zeta.
  assert (Hq : option_map (fun r => queued_after <$> fst r)
                 (deliveries (replicate 5 (Deliver (sim_frames 16))
                              ++ [Consume 4; Deliver (sim_frames 16)])
                             (sim_host 64 running (sim_frames 0)) sdl_idle)
               = Some [64; 128; 192; 256; 320; 380])
    by (vm_compute; reflexivity).
  destruct (deliveries _ _ _) as [[obs final]|]; [|discriminate Hq].
  cbn [option_map fst] in Hq. injection Hq as Hobs.
  exists obs, final. split; [reflexivity|]. split; [reflexivity|].
  split; [exact Hobs|].
  intros Hall. change (AUDIO_MAX_QUEUED_SIZE _) with 320 in Hall.
  apply (proj2 (Forall_fmap queued_after (fun q => q <= 320) obs)) in Hall.
  rewrite Hobs, !Forall_cons in Hall. lia.
Qed.

(** ** The concrete core honours the contract *)

Lemma sim_get_cycles_u32 e : is_u32 (sim_get_cycles e).
Proof. unfold is_u32, sim_get_cycles. lia. Qed.

Lemma sim_run_until_cases e u :
  is_u32 u ->
  let c := sim_get_cycles e in
  let r := sim_run_until e u in
  (u <= c /\ r = (e, mkEvent false false true)) \/
  (c < u /\ c < sim_get_cycles r.1 <= u /\
   sim_get_cycles r.1 = Z.min u (c + Z.max 1 (sim_quantum e)) /\
   r.2 = if bool_decide (u <= sim_get_cycles r.1) then mkEvent false false true
         else mkEvent true true false).
Proof.
  intros Hu c r. subst r. unfold sim_run_until. fold c.
  pose proof (sim_get_cycles_u32 e) as Hc. fold c in Hc. unfold is_u32 in Hu, Hc.
  case_bool_decide as Hle; [left; by split|]. right. cbn [fst snd].
  set (c' := Z.min u (c + Z.max 1 (sim_quantum e))).
  assert (Hc' : sim_get_cycles (mkSim c' (sim_quantum e) (sim_audio e)) = c')
    by (unfold sim_get_cycles; cbn; lia).
  rewrite Hc'. repeat split; lia.
Qed.

#[global] Instance sim_laws : EmulatorLaws SimCore.
Proof.
  split.
  - exact sim_get_cycles_u32.
  - intros e u. cbn [emulator_get_cycles emulator_run_until sim_core].
    unfold sim_run_until. case_bool_decide as Hle; cbn [fst]; [lia|].
    pose proof (sim_get_cycles_u32 e) as Hc. unfold is_u32 in Hc.
    unfold sim_get_cycles at 2; cbn. lia.
  - intros e u Hu. cbn [emulator_get_cycles emulator_run_until sim_core].
    destruct (sim_run_until_cases e u Hu) as [[Hle ->]|(Hlt & Hc' & _ & ->)]; cbn [fst snd].
    + by split.
    + case_bool_decide; cbn; split; try done; lia.
  - intros e u Hu. cbn [emulator_get_cycles emulator_run_until sim_core].
    destruct (sim_run_until_cases e u Hu) as [[Hle ->]|(Hlt & Hc' & _ & _)]; cbn [fst snd].
    + done.
    + lia.
Qed.

Lemma sim_stops_on_target : stops_on_target SimCore.
Proof.
  intros e u Hu Hle. cbn [emulator_get_cycles emulator_run_until sim_core] in *.
  destruct (sim_run_until_cases e u Hu) as [[Hle' ->]|(Hlt & Hc' & _ & ->)]; cbn [fst snd].
  - intros _; lia.
  - case_bool_decide; [intros _; lia|done].
Qed.

(** ** Configuration changes *)

Section Config.
Context {Emulator : Type} `{EmulatorCore Emulator}.
Implicit Types (h : Host Emulator) (w : SDL).

(** What [host_set_config] does, in closed form. *)
Lemma host_set_config_eq h new_config w :
  let sync_changed := bool_decide (no_sync (config h) <> no_sync new_config) in
  let pause_changed := bool_decide (paused (config h) <> paused new_config) in
  let full_changed := bool_decide (fullscreen (config h) <> fullscreen new_config) in
  let reset := [EvClearQueuedAudio; EvPauseAudioDevice true] in
  host_set_config h new_config w =
    Some (mkHost new_config
                 (if sync_changed || pause_changed
                  then mkAudio (spec (audio h)) (buffer (audio h)) false
                  else audio h)
                 (hook_ctx_e h),
          mkSDL (if sync_changed || pause_changed then 0 else audio_queued w)
                (if sync_changed || pause_changed then true else audio_paused w)
                (calls w
                 ++ (if sync_changed
                     then EvSetSwapInterval (if no_sync new_config then 0 else 1) :: reset
                     else [])
                 ++ (if pause_changed then reset else [])
                 ++ (if full_changed
                     then [EvSetWindowFullscreen (fullscreen new_config)] else []))).
Proof.
  cbv zeta. unfold host_set_config, bind.
  destruct h as [c a e], w as [q p cs]; cbn [config audio hook_ctx_e].
  destruct (bool_decide (no_sync c <> _)); cbn [orb record];
    rewrite ?host_reset_audio_eq; cbn [ret config set_audio audio hook_ctx_e calls];
    destruct (bool_decide (paused c <> _));
    rewrite ?host_reset_audio_eq; cbn [ret config set_audio audio hook_ctx_e calls
                                        spec buffer];
    destruct (bool_decide (fullscreen c <> _)); cbn [record ret set_config audio
      hook_ctx_e calls audio_queued audio_paused];
    rewrite <- ?app_assoc; cbn [app]; rewrite ?app_nil_r; reflexivity.
Qed.

(** C6.  [host_set_config] always returns, installing the new
    configuration.  If the paused flag or the no_sync flag of the new
    configuration differs from the current one, the audio pacer is reset:
    right afterwards the device queue is empty, the device is paused and
    [audio.ready] is false.  If both flags are unchanged (whatever the
    fullscreen flag does), the queue, the device and the pacer are left as
    they were and neither [SDL_ClearQueuedAudio] nor
    [SDL_PauseAudioDevice] is called. *)
Theorem set_config_resets_audio h new_config w :
  exists h' w' made,
    host_set_config h new_config w = Some (h', w') /\
    config h' = new_config /\
    calls w' = calls w ++ made /\
    (paused (config h) <> paused new_config \/
     no_sync (config h) <> no_sync new_config ->
       audio_queued w' = 0 /\ audio_paused w' = true /\
       ready (audio h') = false /\ (EvClearQueuedAudio ∈ made)) /\
    (paused (config h) = paused new_config ->
     no_sync (config h) = no_sync new_config ->
       audio_queued w' = audio_queued w /\ audio_paused w' = audio_paused w /\
       audio h' = audio h /\
       (EvClearQueuedAudio ∉ made) /\ (forall b, EvPauseAudioDevice b ∉ made)).
Proof.
  eexists _, _, _. split; [apply host_set_config_eq|].
  cbn [config calls audio audio_queued audio_paused].
  split; [reflexivity|]. split; [reflexivity|]. split.
  - intros Hchg.
    assert (Hreset : bool_decide (no_sync (config h) <> no_sync new_config)
                     || bool_decide (paused (config h) <> paused new_config) = true).
    { apply orb_true_iff. destruct Hchg as [Hp|Hs].
      - right. by apply bool_decide_eq_true.
      - left. by apply bool_decide_eq_true. }
    rewrite Hreset. repeat split; try reflexivity.
    apply orb_true_iff in Hreset as [->| ->].
    + apply elem_of_app; left. rewrite !elem_of_cons. auto.
    + apply elem_of_app; right. apply elem_of_app; left. rewrite !elem_of_cons. auto.
  - intros Hp Hs.
    rewrite (bool_decide_eq_false_2 (no_sync (config h) <> _)) by (intros Hne; by apply Hne).
    rewrite (bool_decide_eq_false_2 (paused (config h) <> _)) by (intros Hne; by apply Hne).
    cbn [orb app]. repeat split; try reflexivity.
    + case_bool_decide; rewrite ?not_elem_of_cons; repeat split;
        try discriminate; apply not_elem_of_nil.
    + intros b. case_bool_decide; rewrite ?not_elem_of_cons; repeat split;
        try discriminate; apply not_elem_of_nil.
Qed.

End Config.

(** ** Rounding *)

Section Rounding.
Variables prec emax : Z.
Hypothesis Hprec : 0 < prec.

Lemma digits2_pos_bounds p :
  2 ^ (Z.pos (digits2_pos p) - 1) <= Z.pos p < 2 ^ Z.pos (digits2_pos p).
Proof.
  induction p as [p IH|p IH|]; cbn [digits2_pos].
  - rewrite Pos2Z.inj_succ, Z.pow_succ_r by lia.
    replace (Z.succ (Z.pos (digits2_pos p)) - 1) with (Z.succ (Z.pos (digits2_pos p) - 1)) by lia.
    rewrite Z.pow_succ_r by lia. lia.
  - rewrite Pos2Z.inj_succ, Z.pow_succ_r by lia.
    replace (Z.succ (Z.pos (digits2_pos p)) - 1) with (Z.succ (Z.pos (digits2_pos p) - 1)) by lia.
    rewrite Z.pow_succ_r by lia. lia.
  - cbn. lia.
Qed.

Lemma Zdigits2_bounds z :
  0 < z -> 2 ^ (Zdigits2 z - 1) <= z < 2 ^ Zdigits2 z.
Proof. destruct z as [|p|p]; try lia. intros _. apply digits2_pos_bounds. Qed.

Lemma Zdigits2_nonneg z : 0 <= Zdigits2 z.
Proof. destruct z; cbn; lia. Qed.

Lemma Zdigits2_pos z : 0 < z -> 0 < Zdigits2 z.
Proof. destruct z; cbn; lia. Qed.

Lemma Zdigits2_le z d : 0 <= z < 2 ^ d -> 0 <= d -> Zdigits2 z <= d.
Proof.
  intros [Hz Hlt] Hd. destruct (Z.eq_dec z 0) as [->|Hnz]; [cbn; lia|].
  destruct (Zdigits2_bounds z) as [Hlo _]; [lia|].
  destruct (Z.le_gt_cases (Zdigits2 z) d) as [|Hgt]; [done|].
  assert (2 ^ d <= 2 ^ (Zdigits2 z - 1)) by (apply Z.pow_le_mono_r; lia). lia.
Qed.

Lemma Zdigits2_ge z d : 2 ^ d <= z -> 0 <= d -> d < Zdigits2 z.
Proof.
  intros Hz Hd. assert (0 < z) by (pose proof (Z.pow_pos_nonneg 2 d); lia).
  destruct (Zdigits2_bounds z) as [_ Hhi]; [lia|].
  destruct (Z.lt_ge_cases d (Zdigits2 z)) as [|Hge]; [done|].
  assert (2 ^ Zdigits2 z <= 2 ^ d) by (apply Z.pow_le_mono_r; lia). lia.
Qed.

(** One bit shifted out. *)
Lemma shr_1_spec mrs :
  0 <= shr_m mrs ->
  shr_m (shr_1 mrs) = shr_m mrs / 2 /\ shr_r (shr_1 mrs) = Z.odd (shr_m mrs).
Proof.
  destruct mrs as [m r s]. cbn [shr_m]. intros Hm. rewrite <- Z.div2_div.
  destruct m as [|[p|p|]|p]; cbn [shr_1 shr_m shr_r]; try lia; done.
Qed.

(** [p] bits shifted out: the mantissa is halved [p] times and the round
    bit is the last bit shifted out. *)
Lemma iter_shr_1_spec p : forall mrs,
  0 <= shr_m mrs ->
  shr_m (SpecFloat.iter_pos shr_1 p mrs) = shr_m mrs / 2 ^ Z.pos p /\
  (shr_r (SpecFloat.iter_pos shr_1 p mrs) = true -> 2 ^ (Z.pos p - 1) <= shr_m mrs mod 2 ^ Z.pos p).
Proof.
  assert (Hstep : forall a b m, 0 <= m -> 0 < a -> 0 < b ->
    m / 2 ^ a / 2 ^ b = m / 2 ^ (a + b) /\
    (2 ^ (b - 1) <= (m / 2 ^ a) mod 2 ^ b -> 2 ^ (a + b - 1) <= m mod 2 ^ (a + b))).
  { intros a b m Hm Ha Hb.
    assert (0 < 2 ^ a) by (apply Z.pow_pos_nonneg; lia).
    assert (0 < 2 ^ b) by (apply Z.pow_pos_nonneg; lia).
    rewrite Z.pow_add_r by lia. split; [by rewrite Z.div_div by lia|].
    intros Hbit. rewrite Z.rem_mul_r by lia.
    replace (a + b - 1) with (a + (b - 1)) by lia. rewrite Z.pow_add_r by lia.
    pose proof (Z.mod_pos_bound m (2 ^ a)). nia. }
  induction p as [p IH|p IH|]; intros mrs Hm; cbn [SpecFloat.iter_pos].
  - destruct (shr_1_spec mrs Hm) as [H1 _].
    assert (H1' : 0 <= shr_m (shr_1 mrs)) by (rewrite H1; apply Z.div_pos; lia).
    destruct (IH _ H1') as [H2 _].
    assert (H2' : 0 <= shr_m (SpecFloat.iter_pos shr_1 p (shr_1 mrs)))
      by (rewrite H2; apply Z.div_pos; [lia|apply Z.pow_pos_nonneg; lia]).
    destruct (IH _ H2') as [H3 H3r].
    destruct (Hstep 1 (Z.pos p) (shr_m mrs) Hm) as [Ha _]; try lia.
    change (2 ^ 1) with 2 in Ha.
    destruct (Hstep (1 + Z.pos p) (Z.pos p) (shr_m mrs) Hm) as [Hb Hbr]; try lia.
    rewrite <- Ha in Hb, Hbr. rewrite <- H1, <- H2 in Hb, Hbr.
    replace (Z.pos p~1) with (1 + Z.pos p + Z.pos p) by lia.
    split; [by rewrite H3|]. intros Hr. apply Hbr. by apply H3r.
  - destruct (IH _ Hm) as [H2 _].
    assert (H2' : 0 <= shr_m (SpecFloat.iter_pos shr_1 p mrs))
      by (rewrite H2; apply Z.div_pos; [lia|apply Z.pow_pos_nonneg; lia]).
    destruct (IH _ H2') as [H3 H3r].
    destruct (Hstep (Z.pos p) (Z.pos p) (shr_m mrs) Hm) as [Hb Hbr]; try lia.
    rewrite <- H2 in Hb, Hbr.
    replace (Z.pos p~0) with (Z.pos p + Z.pos p) by lia.
    split; [by rewrite H3|]. intros Hr. apply Hbr. by apply H3r.
  - destruct (shr_1_spec mrs Hm) as [H1 H1r]. rewrite H1. change (2 ^ 1) with 2.
    split; [reflexivity|]. intros Hr. rewrite H1r in Hr. change (2 ^ (1 - 1)) with 1.
    rewrite Zodd_mod in Hr. apply Z.eqb_eq in Hr. lia.
Qed.

Lemma round_nearest_even_cases m l :
  round_nearest_even m l = m \/
  round_nearest_even m l = m + 1 /\ (l = loc_Inexact Eq \/ l = loc_Inexact Gt).
Proof.
  destruct l as [|[| |]]; cbn [round_nearest_even]; auto.
  destruct (Z.even m); auto.
Qed.

Lemma loc_of_shr_record_of_loc m l : loc_of_shr_record (shr_record_of_loc m l) = l.
Proof. by destruct l as [|[| |]]. Qed.

Lemma loc_of_shr_record_half mrs :
  loc_of_shr_record mrs = loc_Inexact Eq \/ loc_of_shr_record mrs = loc_Inexact Gt ->
  shr_r mrs = true.
Proof. destruct mrs as [m [|] [|]]; cbn; intros [?|?]; congruence. Qed.

(** The last stage of rounding: a mantissa of at most [prec] bits is kept,
    and [2^prec] is renormalised. *)
Lemma round_finish s M E :
  0 <= M <= 2 ^ prec -> emin prec emax <= E ->
  rounded_to prec emax s M E
    (let '(mrs, e) := shr_fexp prec emax M E loc_Exact in
     match shr_m mrs with
     | Z0 => S754_zero s
     | Z.pos m => if e <=? emax - prec then S754_finite s m e else S754_infinity s
     | Z.neg _ => S754_nan
     end).
Proof.
  intros [HM0 HM] HE. unfold shr_fexp, fexp.
  destruct (Z.eq_dec M 0) as [->|Hnz].
  { cbn [Zdigits2]. replace (Z.max (0 + E - prec) (emin prec emax) - E) with
      (- Z.min prec (E - emin prec emax)) by lia.
    destruct (Z.min prec (E - emin prec emax)) as [|p|p] eqn:Hmin; try lia; cbn; done. }
  destruct (Z.eq_dec M (2 ^ prec)) as [->|Hlt].
  { assert (Hd : Zdigits2 (2 ^ prec) = prec + 1).
    { assert (0 < 2 ^ prec) by (apply Z.pow_pos_nonneg; lia).
      pose proof (Zdigits2_ge (2 ^ prec) prec ltac:(lia) ltac:(lia)).
      pose proof (Zdigits2_le (2 ^ prec) (prec + 1)).
      rewrite Z.pow_add_r in H1 by lia. lia. }
    rewrite Hd. replace (Z.max (prec + 1 + E - prec) (emin prec emax) - E) with 1 by lia.
    cbn [shr SpecFloat.iter_pos shr_record_of_loc].
    assert (Hhalf : 2 ^ prec = 2 * 2 ^ (prec - 1)).
    { replace prec with (Z.succ (prec - 1)) at 1 by lia. by rewrite Z.pow_succ_r by lia. }
    assert (Hpos : 0 < 2 ^ (prec - 1)) by (apply Z.pow_pos_nonneg; lia).
    rewrite Hhalf. destruct (2 ^ (prec - 1)) as [|p|p] eqn:Hp; try lia.
    cbn [Z.mul shr_1 shr_m].
    assert (Hpp : Z.pos p < 2 ^ prec) by lia.
    destruct (E + 1 <=? emax - prec) eqn:Hle; cbn [rounded_to];
      [apply Z.leb_le in Hle|apply Z.leb_gt in Hle; split; [done|lia]].
    split; [done|]. split; [lia|]. replace (E + 1 - E) with 1 by lia.
    split; [change (2 ^ 1) with 2; lia|]. split; [lia|]. split; [lia|by rewrite Hhalf]. }
  assert (Hd : Zdigits2 M <= prec) by (apply Zdigits2_le; lia).
  pose proof (Zdigits2_nonneg M).
  destruct (Z.max (Zdigits2 M + E - prec) (emin prec emax) - E) as [|p|p] eqn:Hn; try lia;
    cbn [shr shr_record_of_loc shr_m]; (destruct M as [|m|m]; [lia| |lia]);
    (destruct (E <=? emax - prec) eqn:Hle; cbn [rounded_to];
     [apply Z.leb_le in Hle|apply Z.leb_gt in Hle; split; [done|lia]]);
    (split; [done|]); (split; [lia|]); rewrite Z.sub_diag; change (2 ^ 0) with 1;
    (split; [lia|]); (split; [lia|]); (split; [lia|lia]).
Qed.

(** What [binary_round_aux] returns for a non-negative mantissa [q], an
    exponent [e] and a location [l]: with [n] the number of bits it
    shifts out, the magnitude [M * 2^(e + n)] where [M] is [q / 2^n] or
    one more, and one more only if the part given up was at least one
    half. *)
Lemma binary_round_aux_spec s q e l :
  0 <= q ->
  let n := Z.max 0 (fexp prec emax (Zdigits2 q + e) - e) in
  exists M,
    (M = q / 2 ^ n \/
     M = q / 2 ^ n + 1 /\
     (n = 0 /\ (l = loc_Inexact Eq \/ l = loc_Inexact Gt)
      \/ 0 < n /\ 2 ^ (n - 1) <= q mod 2 ^ n)) /\
    rounded_to prec emax s M (e + n) (binary_round_aux prec emax s q e l).
Proof.
  intros Hq n.
  assert (Hemin : emin prec emax <= e + n) by (subst n; unfold fexp; lia).
  assert (Hmant : 0 <= q / 2 ^ n < 2 ^ prec).
  { assert (0 < 2 ^ n) by (apply Z.pow_pos_nonneg; lia).
    split; [apply Z.div_pos; lia|].
    destruct (Z.eq_dec q 0) as [->|Hnz].
    { rewrite Z.div_0_l by lia. apply Z.pow_pos_nonneg; lia. }
    destruct (Zdigits2_bounds q ltac:(lia)) as [_ Hhi].
    apply Z.div_lt_upper_bound; [lia|]. rewrite <- Z.pow_add_r by lia.
    eapply Z.lt_le_trans; [exact Hhi|]. apply Z.pow_le_mono_r; [lia|].
    subst n. unfold fexp. lia. }
  unfold binary_round_aux, shr_fexp at 1.
  destruct (fexp prec emax (Zdigits2 q + e) - e) as [|p|p] eqn:Hn0; cbn [shr].
  - assert (Hn : n = 0) by (subst n; lia).
    rewrite loc_of_shr_record_of_loc.
    assert (Hm : shr_m (shr_record_of_loc q l) = q) by (by destruct l as [|[| |]]).
    rewrite Hm. rewrite Hn in *. change (2 ^ 0) with 1 in *. rewrite Z.div_1_r in *.
    rewrite Z.add_0_r in *.
    exists (round_nearest_even q l). split.
    + destruct (round_nearest_even_cases q l) as [->|[-> Hl]]; [by left|right].
      split; [reflexivity|]. by left.
    + apply round_finish; [|exact Hemin].
      destruct (round_nearest_even_cases q l) as [->|[-> _]]; lia.
  - assert (Hn : n = Z.pos p) by (subst n; lia).
    assert (Hm : shr_m (shr_record_of_loc q l) = q) by (by destruct l as [|[| |]]).
    destruct (iter_shr_1_spec p (shr_record_of_loc q l)) as [Hm' Hr']; [by rewrite Hm|].
    rewrite Hm in Hm', Hr'. rewrite Hn in *.
    set (mrs := SpecFloat.iter_pos shr_1 p (shr_record_of_loc q l)) in *.
    exists (round_nearest_even (shr_m mrs) (loc_of_shr_record mrs)). split.
    + destruct (round_nearest_even_cases (shr_m mrs) (loc_of_shr_record mrs))
        as [->|[-> Hl]]; [left; exact Hm'|right].
      split; [by rewrite Hm'|]. right. split; [lia|].
      apply Hr'. by apply loc_of_shr_record_half.
    + apply round_finish; [|exact Hemin].
      destruct (round_nearest_even_cases (shr_m mrs) (loc_of_shr_record mrs))
        as [->|[-> _]]; rewrite Hm'; lia.
  - assert (Hn : n = 0) by (subst n; lia).
    rewrite loc_of_shr_record_of_loc.
    assert (Hm : shr_m (shr_record_of_loc q l) = q) by (by destruct l as [|[| |]]).
    rewrite Hm. rewrite Hn in *. change (2 ^ 0) with 1 in *. rewrite Z.div_1_r in *.
    rewrite Z.add_0_r in *.
    exists (round_nearest_even q l). split.
    + destruct (round_nearest_even_cases q l) as [->|[-> Hl]]; [by left|right].
      split; [reflexivity|]. by left.
    + apply round_finish; [|exact Hemin].
      destruct (round_nearest_even_cases q l) as [->|[-> _]]; lia.
Qed.

End Rounding.

(** ** The cast of the scaled delta *)

Lemma pow2_pos n : 0 <= n -> 0 < 2 ^ n.
Proof. intros; apply Z.pow_pos_nonneg; lia. Qed.

(** The parts of the quotient of a double by [1000.0]. *)
Lemma f64_div_1000_parts my ey :
  Z.pos my < 2 ^ 53 -> -1074 <= ey ->
  let d1 := Zdigits2 (Z.pos my) in
  let e' := Z.max (d1 + ey - 63) (-1074) in
  let s := ey + 43 - e' in
  let N := Z.pos my * 2 ^ s in
  let q := N / 8796093022208000 in
  let r := N mod 8796093022208000 in
  let l := if r =? 0 then loc_Exact else loc_Inexact (2 * r ?= 8796093022208000) in
  0 <= s /\
  f64_div (S754_finite false my ey) (f64_of_int 1000) =
    binary_round_aux 53 1024 false q e' l.
Proof.
  intros Hmy Hey d1 e' s N q r l.
  assert (Hd1 : 0 < d1 <= 53).
  { subst d1. split; [by apply Zdigits2_pos|]. apply Zdigits2_le; lia. }
  assert (Hs : 0 <= s) by (subst s e'; lia).
  split; [exact Hs|].
  rewrite f64_of_int_1000. unfold f64_div, SFdiv, SFdiv_core_binary.
  change (Zdigits2 8796093022208000) with 53.
  fold d1. unfold fexp, emin.
  replace (Z.min (Z.max (d1 + ey - (53 + -43) - 53) (3 - 1024 - 53)) (ey - -43))
    with e' by (subst e'; lia).
  replace (ey - -43 - e') with s by (subst s; lia).
  assert (Hm' : match s with
                | 0 => Z.pos my
                | Z.pos _ => Z.shiftl (Z.pos my) s
                | Z.neg _ => 0
                end = N).
  { subst N. destruct s as [|p|p] eqn:Hsp; [change (2 ^ 0) with 1; lia| |lia].
    by rewrite Z.shiftl_mul_pow2 by lia. }
  rewrite Hm'.
  assert (Hdiv : Z.div_eucl N 8796093022208000 = (q, r)).
  { subst q r. unfold Z.div, Z.modulo. by destruct (Z.div_eucl N 8796093022208000). }
  rewrite Hdiv. cbn [xorb]. reflexivity.
Qed.

Lemma f64_trunc_small m e : Z.pos m < 2 ^ 53 -> e <= -1073 -> f64_trunc false m e = 0.
Proof.
  intros Hm He. unfold f64_trunc. cbn [cond_Zopp].
  destruct (Z.leb_spec 0 e); [lia|]. apply Z.div_small. split; [lia|].
  eapply Z.lt_le_trans; [exact Hm|]. apply Z.pow_le_mono_r; lia.
Qed.

(** The cast of [y / 1000.0] is the floor of the exact quotient. *)
Lemma f64_div_1000_floor my ey dc :
  Z.pos my < 2 ^ 53 -> -1074 <= ey ->
  f64_to_u32 (f64_div (S754_finite false my ey) (f64_of_int 1000)) = Some dc ->
  dc = (Z.pos my * 2 ^ (ey + 1074)) / (1000 * 2 ^ 1074).
Proof.
  intros Hmy Hey Hdc.
  destruct (f64_div_1000_parts my ey Hmy Hey) as [Hs Hdiv]. cbv zeta in Hs, Hdiv.
  set (d1 := Zdigits2 (Z.pos my)) in *.
  set (e' := Z.max (d1 + ey - 63) (-1074)) in *.
  set (s := ey + 43 - e') in *.
  set (N := Z.pos my * 2 ^ s) in *.
  set (m2 := 8796093022208000) in *.
  set (q := N / m2) in *. set (r := N mod m2) in *.
  set (l := if r =? 0 then _ else _) in *.
  assert (Hm2 : m2 = 1000 * 2 ^ 43) by reflexivity.
  assert (Hd1 : 0 < d1 <= 53).
  { subst d1. split; [by apply Zdigits2_pos|]. apply Zdigits2_le; lia. }
  destruct (Zdigits2_bounds (Z.pos my) ltac:(lia)) as [Hmylo Hmyhi]. fold d1 in Hmylo, Hmyhi.
  assert (HNq : N = m2 * q + r /\ 0 <= r < m2).
  { subst q r. split; [apply Z.div_mod; lia|apply Z.mod_pos_bound; lia]. }
  destruct HNq as [HN Hr].
  assert (HN0 : 0 < N) by (subst N; pose proof (pow2_pos s Hs); lia).
  assert (Hq0 : 0 <= q) by (subst q; apply Z.div_pos; lia).
  (* the target, in terms of N *)
  assert (Htarget : (Z.pos my * 2 ^ (ey + 1074)) / (1000 * 2 ^ 1074)
                    = (N * 2 ^ (e' + 1074)) / (m2 * 2 ^ 1074)).
  { subst N. rewrite <- Z.mul_assoc, <- Z.pow_add_r by (subst e'; lia).
    replace (s + (e' + 1074)) with (ey + 1074 + 43) by (subst s; lia).
    rewrite (Z.pow_add_r 2 (ey + 1074) 43) by lia. rewrite Hm2.
    replace (Z.pos my * (2 ^ (ey + 1074) * 2 ^ 43)) with (Z.pos my * 2 ^ (ey + 1074) * 2 ^ 43)
      by ring.
    replace (1000 * 2 ^ 43 * 2 ^ 1074) with (1000 * 2 ^ 1074 * 2 ^ 43) by ring.
    rewrite Z.div_mul_cancel_r; [reflexivity| |].
    - pose proof (pow2_pos 1074). lia.
    - pose proof (pow2_pos 43). lia. }
  rewrite Htarget. clear Htarget.
  destruct (binary_round_aux_spec 53 1024 ltac:(lia) false q e' l Hq0) as (M & HM & Hround).
  cbv zeta in HM, Hround. rewrite <- Hdiv in Hround.
  set (n := Z.max 0 (fexp 53 1024 (Zdigits2 q + e') - e')) in *.
  destruct (Z.lt_ge_cases (d1 + ey - 63) (-1074)) as [Htiny|Hnormal].
  - (* the quotient is below 2^-1000 *)
    assert (He' : e' = -1074) by (subst e'; lia).
    assert (HNhi : N < 2 ^ 105).
    { subst N. eapply Z.lt_le_trans with (2 ^ d1 * 2 ^ s).
      - apply Z.mul_lt_mono_pos_r; [by apply pow2_pos|lia].
      - rewrite <- Z.pow_add_r by lia. apply Z.pow_le_mono_r; subst s; lia. }
    assert (Hfloor : N * 2 ^ (e' + 1074) / (m2 * 2 ^ 1074) = 0).
    { rewrite He'. change (2 ^ (-1074 + 1074)) with 1. rewrite Z.mul_1_r.
      apply Z.div_small. split; [lia|].
      assert (2 ^ 105 <= 2 ^ 1074) by (apply Z.pow_le_mono_r; lia). subst m2. lia. }
    rewrite Hfloor.
    assert (Hqhi : q < 2 ^ 53).
    { subst q. apply Z.div_lt_upper_bound; [subst m2; lia|].
      change (2 ^ 105) with (2 ^ 52 * 2 ^ 53) in HNhi. subst m2. lia. }
    assert (Hn : n = 0).
    { subst n. unfold fexp, emin. pose proof (Zdigits2_le q 53 ltac:(lia) ltac:(lia)). lia. }
    rewrite Hn, Z.add_0_r in Hround.
    destruct (f64_div _ _) as [sr|sr| |sr mr er]; cbn [f64_to_u32] in Hdc.
    + by injection Hdc as <-.
    + discriminate.
    + discriminate.
    + cbn [rounded_to] in Hround. destruct Hround as (-> & Her & _ & Hmr & _).
      rewrite f64_trunc_small in Hdc by lia. cbn in Hdc. by injection Hdc as <-.
  - (* the quotient has 53 or 54 bits *)
    assert (He' : e' = d1 + ey - 63) by (subst e'; lia).
    assert (Hsd : s = 106 - d1) by (subst s; lia).
    assert (HNlo : 2 ^ 105 <= N < 2 ^ 106).
    { subst N. rewrite Hsd. split.
      - replace 105 with (d1 - 1 + (106 - d1)) by lia. rewrite Z.pow_add_r by lia.
        apply Z.mul_le_mono_nonneg_r; [pose proof (pow2_pos (106 - d1)); lia|lia].
      - replace 106 with (d1 + (106 - d1)) at 2 by lia. rewrite Z.pow_add_r by lia.
        apply Z.mul_lt_mono_pos_r; [apply pow2_pos; lia|lia]. }
    assert (Hqb : 2 ^ 52 <= q < 2 ^ 54).
    { subst q. split.
      - apply Z.div_le_lower_bound; [subst m2; lia|].
        change (2 ^ 105) with (2 ^ 53 * 2 ^ 52) in HNlo. subst m2. lia.
      - apply Z.div_lt_upper_bound; [subst m2; lia|].
        change (2 ^ 106) with (2 ^ 52 * 2 ^ 54) in HNlo. subst m2. lia. }
    assert (Hdq : 53 <= Zdigits2 q <= 54).
    { pose proof (Zdigits2_ge q 52 ltac:(lia) ltac:(lia)).
      pose proof (Zdigits2_le q 54 ltac:(lia) ltac:(lia)). lia. }
    assert (Hn : n = Zdigits2 q - 53) by (subst n; unfold fexp, emin; lia).
    assert (Hn01 : n = 0 \/ n = 1) by lia.
    set (mant := q / 2 ^ n) in *.
    assert (Hmant : 2 ^ 52 <= mant < 2 ^ 53).
    { destruct (Zdigits2_bounds q ltac:(lia)) as [Hqlo Hqhi].
      subst mant. destruct Hn01 as [Hn0|Hn1]; rewrite Hn0 || rewrite Hn1.
      - change (2 ^ 0) with 1. rewrite Z.div_1_r.
        replace (Zdigits2 q) with 53 in Hqhi by lia. lia.
      - change (2 ^ 1) with 2.
        replace (Zdigits2 q) with 54 in Hqlo, Hqhi by lia.
        change (2 ^ (54 - 1)) with (2 * 2 ^ 52) in Hqlo.
        change (2 ^ 54) with (2 * 2 ^ 53) in Hqhi.
        split; [apply Z.div_le_lower_bound; lia|apply Z.div_lt_upper_bound; lia]. }
    assert (HM1 : mant <= M <= mant + 1) by (destruct HM as [->|[-> _]]; lia).
    set (E := e' + n) in *.
    destruct (f64_div _ _) as [sr|sr| |sr mr er]; cbn [f64_to_u32] in Hdc;
      cbn [rounded_to] in Hround.
    + lia.
    + discriminate.
    + discriminate.
    + destruct Hround as (-> & Her & Hval & Hmr & _).
      case_bool_decide as Hrange; [|discriminate]. injection Hdc as <-.
      unfold f64_trunc in *. cbn [cond_Zopp] in *.
      destruct (Z.leb_spec 0 er) as [Hpos|Hneg].
      { exfalso. assert (1 <= 2 ^ er) by (pose proof (pow2_pos er Hpos); lia).
        assert (2 ^ (er - E) <= 2) by (change 2 with (2 ^ 1) at 2; apply Z.pow_le_mono_r; lia).
        assert (Z.pos mr * 2 ^ (er - E) <= Z.pos mr * 2)
          by (apply Z.mul_le_mono_nonneg_l; lia).
        assert (Z.pos mr * 1 <= Z.pos mr * 2 ^ er)
          by (apply Z.mul_le_mono_nonneg_l; lia).
        change (2 ^ 52) with 4503599627370496 in *. change (2 ^ 32) with 4294967296 in *.
        lia. }
      set (K := - E).
      assert (HK : 0 < K) by (subst K; lia).
      assert (Htrunc : Z.pos mr / 2 ^ (- er) = M / 2 ^ K).
      { destruct (Z.eq_dec er E) as [->|Hne].
        - rewrite Z.sub_diag in Hval. change (2 ^ 0) with 1 in Hval. subst K.
          by rewrite <- Hval, Z.mul_1_r.
        - replace (er - E) with 1 in Hval by lia. change (2 ^ 1) with 2 in Hval.
          replace K with (- er + 1) by (subst K; lia).
          rewrite Z.pow_add_r by lia. change (2 ^ 1) with 2. rewrite <- Hval.
          rewrite Z.div_mul_cancel_r; [reflexivity| |lia].
          pose proof (pow2_pos (- er)). lia. }
      rewrite Htrunc in *.
      assert (HK6 : 6 <= K).
      { destruct (Z.lt_ge_cases K 6) as [Hlt|]; [exfalso|done].
        assert (2 ^ K <= 2 ^ 5) by (apply Z.pow_le_mono_r; lia).
        assert (2 ^ 32 * 2 ^ K <= M).
        { change (2 ^ 32 * 2 ^ K <= M). change (2 ^ 5) with 32 in *.
          change (2 ^ 52) with 4503599627370496 in *. change (2 ^ 32) with 4294967296.
          pose proof (pow2_pos K). lia. }
        assert (2 ^ 32 <= M / 2 ^ K)
          by (apply Z.div_le_lower_bound; [apply pow2_pos; lia|lia]).
        lia. }
      assert (Hfloor : N * 2 ^ (e' + 1074) / (m2 * 2 ^ 1074) = mant / 2 ^ K).
      { replace 1074 with (e' + 1074 + (n + K)) at 2 by (subst K E; lia).
        rewrite (Z.pow_add_r 2 (e' + 1074) (n + K)) by (subst K E; lia).
        replace (m2 * (2 ^ (e' + 1074) * 2 ^ (n + K)))
          with (m2 * 2 ^ (n + K) * 2 ^ (e' + 1074)) by ring.
        rewrite Z.div_mul_cancel_r.
        - rewrite (Z.pow_add_r 2 n K) by lia. rewrite Z.mul_assoc.
          rewrite <- !Z.div_div by (try apply pow2_pos; subst m2; lia).
          reflexivity.
        - pose proof (pow2_pos (n + K)). subst m2. lia.
        - pose proof (pow2_pos (e' + 1074)). lia. }
      rewrite Hfloor.
      destruct HM as [->|[-> Hup]]; [reflexivity|].
      (* rounding up does not reach the next integer *)
      assert (H2K : 0 < 2 ^ K) by (apply pow2_pos; lia).
      destruct (Z.eq_dec ((mant + 1) mod 2 ^ K) 0) as [Hmod|Hmod].
      2:{ pose proof (Z.div_mod mant (2 ^ K) ltac:(lia)) as Hdm.
          pose proof (Z.mod_pos_bound mant (2 ^ K) H2K) as Hb.
          assert (Hb1 : mant mod 2 ^ K + 1 < 2 ^ K).
          { destruct (Z.eq_dec (mant mod 2 ^ K + 1) (2 ^ K)) as [Heq|]; [|lia].
            exfalso. apply Hmod.
            replace (mant + 1) with ((mant / 2 ^ K + 1) * 2 ^ K) by lia.
            apply Z.mod_mul. lia. }
          symmetry.
          apply (Z.div_unique (mant + 1) (2 ^ K) (mant / 2 ^ K) (mant mod 2 ^ K + 1)); lia. }
      exfalso.
      apply Z.mod_divide in Hmod; [|lia]. destruct Hmod as [j Hj].
      assert (H26 : (2 ^ 6 | 2 ^ K)).
      { exists (2 ^ (K - 6)). rewrite <- Z.pow_add_r by lia. f_equal. lia. }
      destruct H26 as [c Hc]. change (2 ^ 6) with 64 in Hc.
      assert (H253 : (2 ^ 53 | N)).
      { subst N. exists (Z.pos my * 2 ^ (s - 53)).
        rewrite <- Z.mul_assoc, <- Z.pow_add_r by lia. do 2 f_equal. lia. }
      destruct H253 as [a Ha]. change (2 ^ 53) with 9007199254740992 in Ha.
      destruct Hup as [[Hn0 Hl]|[Hnpos Hbit]].
      * (* no bit shifted out: the remainder is at least one half *)
        subst mant. rewrite Hn0 in *. change (2 ^ 0) with 1 in *. rewrite Z.div_1_r in *.
        assert (Hhalf : m2 <= 2 * r).
        { subst l. destruct (Z.eqb_spec r 0) as [|Hr0]; [destruct Hl; discriminate|].
          destruct (Z.compare_spec (2 * r) m2) as [| |]; [lia| |lia].
          destruct Hl; discriminate. }
        assert (Hgap : m2 * (q + 1) = N + (m2 - r)) by (subst m2; lia).
        rewrite Hj, Hc, Ha in Hgap. subst m2. lia.
      * (* one bit shifted out, and it was set *)
        assert (Hn1 : n = 1) by lia. subst mant. rewrite Hn1 in *.
        change (2 ^ 1) with 2 in *. change (2 ^ (1 - 1)) with 1 in *.
        pose proof (Z.div_mod q 2 ltac:(lia)) as Hq2.
        pose proof (Z.mod_pos_bound q 2 ltac:(lia)).
        assert (Hgap : 2 * m2 * (q / 2 + 1) = N + (m2 - r)) by (subst m2; lia).
        rewrite Hj, Hc, Ha in Hgap. subst m2. lia.
Qed.

(** The product of a double with [CPU_CYCLES_PER_SECOND = 2^22] is exact
    unless it overflows. *)
Lemma f64_mul_cps_exact m e :
  valid_binary 53 1024 (S754_finite false m e) = true ->
  match f64_mul (S754_finite false m e) (f64_of_int CPU_CYCLES_PER_SECOND) with
  | S754_finite sy my ey =>
      sy = false /\ Z.pos my < 2 ^ 53 /\ -1074 <= ey /\
      Z.pos my * 2 ^ (ey + 1074) = Z.pos m * 2 ^ (e + 1096)
  | S754_infinity _ => True
  | _ => False
  end.
Proof.
  cbn [valid_binary]. unfold bounded, canonical_mantissa, fexp, emin.
  intros [Hcan Hmax]%andb_true_iff. apply Z.eqb_eq in Hcan. apply Z.leb_le in Hmax.
  rewrite f64_of_int_cps. unfold f64_mul, SFmul. cbn [xorb].
  set (q := Z.pos (m * 4503599627370496)).
  assert (Hq : q = Z.pos m * 2 ^ 52) by reflexivity.
  destruct (digits2_pos_bounds m) as [Hlo Hhi].
  set (dm := Z.pos (digits2_pos m)) in *.
  assert (Hdq : Zdigits2 q = dm + 52).
  { assert (2 ^ (dm + 52 - 1) <= q < 2 ^ (dm + 52)).
    { rewrite Hq. replace (dm + 52 - 1) with (dm - 1 + 52) by lia.
      rewrite !Z.pow_add_r by lia. change (2 ^ 52) with 4503599627370496. lia. }
    pose proof (Zdigits2_ge q (dm + 52 - 1) ltac:(lia) ltac:(lia)).
    pose proof (Zdigits2_le q (dm + 52) ltac:(lia) ltac:(lia)). lia. }
  destruct (binary_round_aux_spec 53 1024 ltac:(lia) false q (e + -30) loc_Exact ltac:(lia))
    as (M & HM & Hround).
  cbv zeta in HM, Hround. rewrite Hdq in HM, Hround. unfold fexp, emin in HM, Hround.
  set (n := Z.max 0 (Z.max (dm + 52 + (e + -30) - 53) (3 - 1024 - 53) - (e + -30))) in *.
  assert (Hn : 0 <= n <= 52) by (subst n; lia).
  assert (Hsplit : q = Z.pos m * 2 ^ (52 - n) * 2 ^ n).
  { rewrite Hq, <- Z.mul_assoc, <- Z.pow_add_r by lia. do 2 f_equal. lia. }
  assert (H2n : 0 < 2 ^ n) by (apply pow2_pos; lia).
  assert (HMv : M = Z.pos m * 2 ^ (52 - n)).
  { destruct HM as [->|[_ [[_ [?|?]]|[Hpos Hbit]]]]; try discriminate.
    - rewrite Hsplit. apply Z.div_mul. lia.
    - exfalso. rewrite Hsplit, Z.mod_mul in Hbit by lia.
      pose proof (pow2_pos (n - 1)). lia. }
  assert (HM0 : 0 < M) by (rewrite HMv; pose proof (pow2_pos (52 - n)); lia).
  destruct (binary_round_aux _ _ _ _ _ _) as [sr|sr| |sr mr er]; cbn [rounded_to] in Hround.
  - lia.
  - done.
  - done.
  - destruct Hround as (-> & Her & Hval & Hmr & Hemin & _). unfold emin in Hemin.
    split; [done|]. split; [done|]. split; [lia|].
    set (E := e + -30 + n) in *.
    replace (er + 1074) with (er - E + (E + 1074)) by lia.
    rewrite Z.pow_add_r by lia. rewrite Z.mul_assoc, Hval, HMv.
    rewrite <- Z.mul_assoc, <- Z.pow_add_r by lia. do 2 f_equal. subst E. lia.
Qed.

(** The cast of [delta_ms * CPU_CYCLES_PER_SECOND / 1000], evaluated in
    doubles, is the floor of the exact value of that expression. *)
Lemma delta_cycles_floor delta_ms dc :
  valid_binary 53 1024 delta_ms = true -> f64_nonneg delta_ms ->
  f64_to_u32 (delta_cycles_expr delta_ms) = Some dc ->
  dc = Qfloor (f64_value delta_ms * inject_Z CPU_CYCLES_PER_SECOND / inject_Z 1000).
Proof.
  intros Hvalid Hnn Hdc. unfold delta_cycles_expr in Hdc.
  destruct delta_ms as [s|s| |s m e].
  - cbn in Hdc. by injection Hdc as <-.
  - destruct s; discriminate.
  - discriminate.
  - destruct s; [discriminate|].
    pose proof (f64_mul_cps_exact m e Hvalid) as Hmul.
    destruct (f64_mul _ _) as [sy|sy| |sy my ey]; try done.
    destruct Hmul as (-> & Hmy & Hey & Hval).
    rewrite (f64_div_1000_floor my ey dc Hmy Hey Hdc), Hval.
    cbn [valid_binary] in Hvalid. unfold bounded, canonical_mantissa, fexp, emin in Hvalid.
    apply andb_true_iff in Hvalid as [Hcan _]. apply Z.eqb_eq in Hcan.
    assert (He : -1074 <= e) by lia.
    unfold f64_value. cbn [cond_Zopp]. unfold CPU_CYCLES_PER_SECOND.
    destruct (Z.leb_spec 0 e) as [Hpos|Hneg].
    + unfold Qdiv, Qmult, Qinv, inject_Z, Qfloor. cbn [Qnum Qden].
      change (Z.pos (1 * 1 * 1000)) with 1000. rewrite !Z.mul_1_r.
      replace (e + 1096) with (e + 22 + 1074) by lia.
      rewrite (Z.pow_add_r 2 (e + 22) 1074), (Z.pow_add_r 2 e 22) by lia.
      change (2 ^ 22) with 4194304.
      replace (Z.pos m * (2 ^ e * 4194304 * 2 ^ 1074))
        with (Z.pos m * 2 ^ e * 4194304 * 2 ^ 1074) by ring.
      rewrite Z.div_mul_cancel_r; [reflexivity|lia|]. pose proof (pow2_pos 1074). lia.
    + unfold Qdiv, Qmult, Qinv, inject_Z, Qfloor. cbn [Qnum Qden].
      rewrite !Z.mul_1_r, Pos.mul_1_r, Pos2Z.inj_mul, Pos2Z.inj_pow, Z2Pos.id by lia.
      change (Z.pos 2) with 2. change (Z.pos 1000) with 1000.
      replace (e + 1096) with (22 + (e + 1074)) by lia.
      rewrite (Z.pow_add_r 2 22 (e + 1074)) by lia. change (2 ^ 22) with 4194304.
      replace 1074 with (- e + (e + 1074)) at 2 by lia.
      rewrite (Z.pow_add_r 2 (- e) (e + 1074)) by lia.
      replace (Z.pos m * (4194304 * 2 ^ (e + 1074)))
        with (Z.pos m * 4194304 * 2 ^ (e + 1074)) by ring.
      replace (1000 * (2 ^ (- e) * 2 ^ (e + 1074)))
        with (2 ^ (- e) * 1000 * 2 ^ (e + 1074)) by ring.
      rewrite Z.div_mul_cancel_r; [reflexivity| |].
      * pose proof (pow2_pos (- e)). lia.
      * pose proof (pow2_pos (e + 1074)). lia.
Qed.

(** ** Cores *)

Lemma over_get_cycles_u32 e : is_u32 (over_get_cycles e).
Proof. unfold over_get_cycles, is_u32. lia. Qed.

#[global] Instance over_laws : EmulatorLaws OverCore.
Proof.
  split.
  - apply over_get_cycles_u32.
  - intros e u. cbn. unfold over_run_until. case_bool_decide as Hu; cbn [fst]; [lia|].
    pose proof (over_get_cycles_u32 e) as Hc. unfold is_u32 in Hc.
    unfold over_get_cycles at 2. cbn [over_cycles]. lia.
  - intros e u Hu. cbn. unfold over_run_until. unfold is_u32 in Hu.
    case_bool_decide as Hc; cbn [fst snd EMULATOR_EVENT_UNTIL_CYCLES]; [done|].
    unfold over_get_cycles at 1. cbn [over_cycles]. split; [lia|done].
  - intros e u Hu. cbn. unfold over_run_until.
    case_bool_decide; cbn [snd EMULATOR_EVENT_UNTIL_CYCLES]; discriminate.
Qed.

Lemma sim_stops_exactly : stops_exactly SimCore.
Proof.
  intros e u Hu Hle. cbn. unfold sim_run_until.
  pose proof (sim_get_cycles_u32 e) as Hc. unfold is_u32 in Hc, Hu.
  cbn in Hle.
  case_bool_decide as H1; cbn [fst snd EMULATOR_EVENT_UNTIL_CYCLES]; [lia|].
  case_bool_decide as H2; cbn [EMULATOR_EVENT_UNTIL_CYCLES]; [|discriminate].
  intros _. unfold sim_get_cycles at 1. cbn [sim_cycles]. lia.
Qed.

(** ** Running the core *)

Section Driver.
Context {Emulator : Type} `{EmulatorCore Emulator} {Hlaws : EmulatorLaws Emulator}.
Implicit Types (h : Host Emulator) (w : SDL).

Lemma host_render_audio_frame h w :
  staging_ok h ->
  exists h' w',
    host_render_audio h w = Some (h', w') /\
    staging_ok h' /\ spec (audio h') = spec (audio h) /\
    config h' = config h /\ hook_ctx_e h' = hook_ctx_e h.
Proof.
  intros Hok.
  pose proof (source_samples_length h Hok) as Hlen.
  pose proof Hok as [Hsz Hbuf].
  destruct (render_frames_bounds h Hsz) as (H0 & _ & Hdst).
  eexists _, _; split; [apply (host_render_audio_eq h w Hok)|].
  cbn [audio buffer set_audio spec config hook_ctx_e].
  split; [|done].
  split; [exact Hsz|]. unfold spec_size; cbn.
  rewrite length_app, length_drop, length_fmap, Hlen. fold (spec_size h).
  rewrite <- Hbuf. unfold AUDIO_FRAME_SIZE, AUDIO_SPEC_CHANNELS, AUDIO_SPEC_SAMPLE_SIZE in *.
  assert (render_frames h * 2 <= spec_size h / 2) by (apply Z.div_le_lower_bound; lia).
  lia.
Qed.

(** The loop ends once the core reports the target reached, which it does
    within [until_cycles - cycles] iterations. *)
Lemma run_loop_terminates fuel : forall h w until,
  staging_ok h -> is_u32 until ->
  (Z.to_nat (until - cycles h) < fuel)%nat ->
  exists h' w',
    run_loop fuel h until w = Some (h', w') /\
    staging_ok h' /\ spec (audio h') = spec (audio h) /\ config h' = config h /\
    until <= cycles h' /\ cycles h <= cycles h' /\
    ((emulator_run_until (hook_ctx_e h) until).2 = mkEvent false false true ->
     hook_ctx_e h' = (emulator_run_until (hook_ctx_e h) until).1).
Proof.
  induction fuel as [|fuel IH]; intros h w until Hok Hu Hfuel; [lia|].
  cbn [run_loop]. unfold bind at 1. cbn [record].
  pose proof (run_until_monotone (hook_ctx_e h) until) as Hmono.
  pose proof (run_until_reached (hook_ctx_e h) until Hu) as Hreach.
  pose proof (run_until_progress (hook_ctx_e h) until Hu) as Hprog.
  destruct (emulator_run_until (hook_ctx_e h) until) as [e' [new_frame audio_full reached]].
  cbn [fst snd EMULATOR_EVENT_NEW_FRAME EMULATOR_EVENT_AUDIO_BUFFER_FULL
       EMULATOR_EVENT_UNTIL_CYCLES] in *.
  set (w1 := mkSDL _ _ (calls w ++ [EvRunUntil until])).
  assert (Hok0 : staging_ok (set_emulator h e')) by exact Hok.
  assert (Hupload : exists w2,
    (if new_frame then host_upload_video (set_emulator h e') else ret tt) w1
    = Some (tt, w2)).
  { destruct new_frame; eexists; reflexivity. }
  destruct Hupload as [w2 Hupload].
  unfold bind at 1. rewrite Hupload.
  assert (Haudio : exists h1 w3,
    (if audio_full then host_render_audio (set_emulator h e') else ret (set_emulator h e')) w2
    = Some (h1, w3) /\
    staging_ok h1 /\ spec (audio h1) = spec (audio h) /\
    config h1 = config h /\ hook_ctx_e h1 = e').
  { destruct audio_full.
    - destruct (host_render_audio_frame (set_emulator h e') w2 Hok0)
        as (h1 & w3 & Hrun & ? & ? & ? & ?). by exists h1, w3.
    - by exists (set_emulator h e'), w2. }
  destruct Haudio as (h1 & w3 & Haudio & Hok1 & Hspec1 & Hcfg1 & He1).
  unfold bind at 1. rewrite Haudio.
  destruct reached.
  - exists h1, w3. split; [reflexivity|].
    unfold cycles in *. rewrite He1.
    split; [exact Hok1|]. split; [exact Hspec1|]. split; [exact Hcfg1|].
    split; [by apply Hreach|]. split; [lia|done].
  - assert (Hlt : emulator_get_cycles e' < until).
    { destruct (decide (until <= emulator_get_cycles e')) as [Hge|]; [|lia].
      apply Hreach in Hge. discriminate. }
    specialize (Hprog eq_refl).
    destruct (IH h1 w3 until Hok1 Hu) as (h' & w' & Hrun & Hok' & Hspec' & Hcfg' & Hge & Hle & _).
    { unfold cycles in *. rewrite He1. lia. }
    exists h', w'. split; [exact Hrun|].
    unfold cycles in *. rewrite He1 in Hle.
    split; [exact Hok'|]. split; [congruence|]. split; [congruence|].
    split; [exact Hge|]. split; [lia|done].
Qed.

Lemma tick_target_inv h delta_ms dc until :
  tick_target h delta_ms = Some (dc, until) ->
  f64_to_u32 (delta_cycles_expr delta_ms) = Some dc /\
  until = u32 (cycles h + dc) /\ is_u32 until.
Proof.
  unfold tick_target. destruct (f64_to_u32 _) as [dc'|]; cbn; [|discriminate].
  intros [= <- <-]. split; [reflexivity|]. split; [reflexivity|]. apply u32_range.
Qed.

(** A paused host does not run the core, whatever else is pending. *)
Lemma host_run_ms_paused fuel h delta_ms w :
  paused (config h) = true -> host_run_ms fuel h delta_ms w = Some (h, w).
Proof. intros Hp. unfold host_run_ms. by rewrite Hp. Qed.

(** A host that is not paused runs the core to the target and then
    serves a pending single-step request. *)
Lemma host_run_ms_runs fuel h delta_ms w dc until :
  staging_ok h -> paused (config h) = false ->
  tick_target h delta_ms = Some (dc, until) ->
  (Z.to_nat (until - cycles h) < fuel)%nat ->
  exists h' w',
    host_run_ms fuel h delta_ms w = Some (h', w') /\
    staging_ok h' /\
    until <= cycles h' /\ cycles h <= cycles h' /\
    config h' = (if step (config h)
                 then mkConfig (no_sync (config h)) true false (fullscreen (config h))
                 else config h) /\
    ((emulator_run_until (hook_ctx_e h) until).2 = mkEvent false false true ->
     hook_ctx_e h' = (emulator_run_until (hook_ctx_e h) until).1).
Proof.
  intros Hok Hp Htarget Hfuel.
  destruct (tick_target_inv _ _ _ _ Htarget) as (_ & _ & Hu).
  destruct (run_loop_terminates fuel h w until Hok Hu Hfuel)
    as (h1 & w1 & Hloop & Hok1 & Hspec1 & Hcfg1 & Hge & Hle & Hexact).
  unfold host_run_ms. rewrite Hp, Htarget. unfold bind at 1. cbn [lift snd].
  unfold bind at 1. rewrite Hloop. unfold host_get_config. rewrite Hcfg1.
  destruct (step (config h)).
  - rewrite host_set_config_eq. eexists _, _; split; [reflexivity|].
    cbn [config audio hook_ctx_e]. unfold cycles in *. cbn [hook_ctx_e].
    split; [|done].
    destruct Hok1 as [Hsz Hlen]. unfold staging_ok, spec_size in *.
    cbn [audio]. by destruct (_ || _).
  - by exists h1, w1.
Qed.

(** With a core that stops on its targets the loop leaves the counter on
    the target, whatever events the runs before the last one raise. *)
Lemma run_loop_stops_exactly fuel : forall h w until h' w',
  stops_exactly Emulator ->
  staging_ok h -> is_u32 until -> cycles h <= until ->
  run_loop fuel h until w = Some (h', w') ->
  cycles h' = until.
Proof.
  induction fuel as [|fuel IH]; intros h w until h' w' Hstop Hok Hu Hle; [discriminate|].
  cbn [run_loop]. unfold bind at 1. cbn [record].
  pose proof (run_until_reached (hook_ctx_e h) until Hu) as Hreach.
  pose proof (Hstop (hook_ctx_e h) until Hu Hle) as Hexact.
  destruct (emulator_run_until (hook_ctx_e h) until) as [e' [new_frame audio_full reached]].
  cbn [fst snd EMULATOR_EVENT_NEW_FRAME EMULATOR_EVENT_AUDIO_BUFFER_FULL
       EMULATOR_EVENT_UNTIL_CYCLES] in *.
  set (w1 := mkSDL _ _ (calls w ++ [EvRunUntil until])).
  assert (Hok0 : staging_ok (set_emulator h e')) by exact Hok.
  assert (Hupload : exists w2,
    (if new_frame then host_upload_video (set_emulator h e') else ret tt) w1
    = Some (tt, w2)).
  { destruct new_frame; eexists; reflexivity. }
  destruct Hupload as [w2 Hupload].
  unfold bind at 1. rewrite Hupload.
  assert (Haudio : exists h1 w3,
    (if audio_full then host_render_audio (set_emulator h e') else ret (set_emulator h e')) w2
    = Some (h1, w3) /\ staging_ok h1 /\ hook_ctx_e h1 = e').
  { destruct audio_full.
    - destruct (host_render_audio_frame (set_emulator h e') w2 Hok0)
        as (h1 & w3 & Hrun & ? & ? & ? & ?). by exists h1, w3.
    - by exists (set_emulator h e'), w2. }
  destruct Haudio as (h1 & w3 & Haudio & Hok1 & He1).
  unfold bind at 1. rewrite Haudio.
  destruct reached.
  - intros [= <- <-]. unfold cycles. rewrite He1. by apply Hexact.
  - intros Hrun. apply (IH h1 w3 until h' w' Hstop Hok1 Hu); [|exact Hrun].
    unfold cycles. rewrite He1.
    destruct (decide (until <= emulator_get_cycles e')) as [Hge|]; [|lia].
    apply Hreach in Hge. discriminate.
Qed.

Lemma host_run_ms_stops_exactly fuel h delta_ms w dc until h' w' :
  stops_exactly Emulator ->
  staging_ok h -> paused (config h) = false ->
  tick_target h delta_ms = Some (dc, until) -> cycles h <= until ->
  host_run_ms fuel h delta_ms w = Some (h', w') ->
  cycles h' = until.
Proof.
  intros Hstop Hok Hp Htarget Hle.
  destruct (tick_target_inv _ _ _ _ Htarget) as (_ & _ & Hu).
  unfold host_run_ms. rewrite Hp, Htarget. unfold bind at 1. cbn [lift snd].
  unfold bind at 1.
  destruct (run_loop fuel h until w) as [[h1 w1]|] eqn:Hloop; [|discriminate].
  pose proof (run_loop_stops_exactly fuel h w until h1 w1 Hstop Hok Hu Hle Hloop) as Hc.
  destruct (step (host_get_config h1)).
  - rewrite host_set_config_eq. intros [= <- <-]. exact Hc.
  - intros [= <- <-]. exact Hc.
Qed.

(** C4, as the code has it.  [delta_ms] is a double (every value of the C
    type is a valid binary64 number).  For a host that is not paused and
    [delta_ms >= 0] for which the cast to [u32] is defined,
    [delta_cycles] is the floor of the exact quotient
    [delta_ms * CPU_CYCLES_PER_SECOND / 1000]: the product by [2^22] is
    exact and the rounding of the division never reaches the next
    integer.  If moreover [cycles_before + delta_cycles] does not overflow
    32 bits, then for any core that honours the contract [host_run_ms]
    returns with [cycles >= cycles_before + delta_cycles]; and with
    equality for a core that stops on its targets, whether or not it
    raises other events on the way. *)
Theorem run_ms_advances fuel h delta_ms w dc :
  staging_ok h -> paused (config h) = false ->
  valid_binary 53 1024 delta_ms = true -> f64_nonneg delta_ms ->
  f64_to_u32 (delta_cycles_expr delta_ms) = Some dc ->
  cycles h + dc < 2 ^ 32 ->
  (Z.to_nat dc < fuel)%nat ->
  dc = Qfloor (f64_value delta_ms * inject_Z CPU_CYCLES_PER_SECOND / inject_Z 1000) /\
  exists h' w',
    host_run_ms fuel h delta_ms w = Some (h', w') /\
    cycles h + dc <= cycles h' /\
    (stops_exactly Emulator -> cycles h' = cycles h + dc).
Proof.
  intros Hok Hp Hvalid Hnn Hdc Hfit Hfuel.
  destruct (f64_to_u32_floor _ _ (delta_cycles_expr_sign _ Hnn) Hdc) as [_ Hrange].
  split; [exact (delta_cycles_floor delta_ms dc Hvalid Hnn Hdc)|].
  pose proof (cycles_u32 (hook_ctx_e h)) as Hc. fold (cycles h) in Hc.
  unfold is_u32 in Hc, Hrange.
  assert (Hu : u32 (cycles h + dc) = cycles h + dc)
    by (apply u32_small; unfold is_u32; lia).
  assert (Htarget : tick_target h delta_ms = Some (dc, cycles h + dc)).
  { unfold tick_target. rewrite Hdc. cbn. fold (cycles h). by rewrite Hu. }
  destruct (host_run_ms_runs fuel h delta_ms w dc _ Hok Hp Htarget)
    as (h' & w' & Hrun & _ & Hge & _).
  { replace (cycles h + dc - cycles h) with dc by lia. exact Hfuel. }
  exists h', w'. split; [exact Hrun|]. split; [exact Hge|].
  intros Hstop.
  apply (host_run_ms_stops_exactly fuel h delta_ms w dc _ h' w' Hstop Hok Hp Htarget);
    [lia | exact Hrun].
Qed.
(** C7.  A tick entered with a single-step request pending on a host
    that is not paused runs the core to its target, returns, and leaves
    the host paused with the request cleared; until it is armed again,
    every further tick returns at once without running the core. *)
Theorem single_step_pauses fuel h delta_ms w dc until :
  staging_ok h ->
  paused (config h) = false -> step (config h) = true ->
  tick_target h delta_ms = Some (dc, until) ->
  (Z.to_nat (until - cycles h) < fuel)%nat ->
  exists h' w',
    host_run_ms fuel h delta_ms w = Some (h', w') /\
    until <= cycles h' /\
    paused (config h') = true /\ step (config h') = false /\
    forall fuel' delta_ms' w2, host_run_ms fuel' h' delta_ms' w2 = Some (h', w2).
Proof.
  intros Hok Hp Hstep Htarget Hfuel.
  destruct (host_run_ms_runs fuel h delta_ms w dc until Hok Hp Htarget Hfuel)
    as (h' & w' & Hrun & _ & Hge & _ & Hcfg & _).
  rewrite Hstep in Hcfg.
  exists h', w'. split; [exact Hrun|]. split; [exact Hge|].
  rewrite Hcfg. cbn [paused step]. split; [reflexivity|]. split; [reflexivity|].
  intros fuel' delta_ms' w2. apply host_run_ms_paused. by rewrite Hcfg.
Qed.

Lemma host_set_config_frame h new_config w :
  staging_ok h ->
  exists h' w',
    host_set_config h new_config w = Some (h', w') /\
    staging_ok h' /\ hook_ctx_e h' = hook_ctx_e h /\ config h' = new_config.
Proof.
  intros [Hsz Hlen]. rewrite host_set_config_eq. eexists _, _; split; [reflexivity|].
  cbn [hook_ctx_e config]. split; [|done].
  unfold staging_ok, spec_size in *. cbn [audio]. by destruct (_ || _).
Qed.

Lemma ticks_trace_weaken obs : forall low low',
  low' <= low -> ticks_trace low obs -> ticks_trace low' obs.
Proof.
  destruct obs as [|o obs]; intros low low' Hle; [done|].
  cbn [ticks_trace]. intros (? & ? & ? & ?). repeat split; try done. lia.
Qed.

Lemma ticks_run fuel steps : forall h w,
  staging_ok h -> (Z.to_nat (2 ^ 32) <= fuel)%nat -> Forall castable steps ->
  exists obs final,
    ticks fuel steps h w = Some (obs, final) /\ ticks_trace (cycles h) obs.
Proof.
  induction steps as [|[delta_ms|new_config] steps IH]; intros h w Hok Hfuel Hcast;
    cbn [ticks].
  - by eexists _, _.
  - apply Forall_cons in Hcast as [[dc Hdc] Hcast]. cbn [castable] in Hdc.
    destruct (paused (config h)) eqn:Hp.
    + rewrite (host_run_ms_paused fuel h delta_ms w Hp). cbn [mbind option_bind].
      destruct (IH h w Hok Hfuel Hcast) as (obs & final & -> & Htrace).
      cbn [mbind option_bind]. unfold observe_tick. rewrite Hp. by eexists _, _.
    + assert (Htarget : tick_target h delta_ms = Some (dc, u32 (cycles h + dc)))
        by (unfold tick_target; rewrite Hdc; reflexivity).
      pose proof (cycles_u32 (hook_ctx_e h)) as Hc. fold (cycles h) in Hc.
      pose proof (u32_range (cycles h + dc)) as Hu. unfold is_u32 in Hc, Hu.
      destruct (host_run_ms_runs fuel h delta_ms w dc _ Hok Hp Htarget)
        as (h' & w' & -> & Hok' & Hge & Hle & _); [lia|].
      cbn [mbind option_bind].
      destruct (IH h' w' Hok' Hfuel Hcast) as (obs & final & -> & Htrace).
      cbn [mbind option_bind]. unfold observe_tick. rewrite Hp, Htarget.
      eexists _, _; split; [reflexivity|].
      cbn [app ticks_trace cycles_before delta_cycles until_cycles].
      fold (cycles h). split; [lia|]. split; [|split; [reflexivity|]].
      * destruct (delta_cycles_expr delta_ms) as [| | |s m e]; cbn in Hdc;
          try discriminate; [injection Hdc as <-; lia|].
        case_bool_decide; [|discriminate]. injection Hdc as <-. lia.
      * eapply ticks_trace_weaken; [|exact Htrace]. lia.
  - apply Forall_cons in Hcast as [_ Hcast].
    destruct (host_set_config_frame h new_config w Hok) as (h' & w' & -> & Hok' & He & _).
    cbn [mbind option_bind].
    destruct (IH h' w' Hok' Hfuel Hcast) as (obs & final & -> & Htrace).
    eexists _, _; split; [reflexivity|]. unfold cycles in *. by rewrite <- He.
Qed.

Lemma ticks_trace_low low obs o :
  ticks_trace low obs -> o ∈ obs -> low <= cycles_before o.
Proof.
  revert low. induction obs as [|o0 obs IH]; intros low Htrace Hin.
  - by apply elem_of_nil in Hin.
  - destruct Htrace as (Hlow & _ & _ & Hrest).
    apply elem_of_cons in Hin as [->|Hin]; [exact Hlow|].
    specialize (IH _ Hrest Hin). lia.
Qed.

Lemma ticks_trace_ordered obs : forall low i j o1 o2,
  ticks_trace low obs -> (i < j)%nat ->
  obs !! i = Some o1 -> obs !! j = Some o2 ->
  until_cycles o1 <= cycles_before o2.
Proof.
  induction obs as [|o0 obs IH]; intros low i j o1 o2 Htrace Hij Hi Hj; [done|].
  destruct Htrace as (_ & _ & _ & Hrest).
  destruct j as [|j]; [lia|]. cbn in Hj.
  destruct i as [|i]; cbn in Hi.
  - injection Hi as <-.
    assert (Hin : o2 ∈ obs) by (eapply list_elem_of_lookup_2; exact Hj).
    pose proof (ticks_trace_low _ _ _ Hrest Hin). lia.
  - apply (IH _ i j o1 o2 Hrest); [lia|done|done].
Qed.

(** C8, as the code has it.  In every sequence of ticks and
    configuration changes, a tick whose [cycles + delta_cycles] does not
    overflow 32 bits asks the core for a target at or above its current
    cycle count and at or above the target of every earlier tick. *)
Theorem until_cycles_monotone fuel steps h w :
  staging_ok h -> (Z.to_nat (2 ^ 32) <= fuel)%nat -> Forall castable steps ->
  exists obs final,
    ticks fuel steps h w = Some (obs, final) /\
    (forall o, o ∈ obs ->
       cycles_before o + delta_cycles o < 2 ^ 32 ->
       cycles_before o <= until_cycles o) /\
    (forall i j o1 o2, (i < j)%nat ->
       obs !! i = Some o1 -> obs !! j = Some o2 ->
       cycles_before o2 + delta_cycles o2 < 2 ^ 32 ->
       until_cycles o1 <= until_cycles o2).
Proof.
  intros Hok Hfuel Hcast.
  destruct (ticks_run fuel steps h w Hok Hfuel Hcast) as (obs & final & Hrun & Htrace).
  exists obs, final. split; [exact Hrun|].
  pose proof (proj1 (cycles_u32 (hook_ctx_e h))) as Hc. fold (cycles h) in Hc.
  assert (Hown : forall o, o ∈ obs ->
            cycles_before o + delta_cycles o < 2 ^ 32 ->
            cycles_before o <= until_cycles o).
  { clear Hrun. revert Htrace Hc. generalize (cycles h) as low.
    induction obs as [|o0 obs IH]; intros low Htrace Hlow o Hin Hfit.
    - by apply elem_of_nil in Hin.
    - destruct Htrace as (Hle & Hdc & Hu & Hrest).
      apply elem_of_cons in Hin as [->|Hin].
      + rewrite Hu, u32_small; unfold is_u32 in *; lia.
      + apply (IH _ Hrest); [lia|done|done]. }
  split; [exact Hown|].
  intros i j o1 o2 Hij Hi Hj Hfit.
  pose proof (ticks_trace_ordered obs _ i j o1 o2 Htrace Hij Hi Hj).
  assert (Hin : o2 ∈ obs) by (eapply list_elem_of_lookup_2; exact Hj).
  specialize (Hown o2 Hin Hfit). lia.
Qed.

End Driver.

(** ** Concrete runs *)

Lemma sim_host_ok sz c e : 0 <= sz -> staging_ok (sim_host sz c e).
Proof.
  intros Hsz. split; [exact Hsz|].
  unfold sim_host, spec_size, AUDIO_SPEC_SAMPLE_SIZE; cbn.
  rewrite length_replicate, Z2Nat.id; [reflexivity|]. by apply Z.div_pos.
Qed.

(** Third scenario of the specification: 16.0 ms at 4194304 cycles per
    second are 67108 cycles, and a core that stops on its target has
    advanced by exactly that much. *)
Example scenario_advance :
  tick_target (sim_host 16 running (sim_at 0)) sixteen_ms = Some (67108, 67108) /\
  option_map (fun r => cycles (fst r))
             (host_run_ms 1 (sim_host 16 running (sim_at 0)) sixteen_ms sdl_idle)
  = Some 67108.
Proof. split; vm_compute; reflexivity. Qed.

(** Two 16 ms ticks with a fullscreen toggle in between: the second target
    continues from the first. *)
Example scenario_ticks :
  option_map fst
    (ticks 1 [Tick sixteen_ms; Configure (mkConfig false false false true);
              Tick sixteen_ms]
           (sim_host 16 running (sim_at 0)) sdl_idle)
  = Some [mkTick 0 67108 67108; mkTick 67108 67108 134216].
Proof. vm_compute. reflexivity. Qed.

(** A delta of 1024000 ms scales to 2^32 cycles, which no [u32] holds: the
    cast is undefined. *)
Example delta_out_of_range :
  f64_nonneg (f64_of_int 1024000) /\
  f64_to_u32 (delta_cycles_expr (f64_of_int 1024000)) = None.
Proof. split; vm_compute; reflexivity. Qed.

(** C4 as stated fails in three ways.  When the 32-bit sum wraps: 67108
    cycles short of [2^32] and asked for 16 ms more, the host computes the
    target 34216; the core is already past it, and the tick returns
    without the counter having advanced by [delta_cycles].  When the
    scaled delta does not fit 32 bits: 1024000 ms scale to [2^32] cycles
    and the cast is undefined.  And when the core overruns: a core that
    honours the contract, raises no frame or audio event and stops 3
    cycles past its target ends a tick of 1 ms at 4197, not at
    [0 + 4194]. *)
Lemma run_ms_not_exact :
  (let h := sim_host 16 running (sim_at 4294934404) in
   staging_ok h /\ paused (config h) = false /\
   valid_binary 53 1024 sixteen_ms = true /\ f64_nonneg sixteen_ms /\
   f64_to_u32 (delta_cycles_expr sixteen_ms) = Some 67108 /\
   tick_target h sixteen_ms = Some (67108, 34216) /\
   exists h' w',
     host_run_ms 1 h sixteen_ms sdl_idle = Some (h', w') /\
     ~ (cycles h + 67108 <= cycles h')) /\
  (let delta_ms := f64_of_int 1024000 in
   valid_binary 53 1024 delta_ms = true /\ f64_nonneg delta_ms /\
   f64_to_u32 (delta_cycles_expr delta_ms) = None /\
   host_run_ms 1 (sim_host 16 running (sim_at 0)) delta_ms sdl_idle = None) /\
  (let h := over_host (mkOver 0 3) in
   let delta_ms := f64_of_int 1 in
   EmulatorLaws OverCore /\
   staging_ok h /\ paused (config h) = false /\
   valid_binary 53 1024 delta_ms = true /\ f64_nonneg delta_ms /\
   tick_target h delta_ms = Some (4194, 4194) /\
   (emulator_run_until (hook_ctx_e h) 4194).2 = mkEvent false false true /\
   exists h' w',
     host_run_ms 1 h delta_ms sdl_idle = Some (h', w') /\
     calls w' = [EvRunUntil 4194] /\
     cycles h' = 4197 /\ cycles h' <> cycles h + 4194).
Proof.
  cbv zeta. split; [|split].
  - split; [apply sim_host_ok; lia|].
    split; [reflexivity|]. split; [reflexivity|]. split; [reflexivity|].
    split; [vm_compute; reflexivity|]. split; [vm_compute; reflexivity|].
    eexists _, _. split; [vm_compute; reflexivity|].
    vm_compute. intros Hle. apply Hle. reflexivity.
  - split; [reflexivity|]. split; [reflexivity|].
    split; vm_compute; reflexivity.
  - split; [exact over_laws|].
    split; [split; [vm_compute; discriminate | reflexivity]|].
    split; [reflexivity|]. split; [reflexivity|]. split; [reflexivity|].
    split; [vm_compute; reflexivity|]. split; [reflexivity|].
    eexists _, _. split; [vm_compute; reflexivity|].
    split; [reflexivity|]. split; [reflexivity|]. vm_compute. discriminate.
Qed.

(** C8 as stated fails for the same reason: of two successive 16 ms
    ticks started 100000 cycles short of [2^32], the second asks for the
    target 34216, below the first target and below the core's cycle
    count. *)
Lemma until_cycles_decreases :
  let h := sim_host 16 running (sim_at 4294867296) in
  exists obs final,
    ticks 1 [Tick sixteen_ms; Tick sixteen_ms] h sdl_idle = Some (obs, final) /\
    obs = [mkTick 4294867296 67108 4294934404; mkTick 4294934404 67108 34216] /\
    ~ (forall i j o1 o2, (i < j)%nat -> obs !! i = Some o1 -> obs !! j = Some o2 ->
         until_cycles o1 <= until_cycles o2) /\
    ~ Forall (fun o => cycles_before o <= until_cycles o) obs.
Proof.
  cbv zeta. eexists _, _. split; [vm_compute; reflexivity|].
  split; [reflexivity|]. split.
  - intros Hmono. specialize (Hmono 0%nat 1%nat _ _ (Nat.lt_0_1) eq_refl eq_refl).
    cbn in Hmono. lia.
  - rewrite !Forall_cons. cbn. lia.
Qed.

(** ** The theorems at concrete inputs *)

Lemma queue_bounded_after_delivery_witness :
  let h := sim_host 64 running (sim_frames 0) in
  let steps := [Deliver (sim_frames 16); Consume 100; Deliver (sim_frames 15)] in
  staging_ok h /\
  0 <= audio_queued sdl_idle < AUDIO_MAX_QUEUED_SIZE h + spec_size h /\
  exists obs final,
    deliveries steps h sdl_idle = Some (obs, final) /\
    Forall (fun o => queued_after o < AUDIO_MAX_QUEUED_SIZE h + spec_size h) obs /\
    (5 * spec_size h < 2 ^ 32 ->
     Forall (fun o => queued_after o < 6 * spec_size h) obs).
Proof.
  cbv zeta.
  assert (Hok : staging_ok (sim_host 64 running (sim_frames 0)))
    by (split; [vm_compute; discriminate | reflexivity]).
  assert (Hq : 0 <= audio_queued sdl_idle
               < AUDIO_MAX_QUEUED_SIZE (sim_host 64 running (sim_frames 0))
                 + spec_size (sim_host 64 running (sim_frames 0)))
    by (vm_compute; split; [discriminate|reflexivity]).
  split; [exact Hok|]. split; [exact Hq|].
  exact (queue_bounded_after_delivery _ _ _ Hok Hq).
Defined.

Lemma deliver_backpressure_witness :
  let h := sim_host 64 running (sim_frames 16) in
  staging_ok h /\ 5 * spec_size h < 2 ^ 32 /\
  exists h' w',
    host_render_audio h sdl_idle = Some (h', w') /\
    (5 * spec_size h <= audio_queued sdl_idle ->
       audio_queued w' = audio_queued sdl_idle /\
       enqueued (calls w') = enqueued (calls sdl_idle)) /\
    (audio_queued sdl_idle < 5 * spec_size h ->
       let chunk := convert_sample <$> source_samples h in
       enqueued (calls w') = enqueued (calls sdl_idle) ++ [chunk] /\
       audio_queued w' =
         audio_queued sdl_idle + AUDIO_SPEC_SAMPLE_SIZE * Z.of_nat (length chunk)).
Proof.
  cbv zeta.
  assert (Hok : staging_ok (sim_host 64 running (sim_frames 16)))
    by (split; [vm_compute; discriminate | reflexivity]).
  assert (Hfit : 5 * spec_size (sim_host 64 running (sim_frames 16)) < 2 ^ 32)
    by reflexivity.
  split; [exact Hok|]. split; [exact Hfit|].
  exact (deliver_backpressure _ sdl_idle Hok Hfit).
Defined.

Lemma ready_transition_once_witness :
  let h0 := sim_host 64 running (sim_frames 0) in
  let w := mkSDL 0 true [EvClearQueuedAudio; EvPauseAudioDevice true] in
  let steps := [Deliver (sim_frames 16); Deliver (sim_frames 16);
                Consume 64; Deliver (sim_frames 16)] in
  staging_ok h0 /\ 0 < spec_size h0 /\ 7 * spec_size h0 <= 2 ^ 32 /\
  host_reset_audio h0 sdl_idle = Some (h0, w) /\
  ready (audio h0) = false /\
  exists obs h' w',
    deliveries steps h0 w = Some (obs, (h', w')) /\
    sum_list (unpaused_by <$> obs) =
      (if bool_decide (Exists (fun o => 2 * spec_size h0 <= queued_after o) obs)
       then 1%nat else 0%nat) /\
    (forall i o, obs !! i = Some o ->
       (unpaused_by o = 1%nat <->
          2 * spec_size h0 <= queued_after o /\
          forall j o', (j < i)%nat -> obs !! j = Some o' ->
                       queued_after o' < 2 * spec_size h0) /\
       (ready_after o = true <->
          exists j o', (j <= i)%nat /\ obs !! j = Some o' /\
                       2 * spec_size h0 <= queued_after o')) /\
    audio_paused w' = negb (ready (audio h')).
Proof.
  cbv zeta.
  assert (Hok : staging_ok (sim_host 64 running (sim_frames 0)))
    by (split; [vm_compute; discriminate | reflexivity]).
  assert (Hpos : 0 < spec_size (sim_host 64 running (sim_frames 0))) by reflexivity.
  assert (Hfit : 7 * spec_size (sim_host 64 running (sim_frames 0)) <= 2 ^ 32)
    by (vm_compute; discriminate).
  assert (Hreset : host_reset_audio (sim_host 64 running (sim_frames 0)) sdl_idle
                   = Some (sim_host 64 running (sim_frames 0),
                           mkSDL 0 true [EvClearQueuedAudio; EvPauseAudioDevice true]))
    by reflexivity.
  split; [exact Hok|]. split; [exact Hpos|]. split; [exact Hfit|].
  split; [exact Hreset|].
  exact (ready_transition_once _ _ _ _ _ Hok Hpos Hfit Hreset).
Defined.

Lemma run_ms_advances_witness :
  let h := sim_host 16 running (sim_at 0) in
  let delta_ms := f64_of_int 1 in
  staging_ok h /\ paused (config h) = false /\
  valid_binary 53 1024 delta_ms = true /\ f64_nonneg delta_ms /\
  f64_to_u32 (delta_cycles_expr delta_ms) = Some 4194 /\
  cycles h + 4194 < 2 ^ 32 /\ (Z.to_nat 4194 < 4195)%nat /\
  4194 = Qfloor (f64_value delta_ms * inject_Z CPU_CYCLES_PER_SECOND / inject_Z 1000) /\
  exists h' w',
    host_run_ms 4195 h delta_ms sdl_idle = Some (h', w') /\
    cycles h + 4194 <= cycles h' /\
    (stops_exactly SimCore -> cycles h' = cycles h + 4194).
Proof.
  cbv zeta.
  assert (Hok : staging_ok (sim_host 16 running (sim_at 0))) by (split; [vm_compute; discriminate | reflexivity]).
  assert (Hvalid : valid_binary 53 1024 (f64_of_int 1) = true) by reflexivity.
  assert (Hnn : f64_nonneg (f64_of_int 1)) by reflexivity.
  assert (Hdc : f64_to_u32 (delta_cycles_expr (f64_of_int 1)) = Some 4194)
    by (vm_compute; reflexivity).
  assert (Hfit : cycles (sim_host 16 running (sim_at 0)) + 4194 < 2 ^ 32) by reflexivity.
  assert (Hfuel : (Z.to_nat 4194 < 4195)%nat) by lia.
  split; [exact Hok|]. split; [reflexivity|]. split; [exact Hvalid|]. split; [exact Hnn|].
  split; [exact Hdc|]. split; [exact Hfit|]. split; [exact Hfuel|].
  exact (run_ms_advances 4195 _ _ sdl_idle 4194 Hok eq_refl Hvalid Hnn Hdc Hfit Hfuel).
Defined.

Lemma single_step_pauses_witness :
  let h := sim_host 16 (mkConfig false false true false) (sim_at 0) in
  let delta_ms := f64_of_int 1 in
  staging_ok h /\ paused (config h) = false /\ step (config h) = true /\
  tick_target h delta_ms = Some (4194, 4194) /\
  (Z.to_nat (4194 - cycles h) < 4195)%nat /\
  exists h' w',
    host_run_ms 4195 h delta_ms sdl_idle = Some (h', w') /\
    4194 <= cycles h' /\
    paused (config h') = true /\ step (config h') = false /\
    forall fuel' delta_ms' w2, host_run_ms fuel' h' delta_ms' w2 = Some (h', w2).
Proof.
  cbv zeta.
  assert (Hok : staging_ok (sim_host 16 (mkConfig false false true false) (sim_at 0)))
    by (split; [vm_compute; discriminate | reflexivity]).
  assert (Htarget : tick_target (sim_host 16 (mkConfig false false true false) (sim_at 0))
                      (f64_of_int 1) = Some (4194, 4194))
    by (vm_compute; reflexivity).
  assert (Hfuel : (Z.to_nat (4194 - cycles (sim_host 16 (mkConfig false false true false)
                                               (sim_at 0))) < 4195)%nat)
    by (change (cycles _) with 0; lia).
  split; [exact Hok|]. split; [reflexivity|]. split; [reflexivity|].
  split; [exact Htarget|]. split; [exact Hfuel|].
  exact (single_step_pauses 4195 _ _ sdl_idle 4194 4194 Hok eq_refl eq_refl Htarget Hfuel).
Defined.

Lemma until_cycles_monotone_witness :
  let h := sim_host 16 running (sim_at 0) in
  let steps := [Tick sixteen_ms; Configure (mkConfig false false false true);
                Tick (f64_of_int 1)] in
  let fuel := Z.to_nat (2 ^ 32) in
  staging_ok h /\ (Z.to_nat (2 ^ 32) <= fuel)%nat /\ Forall castable steps /\
  exists obs final,
    ticks fuel steps h sdl_idle = Some (obs, final) /\
    (forall o, o ∈ obs ->
       cycles_before o + delta_cycles o < 2 ^ 32 ->
       cycles_before o <= until_cycles o) /\
    (forall i j o1 o2, (i < j)%nat ->
       obs !! i = Some o1 -> obs !! j = Some o2 ->
       cycles_before o2 + delta_cycles o2 < 2 ^ 32 ->
       until_cycles o1 <= until_cycles o2).
Proof.
  cbv zeta.
  assert (Hok : staging_ok (sim_host 16 running (sim_at 0))) by (split; [vm_compute; discriminate | reflexivity]).
  assert (Hfuel : (Z.to_nat (2 ^ 32) <= Z.to_nat (2 ^ 32))%nat) by apply le_n.
  assert (Hcast : Forall castable
                    [Tick sixteen_ms; Configure (mkConfig false false false true);
                     Tick (f64_of_int 1)]).
  { repeat constructor; cbn [castable]; eexists; vm_compute; reflexivity. }
  split; [exact Hok|]. split; [exact Hfuel|]. split; [exact Hcast|].
  exact (until_cycles_monotone _ _ _ sdl_idle Hok Hfuel Hcast).
Defined.

Lemma deliver_converts_witness :
  let h := sim_host 16 running (sim_at 0) in
  staging_ok h /\
  Forall is_u8 (data (emulator_get_audio_buffer (hook_ctx_e h))) /\
  let ab := emulator_get_audio_buffer (hook_ctx_e h) in
  let frames := Z.min (audio_buffer_get_frames ab) (spec_size h / AUDIO_FRAME_SIZE) in
  let n := Z.to_nat (frames * AUDIO_SPEC_CHANNELS) in
  let chunk := (fun x => Z.shiftl x 8) <$> take n (data ab) in
  exists h' w',
    host_render_audio h sdl_idle = Some (h', w') /\
    Z.of_nat (length chunk) = frames * AUDIO_SPEC_CHANNELS /\
    Forall (fun y => 0 <= y < 2 ^ 16) chunk /\
    buffer (audio h') = chunk ++ drop n (buffer (audio h)) /\
    (audio_queued sdl_idle < AUDIO_MAX_QUEUED_SIZE h ->
       enqueued (calls w') = enqueued (calls sdl_idle) ++ [chunk]).
Proof.
  cbv zeta.
  assert (Hok : staging_ok (sim_host 16 running (sim_at 0))) by (split; [vm_compute; discriminate | reflexivity]).
  assert (Hu8 : Forall is_u8 (data (emulator_get_audio_buffer
                                      (hook_ctx_e (sim_host 16 running (sim_at 0)))))).
  { repeat constructor; vm_compute; discriminate || reflexivity. }
  split; [exact Hok|]. split; [exact Hu8|].
  exact (deliver_converts _ sdl_idle Hok Hu8).
Defined.

Lemma render_audio_in_bounds_witness :
  let h := sim_host 16 running (sim_frames 16) in
  0 < spec_size h /\ (AUDIO_FRAME_SIZE | spec_size h) /\
  Z.of_nat (length (buffer (audio h))) = spec_size h / AUDIO_SPEC_SAMPLE_SIZE /\
  let frames := Z.min (audio_buffer_get_frames (emulator_get_audio_buffer (hook_ctx_e h)))
                      (spec_size h / AUDIO_FRAME_SIZE) in
  let dst_end := Z.to_nat (frames * AUDIO_SPEC_CHANNELS) in
  Z.of_nat dst_end * AUDIO_SPEC_SAMPLE_SIZE <= spec_size h /\
  (dst_end <= length (buffer (audio h)))%nat /\
  exists h' w',
    host_render_audio h sdl_idle = Some (h', w') /\
    length (buffer (audio h')) = length (buffer (audio h)) /\
    drop dst_end (buffer (audio h')) = drop dst_end (buffer (audio h)).
Proof.
  cbv zeta.
  assert (Hpos : 0 < spec_size (sim_host 16 running (sim_frames 16))) by reflexivity.
  assert (Hdiv : (AUDIO_FRAME_SIZE | spec_size (sim_host 16 running (sim_frames 16))))
    by (exists 4; reflexivity).
  assert (Hlen : Z.of_nat (length (buffer (audio (sim_host 16 running (sim_frames 16)))))
                 = spec_size (sim_host 16 running (sim_frames 16)) / AUDIO_SPEC_SAMPLE_SIZE)
    by reflexivity.
  split; [exact Hpos|]. split; [exact Hdiv|]. split; [exact Hlen|].
  exact (render_audio_in_bounds _ sdl_idle Hpos Hdiv Hlen).
Defined.

(** * Further properties *)

(** Membership in a short literal call log. *)
Ltac in_log H :=
  repeat first
    [ apply elem_of_app in H as [H|H]
    | apply elem_of_cons in H as [H|H]
    | apply elem_of_nil in H; destruct H ].

(** Exhibiting a member of a short literal call log. *)
Ltac log_mem :=
  repeat first [ by apply list_elem_of_here | apply list_elem_of_further ].

(** ** Deliveries *)

Section DeliveryMore.
Context {Emulator : Type} `{EmulatorCore Emulator}.
Implicit Types (h : Host Emulator) (w : SDL).

(** X1.  A delivery never stops playback.  [host_render_audio] returns
    without calling [SDL_ClearQueuedAudio] or pausing the device; it
    leaves the configuration, the core and the device spec alone and does
    not lower the queued byte count; a device that plays keeps playing;
    and once the pacer is ready it stays ready and the delivery makes no
    [SDL_PauseAudioDevice] call at all. *)
Theorem deliver_keeps_playing h w :
  staging_ok h ->
  exists h' w' made,
    host_render_audio h w = Some (h', w') /\
    calls w' = calls w ++ made /\
    (EvClearQueuedAudio ∉ made) /\ (EvPauseAudioDevice true ∉ made) /\
    config h' = config h /\ hook_ctx_e h' = hook_ctx_e h /\
    spec (audio h') = spec (audio h) /\
    audio_queued w <= audio_queued w' /\
    (audio_paused w = false -> audio_paused w' = false) /\
    (ready (audio h) = true ->
       ready (audio h') = true /\ audio_paused w' = audio_paused w /\
       forall pause_on, EvPauseAudioDevice pause_on ∉ made).
Proof.
  intros Hok. pose proof (host_render_audio_eq h w Hok) as Hrun. cbv zeta in Hrun.
  eexists _, _, _; split; [exact Hrun|]. clear Hrun.
  cbn [calls config hook_ctx_e set_audio audio spec ready audio_queued audio_paused].
  split; [reflexivity|].
  pose proof (u32_range (render_frames h * AUDIO_SPEC_CHANNELS * AUDIO_SPEC_SAMPLE_SIZE))
    as Hbsz. unfold is_u32 in Hbsz.
  set (bsz := u32 _) in *.
  split; [|split].
  { destruct (bool_decide (audio_queued w < _)), (_ && _); intros Hin; in_log Hin;
      discriminate. }
  { destruct (bool_decide (audio_queued w < _)), (_ && _); intros Hin; in_log Hin;
      discriminate. }
  do 3 (split; [reflexivity|]).
  split; [destruct (bool_decide (audio_queued w < _)); lia|].
  split; [by intros ->|].
  intros ->. cbn [negb andb orb]. split; [reflexivity|]. split; [by rewrite andb_true_r|].
  intros pause_on Hin.
  destruct (bool_decide (audio_queued w < _)); in_log Hin; discriminate.
Qed.

(** X2.  The two audio hooks report the device's queue.  When the queue
    cannot overflow 32 bits, [audio_add_buffer] is called exactly when a
    chunk is queued, with the queued byte count before and after the
    chunk; [audio_buffer_ready] is called exactly when the device is
    unpaused, with the queued byte count the delivery leaves. *)
Theorem deliver_hooks_report h w :
  staging_ok h -> 0 <= audio_queued w -> audio_queued w + spec_size h < 2 ^ 32 ->
  exists h' w' made,
    host_render_audio h w = Some (h', w') /\
    calls w' = calls w ++ made /\
    (forall old_size new_size, EvHookAudioAddBuffer old_size new_size ∈ made ->
       old_size = audio_queued w /\ new_size = audio_queued w') /\
    (forall queued_size, EvHookAudioBufferReady queued_size ∈ made ->
       queued_size = audio_queued w') /\
    ((exists chunk, EvQueueAudio chunk ∈ made)
     <-> exists old_size new_size, EvHookAudioAddBuffer old_size new_size ∈ made) /\
    (EvPauseAudioDevice false ∈ made
     <-> exists queued_size, EvHookAudioBufferReady queued_size ∈ made).
Proof.
  intros Hok Hq Hfit. pose proof (host_render_audio_eq h w Hok) as Hrun. cbv zeta in Hrun.
  eexists _, _, _; split; [exact Hrun|]. clear Hrun.
  cbn [calls audio_queued]. split; [reflexivity|].
  destruct (render_frames_bounds h (proj1 Hok)) as (H0 & _ & Hdst).
  assert (Hbsz : 0 <= u32 (render_frames h * AUDIO_SPEC_CHANNELS * AUDIO_SPEC_SAMPLE_SIZE)
                 <= spec_size h).
  { unfold AUDIO_FRAME_SIZE, AUDIO_SPEC_CHANNELS, AUDIO_SPEC_SAMPLE_SIZE in *.
    pose proof (u32_le (render_frames h * 2 * 2)). lia. }
  set (bsz := u32 (render_frames h * _ * _)) in *.
  destruct (bool_decide (audio_queued w < _)); cbn [app];
    rewrite ?(u32_small (audio_queued w + bsz)) by (unfold is_u32; lia);
    destruct (_ && _);
    (split; [intros old_size new_size Hin; in_log Hin; try discriminate;
             injection Hin as -> ->; by split|]);
    (split; [intros queued_size Hin; in_log Hin; try discriminate;
             by injection Hin as ->|]);
    split; split;
    first [ solve [intros [? Hin]; in_log Hin; discriminate]
          | solve [intros (? & ? & Hin); in_log Hin; discriminate]
          | solve [intros Hin; in_log Hin; discriminate]
          | solve [intros _; repeat eexists; log_mem] ].
Qed.

(** X3.  A delivery without a whole frame.  When the core's audio buffer
    holds less than one stereo frame, or the device buffer is smaller than
    one frame, the staging buffer and the queued byte count are left as
    they were; yet, below the maximum watermark, [SDL_QueueAudio] is
    still called, with an empty chunk, and the delivery starts playback
    if the pacer is not ready and the queue already holds the target: it
    then sets [ready], calls the [audio_buffer_ready] hook and
    [SDL_PauseAudioDevice(dev, 0)] as its last two calls, and leaves the
    device playing.  Otherwise it makes no unpausing call and leaves the
    paused flag alone. *)
Theorem deliver_empty h w :
  staging_ok h ->
  (length (data (emulator_get_audio_buffer (hook_ctx_e h))) < 2)%nat
  \/ spec_size h < AUDIO_FRAME_SIZE ->
  exists h' w',
    host_render_audio h w = Some (h', w') /\
    buffer (audio h') = buffer (audio h) /\
    audio_queued w' = audio_queued w /\
    (audio_queued w < AUDIO_MAX_QUEUED_SIZE h ->
       enqueued (calls w') = enqueued (calls w) ++ [[]]) /\
    (is_u32 (audio_queued w) ->
       let starts := negb (ready (audio h))
                     && bool_decide (AUDIO_TARGET_QUEUED_SIZE h <= audio_queued w) in
       ready (audio h') =
         ready (audio h) || bool_decide (AUDIO_TARGET_QUEUED_SIZE h <= audio_queued w) /\
       audio_paused w' = audio_paused w && negb starts /\
       unpauses (calls w') = (unpauses (calls w) + (if starts then 1 else 0))%nat /\
       (starts = true ->
        exists before,
          calls w' = before ++ [EvHookAudioBufferReady (audio_queued w);
                                EvPauseAudioDevice false])).
Proof.
  intros Hok Hshort. pose proof (host_render_audio_eq h w Hok) as Hrun. cbv zeta in Hrun.
  assert (Hframes : render_frames h = 0).
  { destruct (render_frames_bounds h (proj1 Hok)) as (H0 & Hsrc & Hdst).
    unfold render_frames, audio_buffer_get_frames in *.
    destruct Hshort as [Hlen|Hsz].
    - assert (Z.of_nat (length (data (emulator_get_audio_buffer (hook_ctx_e h)))) / 2 = 0)
        by (apply Z.div_small; lia).
      lia.
    - assert (spec_size h / AUDIO_FRAME_SIZE = 0)
        by (apply Z.div_small; destruct Hok; lia).
      lia. }
  assert (Hsrc : source_samples h = []).
  { unfold source_samples. by rewrite Hframes. }
  rewrite Hsrc, Hframes in Hrun. cbn [fmap list_fmap length drop app] in Hrun.
  change (u32 (0 * AUDIO_SPEC_CHANNELS * AUDIO_SPEC_SAMPLE_SIZE)) with 0 in Hrun.
  rewrite Z.add_0_r in Hrun.
  eexists _, _; split; [exact Hrun|]. clear Hrun.
  cbn [audio buffer set_audio audio_queued audio_paused calls ready].
  split; [reflexivity|]. split; [by destruct (bool_decide _)|]. split.
  - intros Hroom. rewrite bool_decide_eq_true_2 by done.
    rewrite !enqueued_app. destruct (_ && _); cbn; by rewrite ?app_nil_r.
  - intros Hu. cbv zeta. rewrite u32_small by done.
    assert (Hq : (if bool_decide (audio_queued w < AUDIO_MAX_QUEUED_SIZE h)
                  then audio_queued w else audio_queued w) = audio_queued w)
      by (by destruct (bool_decide _)).
    rewrite Hq.
    set (starts := negb (ready (audio h)) && bool_decide (_ <= _)).
    split; [subst starts; by destruct (ready (audio h))|].
    split; [reflexivity|].
    split.
    + rewrite !unpauses_app.
      destruct (bool_decide (audio_queued w < _)), starts;
        rewrite ?unpauses_queue, ?unpauses_ready; cbn [unpauses filter length]; reflexivity.
    + intros ->. rewrite app_assoc. by eexists.
Qed.
End DeliveryMore.

(** ** Configuration *)

Section ConfigMore.
Context {Emulator : Type} `{EmulatorCore Emulator}.
Implicit Types (h : Host Emulator) (w : SDL).

(** X4.  [host_set_config] is idempotent: installing the configuration
    that was just installed changes neither the host nor the device and
    makes no call. *)
Theorem set_config_idempotent h new_config w h' w' :
  host_set_config h new_config w = Some (h', w') ->
  host_set_config h' new_config w' = Some (h', w').
Proof.
  rewrite host_set_config_eq. intros [= <- <-].
  rewrite host_set_config_eq. cbn [config audio hook_ctx_e audio_queued audio_paused calls].
  rewrite (bool_decide_eq_false_2 (no_sync new_config <> no_sync new_config)),
    (bool_decide_eq_false_2 (paused new_config <> paused new_config)),
    (bool_decide_eq_false_2 (fullscreen new_config <> fullscreen new_config))
    by (intros Hne; by apply Hne).
  cbn [orb app]. by rewrite app_nil_r.
Qed.

(** X5.  The video calls of [host_set_config].  [SDL_GL_SetSwapInterval]
    is called exactly when [no_sync] changes, with interval [0] for
    [no_sync] and [1] otherwise; [SDL_SetWindowFullscreen] exactly when
    [fullscreen] changes, with the new flag; the audio is reset once for
    each of [no_sync] and [paused] that changes, so twice when both do;
    the [step] flag causes no call. *)
Theorem set_config_calls h new_config w :
  exists h' w' made,
    host_set_config h new_config w = Some (h', w') /\
    calls w' = calls w ++ made /\
    (forall interval, EvSetSwapInterval interval ∈ made <->
       no_sync (config h) <> no_sync new_config /\
       interval = if no_sync new_config then 0 else 1) /\
    (forall desktop, EvSetWindowFullscreen desktop ∈ made <->
       fullscreen (config h) <> fullscreen new_config /\
       desktop = fullscreen new_config) /\
    length (filter (fun c => c = EvClearQueuedAudio) made) =
      ((if bool_decide (no_sync (config h) <> no_sync new_config) then 1 else 0)
       + (if bool_decide (paused (config h) <> paused new_config) then 1 else 0))%nat.
Proof.
  eexists _, _, _; split; [apply host_set_config_eq|].
  cbn [calls]. split; [reflexivity|].
  do 3 case_bool_decide; cbn [app];
    (split; [intros interval; split;
             [intros Hin; in_log Hin; try discriminate; by injection Hin as ->
             |intros [Hne ->]; first [done | log_mem]]|]);
    (split; [intros desktop; split;
             [intros Hin; in_log Hin; try discriminate; by injection Hin as ->
             |intros [Hne ->]; first [done | log_mem]]|]);
    reflexivity.
Qed.

End ConfigMore.

(** ** Ticks *)

Section TickMore.
Context {Emulator : Type} `{EmulatorCore Emulator}.
Implicit Types (h : Host Emulator) (w : SDL).

Lemma core_and_video_calls_app cs1 cs2 :
  core_and_video_calls (cs1 ++ cs2) = core_and_video_calls cs1 ++ core_and_video_calls cs2.
Proof. unfold core_and_video_calls. apply filter_app. Qed.

(** A delivery makes no call to the core or to the texture, and queues at
    most one chunk. *)
Lemma host_render_audio_log h w :
  staging_ok h ->
  exists h' w' made,
    host_render_audio h w = Some (h', w') /\
    calls w' = calls w ++ made /\
    core_and_video_calls made = [] /\
    (length (enqueued made) <= 1)%nat /\
    staging_ok h' /\ spec (audio h') = spec (audio h) /\
    config h' = config h /\ hook_ctx_e h' = hook_ctx_e h.
Proof.
  intros Hok.
  destruct (host_render_audio_frame h w Hok) as (h' & w' & Hrun & Hrest).
  exists h', w'. pose proof (host_render_audio_eq h w Hok) as Heq. cbv zeta in Heq.
  rewrite Hrun in Heq. injection Heq as _ Hw. eexists. split; [exact Hrun|].
  split; [rewrite Hw; reflexivity|]. clear Hw Hrun.
  split; [|split; [|exact Hrest]].
  - by destruct (bool_decide (audio_queued w < _)), (negb _ && _).
  - destruct (bool_decide (audio_queued w < _)), (negb _ && _); cbn; lia.
Qed.

Lemma audio_full_reports_cons (ev : EmulatorEvent) evs :
  length (filter (fun ev => EMULATOR_EVENT_AUDIO_BUFFER_FULL ev = true) (ev :: evs)) =
    ((if EMULATOR_EVENT_AUDIO_BUFFER_FULL ev then 1 else 0)
     + length (filter (fun ev => EMULATOR_EVENT_AUDIO_BUFFER_FULL ev = true) evs))%nat.
Proof.
  rewrite filter_cons. destruct ev as [nf [|] r]; cbn [EMULATOR_EVENT_AUDIO_BUFFER_FULL].
  - rewrite decide_True by done. reflexivity.
  - rewrite decide_False by done. reflexivity.
Qed.

Lemma reaches_target_step fuel (e : Emulator) until :
  reaches_target (S fuel) e until =
    let r := emulator_run_until e until in
    if EMULATOR_EVENT_UNTIL_CYCLES r.2 then true else reaches_target fuel r.1 until.
Proof.
  unfold reaches_target. cbn [core_reports].
  destruct (emulator_run_until e until) as [e' [nf af reached]]; cbn.
  destruct reached; [reflexivity|].
  destruct (core_reports fuel e' until) as [|ev evs] eqn:Hr; cbn; reflexivity.
Qed.

(** The loop of a tick whose core reports the target within [fuel] runs
    returns; its core and texture calls are those of the reports. *)
Lemma run_loop_calls fuel : forall h w until,
  staging_ok h -> reaches_target fuel (hook_ctx_e h) until = true ->
  exists h' w' made,
    run_loop fuel h until w = Some (h', w') /\
    calls w' = calls w ++ made /\
    staging_ok h' /\ spec (audio h') = spec (audio h) /\ config h' = config h /\
    core_and_video_calls made =
      flat_map (report_calls until) (core_reports fuel (hook_ctx_e h) until) /\
    (length (enqueued made) <=
     length (filter (fun ev => EMULATOR_EVENT_AUDIO_BUFFER_FULL ev = true)
                    (core_reports fuel (hook_ctx_e h) until)))%nat.
Proof.
  induction fuel as [|fuel IH]; intros h w until Hok Hreach; [discriminate|].
  rewrite reaches_target_step in Hreach. cbv zeta in Hreach.
  cbn [run_loop core_reports]. unfold bind at 1. cbn [record].
  destruct (emulator_run_until (hook_ctx_e h) until) as [e' [new_frame audio_full reached]].
  cbn [fst snd EMULATOR_EVENT_NEW_FRAME EMULATOR_EVENT_AUDIO_BUFFER_FULL
       EMULATOR_EVENT_UNTIL_CYCLES] in *.
  set (w1 := mkSDL _ _ (calls w ++ [EvRunUntil until])).
  assert (Hok0 : staging_ok (set_emulator h e')) by exact Hok.
  assert (Hupload : exists w2,
    (if new_frame then host_upload_video (set_emulator h e') else ret tt) w1
    = Some (tt, w2) /\
    calls w2 = calls w ++ report_calls until (mkEvent new_frame audio_full reached)).
  { destruct new_frame; eexists; (split; [reflexivity|]); cbn; by rewrite <- ?app_assoc. }
  destruct Hupload as (w2 & Hupload & Hcalls2).
  unfold bind at 1. rewrite Hupload.
  assert (Haudio : exists h1 w3 made,
    (if audio_full then host_render_audio (set_emulator h e') else ret (set_emulator h e')) w2
    = Some (h1, w3) /\
    calls w3 = calls w2 ++ made /\ core_and_video_calls made = [] /\
    (length (enqueued made) <= if audio_full then 1 else 0)%nat /\
    staging_ok h1 /\ spec (audio h1) = spec (audio h) /\
    config h1 = config h /\ hook_ctx_e h1 = e').
  { destruct audio_full.
    - destruct (host_render_audio_log (set_emulator h e') w2 Hok0)
        as (h1 & w3 & made & Hrun & ? & ? & ? & ? & ? & ? & ?). by exists h1, w3, made.
    - exists (set_emulator h e'), w2, []. rewrite app_nil_r.
      do 3 (split; [reflexivity|]). split; [cbn; lia|]. split; [exact Hok0|]. done. }
  destruct Haudio as (h1 & w3 & made1 & Haudio & Hcalls3 & Hcv1 & Henq1 & Hok1 & Hspec1
                      & Hcfg1 & He1).
  unfold bind at 1. rewrite Haudio.
  assert (Hhead : core_and_video_calls
                    (report_calls until (mkEvent new_frame audio_full reached))
                  = report_calls until (mkEvent new_frame audio_full reached))
    by (by destruct new_frame).
  assert (Hnone : enqueued (report_calls until (mkEvent new_frame audio_full reached)) = [])
    by (by destruct new_frame).
  destruct reached.
  - exists h1, w3, (report_calls until (mkEvent new_frame audio_full true) ++ made1).
    split; [reflexivity|]. split; [by rewrite Hcalls3, Hcalls2, app_assoc|].
    do 3 (split; [done|]). split.
    + rewrite core_and_video_calls_app, Hhead, Hcv1. cbn [flat_map]. reflexivity.
    + rewrite enqueued_app, Hnone, audio_full_reports_cons. cbn [app].
      cbn [EMULATOR_EVENT_AUDIO_BUFFER_FULL]. destruct audio_full; cbn; lia.
  - destruct (IH h1 w3 until Hok1) as (h' & w' & made2 & Hrun & Hcalls' & Hok' & Hspec'
                                       & Hcfg' & Hcv2 & Henq2).
    { by rewrite He1. }
    exists h', w', (report_calls until (mkEvent new_frame audio_full false) ++ made1 ++ made2).
    split; [exact Hrun|].
    split; [by rewrite Hcalls', Hcalls3, Hcalls2, <- !app_assoc|].
    split; [done|]. split; [congruence|]. split; [congruence|]. split.
    + rewrite !core_and_video_calls_app, Hhead, Hcv1, Hcv2, He1. cbn [flat_map app].
      reflexivity.
    + rewrite !enqueued_app, Hnone, !length_app, audio_full_reports_cons.
      rewrite He1 in Henq2. cbn [EMULATOR_EVENT_AUDIO_BUFFER_FULL length].
      destruct audio_full; lia.
Qed.

(** What [host_run_ms] does once its loop has returned: it serves a
    pending step request by pausing, which resets the audio, and makes no
    further call to the core or the texture. *)
Lemma host_run_ms_after_loop fuel h delta_ms w dc until h1 w1 :
  paused (config h) = false ->
  tick_target h delta_ms = Some (dc, until) ->
  run_loop fuel h until w = Some (h1, w1) -> config h1 = config h ->
  exists h' w' tail,
    host_run_ms fuel h delta_ms w = Some (h', w') /\
    calls w' = calls w1 ++ tail /\
    core_and_video_calls tail = [] /\ enqueued tail = [] /\
    (step (config h) = true ->
       tail = [EvClearQueuedAudio; EvPauseAudioDevice true] /\
       audio_queued w' = 0 /\ audio_paused w' = true /\ ready (audio h') = false).
Proof.
  intros Hp Htarget Hloop Hcfg1.
  unfold host_run_ms. rewrite Hp, Htarget. unfold bind at 1. cbn [lift snd].
  unfold bind at 1. rewrite Hloop. unfold host_get_config. rewrite Hcfg1.
  destruct (step (config h)).
  - rewrite host_set_config_eq. rewrite Hcfg1. cbn [no_sync paused fullscreen].
    rewrite (bool_decide_eq_false_2 (no_sync (config h) <> no_sync (config h)))
      by (intros Hne; by apply Hne).
    rewrite (bool_decide_eq_false_2 (fullscreen (config h) <> fullscreen (config h)))
      by (intros Hne; by apply Hne).
    rewrite (bool_decide_eq_true_2 (paused (config h) <> true)) by (by rewrite Hp).
    cbn [orb app]. eexists _, _, _; split; [reflexivity|].
    cbn [calls audio_queued audio_paused audio ready].
    do 3 (split; [reflexivity|]). intros _. by repeat split.
  - exists h1, w1, []. rewrite app_nil_r.
    do 4 (split; [reflexivity|]). discriminate.
Qed.

(** X6.  The calls of a tick.  If the host is not paused and the core
    reports the target within [fuel] runs, [host_run_ms] returns, and its
    calls to the core and to the texture are exactly these: one
    [emulator_run_until] per report, always with the target computed on
    entry, followed by one texture upload if that report has
    [EMULATOR_EVENT_NEW_FRAME]; the tick queues at most one audio chunk
    per report with [EMULATOR_EVENT_AUDIO_BUFFER_FULL]. *)
Theorem tick_calls fuel h delta_ms w dc until :
  staging_ok h -> paused (config h) = false ->
  tick_target h delta_ms = Some (dc, until) ->
  reaches_target fuel (hook_ctx_e h) until = true ->
  let reports := core_reports fuel (hook_ctx_e h) until in
  exists h' w' made,
    host_run_ms fuel h delta_ms w = Some (h', w') /\
    calls w' = calls w ++ made /\
    core_and_video_calls made = flat_map (report_calls until) reports /\
    (length (enqueued made) <=
     length (filter (fun ev => EMULATOR_EVENT_AUDIO_BUFFER_FULL ev = true) reports))%nat.
Proof.
  intros Hok Hp Htarget Hreach reports.
  destruct (run_loop_calls fuel h w until Hok Hreach)
    as (h1 & w1 & made & Hloop & Hcalls & _ & _ & Hcfg1 & Hcv & Henq).
  destruct (host_run_ms_after_loop fuel h delta_ms w dc until h1 w1 Hp Htarget Hloop Hcfg1)
    as (h' & w' & tail & Hrun & Hcalls' & Hcv' & Henq' & _).
  exists h', w', (made ++ tail). split; [exact Hrun|].
  split; [by rewrite Hcalls', Hcalls, app_assoc|]. split.
  - rewrite core_and_video_calls_app, Hcv, Hcv'. by rewrite app_nil_r.
  - rewrite enqueued_app, Henq', app_nil_r. exact Henq.
Qed.

(** X9.  A paused host ignores time.  While the host is paused, any
    number of ticks, whatever their deltas (also ones that cannot be cast
    to [u32]) and with or without fuel, runs nothing: host and device are
    unchanged, and a pending step request stays pending. *)
Theorem paused_ticks_do_nothing fuel (deltas : list f64) h w :
  paused (config h) = true ->
  ticks fuel (Tick <$> deltas) h w = Some ([], (h, w)).
Proof.
  intros Hp. induction deltas as [|delta_ms deltas IH]; [reflexivity|].
  cbn [fmap list_fmap ticks]. rewrite (host_run_ms_paused fuel h delta_ms w Hp).
  cbn [mbind option_bind]. fold (@fmap list _ _ _ (@Tick) deltas). rewrite IH.
  cbn [mbind option_bind]. unfold observe_tick. by rewrite Hp.
Qed.

End TickMore.

Section TickLaws.
Context {Emulator : Type} `{EmulatorCore Emulator} {Hlaws : EmulatorLaws Emulator}.
Implicit Types (h : Host Emulator) (w : SDL).

(** A core that honours the contract reports the target within
    [until - cycles + 1] runs. *)
Lemma laws_reach fuel : forall (e : Emulator) until,
  is_u32 until ->
  (Z.to_nat (until - emulator_get_cycles e) < fuel)%nat ->
  reaches_target fuel e until = true.
Proof.
  induction fuel as [|fuel IH]; intros e until Hu Hfuel; [lia|].
  rewrite reaches_target_step. cbv zeta.
  destruct (EMULATOR_EVENT_UNTIL_CYCLES (emulator_run_until e until).2) eqn:Hr;
    [reflexivity|].
  pose proof (run_until_progress e until Hu Hr) as Hprog.
  assert (Hlt : emulator_get_cycles (emulator_run_until e until).1 < until).
  { destruct (decide (until <= emulator_get_cycles (emulator_run_until e until).1))
      as [Hge|]; [|lia].
    apply (run_until_reached e until Hu) in Hge. congruence. }
  apply IH; [exact Hu|lia].
Qed.

(** X7.  A target that is already reached.  When the target of a tick is
    not above the cycle counter (a zero delta, or a sum that wrapped
    around 32 bits), a core that honours the contract is still run, once:
    the tick makes exactly one [emulator_run_until] call, with that
    target, and never moves the counter backwards. *)
Theorem tick_target_behind fuel h delta_ms w dc until :
  staging_ok h -> paused (config h) = false ->
  tick_target h delta_ms = Some (dc, until) ->
  until <= cycles h -> (0 < fuel)%nat ->
  exists h' w' made,
    host_run_ms fuel h delta_ms w = Some (h', w') /\
    calls w' = calls w ++ made /\
    core_and_video_calls made =
      report_calls until (emulator_run_until (hook_ctx_e h) until).2 /\
    cycles h <= cycles h'.
Proof.
  intros Hok Hp Htarget Hbehind Hfuel.
  destruct (tick_target_inv _ _ _ _ Htarget) as (_ & _ & Hu).
  destruct fuel as [|fuel]; [lia|].
  assert (Hfirst : EMULATOR_EVENT_UNTIL_CYCLES (emulator_run_until (hook_ctx_e h) until).2
                   = true).
  { apply (run_until_reached _ _ Hu).
    pose proof (run_until_monotone (hook_ctx_e h) until). unfold cycles in *. lia. }
  assert (Hreach : reaches_target (S fuel) (hook_ctx_e h) until = true).
  { rewrite reaches_target_step. cbv zeta. by rewrite Hfirst. }
  destruct (host_run_ms_runs (S fuel) h delta_ms w dc until Hok Hp Htarget)
    as (h' & w' & Hrun & _ & _ & Hle & _); [lia|].
  destruct (run_loop_calls (S fuel) h w until Hok Hreach)
    as (h1 & w1 & made & Hloop & Hcalls & _ & _ & Hcfg1 & Hcv & _).
  destruct (host_run_ms_after_loop (S fuel) h delta_ms w dc until h1 w1 Hp Htarget Hloop
              Hcfg1)
    as (h2 & w2 & tail & Hrun2 & Hcalls2 & Hcv2 & _).
  rewrite Hrun in Hrun2. injection Hrun2 as <- <-.
  exists h', w', (made ++ tail). split; [exact Hrun|].
  split; [by rewrite Hcalls2, Hcalls, app_assoc|]. split; [|exact Hle].
  rewrite core_and_video_calls_app, Hcv, Hcv2, app_nil_r. cbn [core_reports].
  destruct (emulator_run_until (hook_ctx_e h) until) as [e' ev]. cbn [snd] in *.
  rewrite Hfirst. cbn [flat_map]. by rewrite app_nil_r.
Qed.

(** X8.  A single step ends with the audio reset.  A tick that serves a
    pending step request of a core that honours the contract ends by
    pausing the host, and with it resets the pacer: its last two calls
    are [SDL_ClearQueuedAudio] and [SDL_PauseAudioDevice(dev, 1)], so
    whatever the step queued is discarded, the device is paused and the
    pacer is not ready. *)
Theorem single_step_resets_audio fuel h delta_ms w dc until :
  staging_ok h -> paused (config h) = false -> step (config h) = true ->
  tick_target h delta_ms = Some (dc, until) ->
  (Z.to_nat (until - cycles h) < fuel)%nat ->
  exists h' w' made,
    host_run_ms fuel h delta_ms w = Some (h', w') /\
    calls w' = calls w ++ made ++ [EvClearQueuedAudio; EvPauseAudioDevice true] /\
    audio_queued w' = 0 /\ audio_paused w' = true /\ ready (audio h') = false.
Proof.
  intros Hok Hp Hstep Htarget Hfuel.
  destruct (tick_target_inv _ _ _ _ Htarget) as (_ & _ & Hu).
  pose proof (laws_reach fuel (hook_ctx_e h) until Hu Hfuel) as Hreach.
  destruct (run_loop_calls fuel h w until Hok Hreach)
    as (h1 & w1 & made & Hloop & Hcalls & _ & _ & Hcfg1 & _).
  destruct (host_run_ms_after_loop fuel h delta_ms w dc until h1 w1 Hp Htarget Hloop Hcfg1)
    as (h' & w' & tail & Hrun & Hcalls' & _ & _ & Hreset).
  destruct (Hreset Hstep) as (-> & Hq & Hpa & Hr).
  exists h', w', made. split; [exact Hrun|].
  split; [by rewrite Hcalls', Hcalls, <- app_assoc|]. done.
Qed.

End TickLaws.

(** ** Polling *)

Section PollMore.
Context {Emulator : Type} `{EmulatorCore Emulator}.
Context `{EmulatorConfigAccess Emulator} `{HostHooks Emulator}.
Variables SCREEN_WIDTH SCREEN_HEIGHT : Z.
Implicit Types (h : Host Emulator) (w : SDL) (s : @PollState Emulator) (v : HostVideo).
Implicit Types (ev : SDL_Event) (events : list SDL_Event).

(** Case analysis on one event of the loop. *)
Ltac poll_cases ev :=
  destruct ev as [data1 data2| |[]|[]| |];
  cbn [poll_event on_key on_key_down call_hook with_emu_config
       with_host_config with_running negb
       poll_running poll_emu_config poll_host_config poll_video poll_core poll_calls
       no_sync paused step fullscreen
       disable_sound1 disable_sound2 disable_sound3 disable_sound4
       disable_bg disable_window disable_obj];
  unfold call_hook;
  repeat match goal with
         | |- context [match ?o with Some _ => _ | None => _ end] => destruct o
         end;
  cbn [poll_running poll_emu_config poll_host_config poll_video poll_core poll_calls
       no_sync paused step fullscreen
       disable_sound1 disable_sound2 disable_sound3 disable_sound4
       disable_bg disable_window disable_obj].

(** A component of the loop state that each event updates on its own
    follows the batch by a fold. *)
Lemma poll_fold {A} (f : PollState -> A) (g : A -> SDL_Event -> A) :
  (forall s ev, f (poll_event SCREEN_WIDTH SCREEN_HEIGHT s ev) = g (f s) ev) ->
  forall events s, f (fold_left (poll_event SCREEN_WIDTH SCREEN_HEIGHT) events s) = fold_left g events (f s).
Proof.
  intros Hstep events. induction events as [|ev events IH]; intros s; [reflexivity|].
  cbn [fold_left]. by rewrite IH, Hstep.
Qed.

Lemma toggled_fold k events : forall b,
  fold_left (fun b ev => xorb b (bool_decide (ev = k))) events b =
    toggled b (length (filter (fun ev => ev = k) events)).
Proof.
  unfold toggled. induction events as [|ev events IH]; intros b; cbn [fold_left].
  - by rewrite xorb_false_r.
  - rewrite IH, filter_cons. case_bool_decide as Hk.
    + rewrite decide_True by done. cbn [length]. rewrite Nat.odd_succ, <- Nat.negb_odd.
      by destruct b, (Nat.odd _).
    + rewrite decide_False by done. by rewrite xorb_false_r.
Qed.

Lemma poll_toggle (f : PollState -> bool) k :
  (forall s ev, f (poll_event SCREEN_WIDTH SCREEN_HEIGHT s ev) = xorb (f s) (bool_decide (ev = k))) ->
  forall events s,
    f (fold_left (poll_event SCREEN_WIDTH SCREEN_HEIGHT) events s) =
      toggled (f s) (length (filter (fun ev => ev = k) events)).
Proof.
  intros Hstep events s.
  rewrite (poll_fold f (fun b ev => xorb b (bool_decide (ev = k))) Hstep).
  apply toggled_fold.
Qed.

Lemma poll_event_running s ev :
  poll_running (poll_event SCREEN_WIDTH SCREEN_HEIGHT s ev) = poll_running s && negb (quits ev).
Proof.
  poll_cases ev; cbn [quits negb]; by rewrite ?andb_true_r, ?andb_false_r.
Qed.

Lemma poll_loop_running events : forall s,
  poll_running (fold_left (poll_event SCREEN_WIDTH SCREEN_HEIGHT) events s) =
    poll_running s && negb (existsb quits events).
Proof.
  induction events as [|ev events IH]; intros s; cbn [fold_left existsb].
  - by rewrite andb_true_r.
  - rewrite IH, poll_event_running. by destruct (poll_running s), (quits ev).
Qed.

Lemma poll_event_calls s ev :
  poll_calls (poll_event SCREEN_WIDTH SCREEN_HEIGHT s ev) = poll_calls s ++ event_calls ev.
Proof.
  destruct ev as [data1 data2| |[]|[]| |]; cbn
    [poll_event on_key on_key_down call_hook with_emu_config
     with_host_config with_running negb poll_calls event_calls];
    try (by rewrite app_nil_r); try reflexivity.
  - destruct hook_write_state; cbn [poll_calls]; by rewrite ?app_nil_r.
  - destruct hook_read_state; cbn [poll_calls]; by rewrite ?app_nil_r.
Qed.

Lemma poll_loop_calls events : forall s,
  poll_calls (fold_left (poll_event SCREEN_WIDTH SCREEN_HEIGHT) events s) = poll_calls s ++ flat_map event_calls events.
Proof.
  induction events as [|ev events IH]; intros s; cbn [fold_left flat_map].
  - by rewrite app_nil_r.
  - by rewrite IH, poll_event_calls, app_assoc.
Qed.

Lemma poll_event_core s ev :
  poll_core (poll_event SCREEN_WIDTH SCREEN_HEIGHT s ev) = event_hooks (poll_core s) ev.
Proof.
  destruct ev as [data1 data2| |[]|[]| |]; cbn
    [poll_event on_key on_key_down call_hook with_emu_config
     with_host_config with_running negb poll_core event_hooks]; try reflexivity.
  - by destruct hook_write_state.
  - by destruct hook_read_state.
Qed.

Lemma poll_event_video s ev :
  poll_video (poll_event SCREEN_WIDTH SCREEN_HEIGHT s ev) =
    match ev with
    | SDL_WINDOWEVENT_RESIZED data1 data2 =>
        resize_video SCREEN_WIDTH SCREEN_HEIGHT (f32_of_int data1) (f32_of_int data2)
    | _ => poll_video s
    end.
Proof. poll_cases ev; reflexivity. Qed.

Lemma poll_loop_video events : forall s,
  poll_video (fold_left (poll_event SCREEN_WIDTH SCREEN_HEIGHT) events s) =
    resized SCREEN_WIDTH SCREEN_HEIGHT (poll_video s) events.
Proof.
  unfold resized.
  induction events as [|ev events IH]; intros s; cbn [fold_left]; [reflexivity|].
  rewrite IH, poll_event_video. unfold resizes.
  destruct ev as [data1 data2| |sc|sc| |]; cbn [omap list_omap]; try reflexivity.
  fold (resizes events). rewrite last_cons.
  by destruct (last (resizes events)) as [[]|].
Qed.

Lemma poll_event_sync s ev :
  no_sync (poll_host_config (poll_event SCREEN_WIDTH SCREEN_HEIGHT s ev)) = sync_keys (no_sync (poll_host_config s)) ev.
Proof. poll_cases ev; reflexivity. Qed.

Lemma poll_event_playback s ev :
  (paused (poll_host_config (poll_event SCREEN_WIDTH SCREEN_HEIGHT s ev)), step (poll_host_config (poll_event SCREEN_WIDTH SCREEN_HEIGHT s ev)))
  = playback_keys (paused (poll_host_config s), step (poll_host_config s)) ev.
Proof. poll_cases ev; reflexivity. Qed.

Lemma poll_event_fullscreen s ev :
  fullscreen (poll_host_config (poll_event SCREEN_WIDTH SCREEN_HEIGHT s ev)) =
    xorb (fullscreen (poll_host_config s))
         (bool_decide (ev = SDL_KEYUP SDL_SCANCODE_F11)).
Proof.
  poll_cases ev; (case_bool_decide; [try discriminate|try done]);
    by rewrite ?xorb_false_r, ?xorb_true_r.
Qed.

(** The loop state after a batch, component by component. *)
Lemma poll_loop_eq events h v :
  let s := poll_loop SCREEN_WIDTH SCREEN_HEIGHT events h v in
  let c := host_get_config h in
  poll_running s = negb (existsb quits events) /\
  poll_calls s = flat_map event_calls events /\
  poll_core s = fold_left event_hooks events (hook_ctx_e h) /\
  poll_video s = resized SCREEN_WIDTH SCREEN_HEIGHT v events /\
  no_sync (poll_host_config s) = fold_left sync_keys events (no_sync c) /\
  (paused (poll_host_config s), step (poll_host_config s)) =
    fold_left playback_keys events (paused c, step c) /\
  fullscreen (poll_host_config s) =
    toggled (fullscreen c) (key_ups SDL_SCANCODE_F11 events).
Proof.
  cbv zeta. unfold poll_loop.
  set (s0 := mkPoll _ _ _ _ _ _).
  split; [by rewrite poll_loop_running|].
  split; [by rewrite poll_loop_calls|].
  split; [exact (poll_fold poll_core event_hooks poll_event_core events s0)|].
  split; [by rewrite poll_loop_video|].
  split; [exact (poll_fold (fun s => no_sync (poll_host_config s)) sync_keys
                   poll_event_sync events s0)|].
  split; [exact (poll_fold (fun s => (paused (poll_host_config s),
                                       step (poll_host_config s)))
                   playback_keys poll_event_playback events s0)|].
  exact (poll_toggle (fun s => fullscreen (poll_host_config s)) _
           poll_event_fullscreen events s0).
Qed.

(** [host_poll_events] always returns; its result is that of
    [host_set_config] with the configuration the loop leaves. *)
Lemma host_poll_events_eq events h v w :
  let s := poll_loop SCREEN_WIDTH SCREEN_HEIGHT events h v in
  let e' := emulator_set_config (poll_core s) (poll_emu_config s) in
  exists h' w',
    host_set_config (set_emulator h e') (poll_host_config s) w = Some (h', w') /\
    host_poll_events SCREEN_WIDTH SCREEN_HEIGHT events h v w =
      Some (poll_running s, h', poll_video s,
            poll_calls s ++ [PcEmulatorSetConfig (poll_emu_config s)], w') /\
    config h' = poll_host_config s /\ hook_ctx_e h' = e' /\
    spec (audio h') = spec (audio h) /\
    (staging_ok h -> staging_ok h').
Proof.
  cbv zeta. unfold host_poll_events, bind.
  rewrite host_set_config_eq. eexists _, _; split; [reflexivity|].
  split; [reflexivity|]. cbn [config hook_ctx_e audio set_emulator].
  do 2 (split; [reflexivity|]).
  split; [by destruct (_ || _)|].
  intros [Hsz Hlen]. unfold staging_ok, spec_size in *. cbn [audio].
  by destruct (_ || _).
Qed.

Lemma poll_event_emu_config s ev :
  let c := poll_emu_config s in
  let c' := poll_emu_config (poll_event SCREEN_WIDTH SCREEN_HEIGHT s ev) in
  disable_sound1 c' = xorb (disable_sound1 c) (bool_decide (ev = SDL_KEYDOWN SDL_SCANCODE_1)) /\
  disable_sound2 c' = xorb (disable_sound2 c) (bool_decide (ev = SDL_KEYDOWN SDL_SCANCODE_2)) /\
  disable_sound3 c' = xorb (disable_sound3 c) (bool_decide (ev = SDL_KEYDOWN SDL_SCANCODE_3)) /\
  disable_sound4 c' = xorb (disable_sound4 c) (bool_decide (ev = SDL_KEYDOWN SDL_SCANCODE_4)) /\
  disable_bg c' = xorb (disable_bg c) (bool_decide (ev = SDL_KEYDOWN SDL_SCANCODE_B)) /\
  disable_window c' = xorb (disable_window c) (bool_decide (ev = SDL_KEYDOWN SDL_SCANCODE_W)) /\
  disable_obj c' = xorb (disable_obj c) (bool_decide (ev = SDL_KEYDOWN SDL_SCANCODE_O)).
Proof.
  cbv zeta.
  poll_cases ev;
    rewrite ?bool_decide_eq_false_2 by discriminate;
    rewrite ?bool_decide_eq_true_2 by reflexivity;
    rewrite ?xorb_false_r, ?xorb_true_r; done.
Qed.

(** The emulator configuration the loop leaves: every flag has been
    flipped once per key-down of its key. *)
Lemma poll_loop_emu_config events h v :
  let c := emulator_get_config (hook_ctx_e h) in
  poll_emu_config (poll_loop SCREEN_WIDTH SCREEN_HEIGHT events h v) =
    mkEmuConfig (toggled (disable_sound1 c) (key_downs SDL_SCANCODE_1 events))
                (toggled (disable_sound2 c) (key_downs SDL_SCANCODE_2 events))
                (toggled (disable_sound3 c) (key_downs SDL_SCANCODE_3 events))
                (toggled (disable_sound4 c) (key_downs SDL_SCANCODE_4 events))
                (toggled (disable_bg c) (key_downs SDL_SCANCODE_B events))
                (toggled (disable_window c) (key_downs SDL_SCANCODE_W events))
                (toggled (disable_obj c) (key_downs SDL_SCANCODE_O events)).
Proof.
  cbv zeta. unfold poll_loop, key_downs. set (s0 := mkPoll _ _ _ _ _ _).
  pose proof (fun f k Hstep => poll_toggle f k Hstep events s0) as Htoggle.
  rewrite <- (Htoggle (fun s => disable_sound1 (poll_emu_config s)))
    by (intros s ev; apply (poll_event_emu_config s ev)).
  rewrite <- (Htoggle (fun s => disable_sound2 (poll_emu_config s)))
    by (intros s ev; apply (poll_event_emu_config s ev)).
  rewrite <- (Htoggle (fun s => disable_sound3 (poll_emu_config s)))
    by (intros s ev; apply (poll_event_emu_config s ev)).
  rewrite <- (Htoggle (fun s => disable_sound4 (poll_emu_config s)))
    by (intros s ev; apply (poll_event_emu_config s ev)).
  rewrite <- (Htoggle (fun s => disable_bg (poll_emu_config s)))
    by (intros s ev; apply (poll_event_emu_config s ev)).
  rewrite <- (Htoggle (fun s => disable_window (poll_emu_config s)))
    by (intros s ev; apply (poll_event_emu_config s ev)).
  rewrite <- (Htoggle (fun s => disable_obj (poll_emu_config s)))
    by (intros s ev; apply (poll_event_emu_config s ev)).
  by destruct (poll_emu_config _).
Qed.

(** The running flag does not influence the rest of the loop state. *)
Lemma poll_event_with_running s r ev :
  poll_event SCREEN_WIDTH SCREEN_HEIGHT (with_running s r) ev =
    with_running (poll_event SCREEN_WIDTH SCREEN_HEIGHT s ev) (r && negb (quits ev)).
Proof.
  destruct s as [r0 c hc v e cs].
  poll_cases ev; cbn [quits negb with_running poll_running poll_emu_config
    poll_host_config poll_video poll_core poll_calls];
    by rewrite ?andb_true_r, ?andb_false_r.
Qed.

Lemma poll_loop_with_running events : forall s r,
  fold_left (poll_event SCREEN_WIDTH SCREEN_HEIGHT) events (with_running s r) =
    with_running (fold_left (poll_event SCREEN_WIDTH SCREEN_HEIGHT) events s)
                 (r && negb (existsb quits events)).
Proof.
  induction events as [|ev events IH]; intros s r; cbn [fold_left existsb].
  - by rewrite andb_true_r.
  - rewrite poll_event_with_running, IH. f_equal. by destruct r, (quits ev).
Qed.

Lemma poll_event_quits s ev :
  quits ev = true -> poll_event SCREEN_WIDTH SCREEN_HEIGHT s ev = with_running s false.
Proof. destruct ev as [| |[]|[]| |]; try discriminate; reflexivity. Qed.

Lemma with_running_twice s r r' : with_running (with_running s r) r' = with_running s r'.
Proof. reflexivity. Qed.

Lemma poll_loop_without_quits events : forall s,
  fold_left (poll_event SCREEN_WIDTH SCREEN_HEIGHT)
            (filter (fun ev => quits ev = false) events) s =
    with_running (fold_left (poll_event SCREEN_WIDTH SCREEN_HEIGHT) events s)
                 (poll_running s).
Proof.
  induction events as [|ev events IH]; intros s.
  - by destruct s.
  - rewrite filter_cons. cbn [fold_left]. destruct (quits ev) eqn:Hq.
    + rewrite decide_False by done. rewrite IH, (poll_event_quits s ev Hq).
      by rewrite poll_loop_with_running, with_running_twice.
    + rewrite decide_True by done. cbn [fold_left]. rewrite IH. f_equal.
      rewrite poll_event_running, Hq. by rewrite andb_true_r.
Qed.

(** X10.  Quitting.  [host_poll_events] always returns.  It returns
    [FALSE] exactly when the batch holds an [SDL_QUIT] event or a key-down
    of [ESCAPE], wherever it stands; such an event changes nothing else:
    the rest of the batch is processed, and the host, the geometry, the
    calls and the device are those of the batch without it. *)
Theorem poll_quit_only_stops events h v w :
  exists running h' v' made w',
    host_poll_events SCREEN_WIDTH SCREEN_HEIGHT events h v w
      = Some (running, h', v', made, w') /\
    running = negb (existsb quits events) /\
    host_poll_events SCREEN_WIDTH SCREEN_HEIGHT
      (filter (fun ev => quits ev = false) events) h v w
      = Some (true, h', v', made, w').
Proof.
  destruct (host_poll_events_eq events h v w) as (h' & w' & Hset & Hrun & _).
  eexists _, h', _, _, w'. split; [exact Hrun|].
  split; [apply (poll_loop_eq events h v)|].
  unfold host_poll_events, bind, poll_loop in *.
  rewrite poll_loop_without_quits.
  cbn [with_running poll_running poll_emu_config poll_host_config poll_video poll_core
       poll_calls].
  by rewrite Hset.
Qed.

(** X11.  The emulator configuration after a batch.  The configuration
    handed to [emulator_set_config] is the one read before the loop with
    each flag flipped once per key-down of its key ([1]-[4], [B], [W],
    [O]); key-ups flip nothing.  It is handed over after the hooks of the
    batch have run, also for an empty batch; before it come one
    [glViewport] per resize event and one hook call per [F6] or [F9]
    key-down whose hook is registered, in the order of the events.  Only
    the closing [host_set_config] follows it: that call runs on the host
    that holds the reconfigured core, with the host configuration the loop
    leaves, and from it come the host and the device [host_poll_events]
    returns. *)
Theorem poll_emulator_config events h v w :
  let c0 := emulator_get_config (hook_ctx_e h) in
  let c := mkEmuConfig (toggled (disable_sound1 c0) (key_downs SDL_SCANCODE_1 events))
                       (toggled (disable_sound2 c0) (key_downs SDL_SCANCODE_2 events))
                       (toggled (disable_sound3 c0) (key_downs SDL_SCANCODE_3 events))
                       (toggled (disable_sound4 c0) (key_downs SDL_SCANCODE_4 events))
                       (toggled (disable_bg c0) (key_downs SDL_SCANCODE_B events))
                       (toggled (disable_window c0) (key_downs SDL_SCANCODE_W events))
                       (toggled (disable_obj c0) (key_downs SDL_SCANCODE_O events)) in
  let e' := emulator_set_config (fold_left event_hooks events (hook_ctx_e h)) c in
  exists running h' v' w',
    host_poll_events SCREEN_WIDTH SCREEN_HEIGHT events h v w
      = Some (running, h', v',
              flat_map event_calls events ++ [PcEmulatorSetConfig c], w') /\
    hook_ctx_e h' = e' /\
    host_set_config (set_emulator h e')
      (poll_host_config (poll_loop SCREEN_WIDTH SCREEN_HEIGHT events h v)) w
      = Some (h', w').
Proof.
  cbv zeta.
  destruct (host_poll_events_eq events h v w) as (h' & w' & Hset & Hrun & _ & He & _).
  destruct (poll_loop_eq events h v) as (_ & Hcalls & Hcore & _).
  rewrite poll_loop_emu_config, Hcalls in Hrun. rewrite poll_loop_emu_config, Hcore in He.
  rewrite poll_loop_emu_config, Hcore in Hset.
  by eexists _, h', _, w'.
Qed.

Lemma sync_keys_fold events : forall b,
  fold_left sync_keys events b =
    match last (filter (fun ev => ev = SDL_KEYDOWN SDL_SCANCODE_TAB
                                  \/ ev = SDL_KEYUP SDL_SCANCODE_TAB) events) with
    | Some ev => bool_decide (ev = SDL_KEYDOWN SDL_SCANCODE_TAB)
    | None => b
    end.
Proof.
  induction events as [|ev events IH]; intros b; cbn [fold_left]; [reflexivity|].
  rewrite IH, filter_cons.
  destruct (decide (ev = SDL_KEYDOWN SDL_SCANCODE_TAB)) as [->|Hdown].
  - rewrite decide_True by (by left). rewrite last_cons. by destruct (last _).
  - destruct (decide (ev = SDL_KEYUP SDL_SCANCODE_TAB)) as [->|Hup].
    + rewrite decide_True by (by right). rewrite last_cons. by destruct (last _).
    + rewrite decide_False by (intros [?|?]; done).
      by destruct ev as [| |[]|[]| |].
Qed.

Lemma playback_keys_step events : forall p st,
  (fold_left playback_keys events (p, st)).2 =
    st || bool_decide (0 < key_downs SDL_SCANCODE_N events)%nat.
Proof.
  unfold key_downs.
  induction events as [|ev events IH]; intros p st; cbn [fold_left].
  - by rewrite orb_false_r.
  - rewrite filter_cons.
    destruct (decide (ev = SDL_KEYDOWN SDL_SCANCODE_N)) as [->|Hn].
    + cbn [playback_keys]. rewrite IH. cbn [length orb].
      rewrite bool_decide_eq_true_2 by lia. by rewrite orb_true_r.
    + assert (Hst : (playback_keys (p, st) ev).2 = st)
        by (by destruct ev as [| |[]|[]| |]).
      destruct (playback_keys (p, st) ev) as [p' st']. cbn [snd] in Hst. subst st'.
      apply IH.
Qed.

Lemma playback_keys_paused events : forall p st,
  key_downs SDL_SCANCODE_N events = 0%nat ->
  (fold_left playback_keys events (p, st)).1 =
    toggled p (key_downs SDL_SCANCODE_SPACE events).
Proof.
  unfold key_downs, toggled.
  induction events as [|ev events IH]; intros p st; cbn [fold_left].
  - intros _. by rewrite xorb_false_r.
  - rewrite !filter_cons.
    destruct (decide (ev = SDL_KEYDOWN SDL_SCANCODE_N)) as [->|Hn]; [discriminate|].
    intros Hnone.
    destruct (decide (ev = SDL_KEYDOWN SDL_SCANCODE_SPACE)) as [->|Hsp].
    + cbn [playback_keys fst snd]. rewrite IH by done. cbn [length].
      rewrite Nat.odd_succ, <- Nat.negb_odd. by destruct p, (Nat.odd _).
    + assert (Hp : playback_keys (p, st) ev = (p, st))
        by (by destruct ev as [| |[]|[]| |]).
      rewrite Hp. by apply IH.
Qed.

(** X12.  The host configuration after a batch.  [step] is set by a
    key-down of [N] and never cleared by polling; [fullscreen] flips once
    per key-up of [F11] (key-downs of [F11] do nothing); [no_sync] is
    whether the last [TAB] event of the batch was a key-down, and is
    unchanged without one; without a key-down of [N], [paused] flips once
    per key-down of [SPACE], and a key-down of [N] clears it, so after the
    last [N] only the [SPACE] key-downs that follow count. *)
Theorem poll_host_config_flags events h v w :
  exists running h' v' made w',
    host_poll_events SCREEN_WIDTH SCREEN_HEIGHT events h v w
      = Some (running, h', v', made, w') /\
    step (config h') =
      step (config h) || bool_decide (0 < key_downs SDL_SCANCODE_N events)%nat /\
    fullscreen (config h') =
      toggled (fullscreen (config h)) (key_ups SDL_SCANCODE_F11 events) /\
    no_sync (config h') =
      match last (filter (fun ev => ev = SDL_KEYDOWN SDL_SCANCODE_TAB
                                    \/ ev = SDL_KEYUP SDL_SCANCODE_TAB) events) with
      | Some ev => bool_decide (ev = SDL_KEYDOWN SDL_SCANCODE_TAB)
      | None => no_sync (config h)
      end /\
    (key_downs SDL_SCANCODE_N events = 0%nat ->
       paused (config h') =
         toggled (paused (config h)) (key_downs SDL_SCANCODE_SPACE events)) /\
    (forall before after,
       events = before ++ SDL_KEYDOWN SDL_SCANCODE_N :: after ->
       key_downs SDL_SCANCODE_N after = 0%nat ->
       paused (config h') = toggled false (key_downs SDL_SCANCODE_SPACE after)).
Proof.
  destruct (host_poll_events_eq events h v w) as (h' & w' & _ & Hrun & Hcfg & _).
  destruct (poll_loop_eq events h v) as (_ & _ & _ & _ & Hsync & Hplay & Hfull).
  unfold host_get_config in *.
  eexists _, h', _, _, w'. split; [exact Hrun|]. rewrite Hcfg.
  split; [|split; [exact Hfull|split; [|split]]].
  - rewrite <- playback_keys_step with (p := paused (config h)). by rewrite <- Hplay.
  - rewrite Hsync. apply sync_keys_fold.
  - intros Hn. rewrite <- (playback_keys_paused events _ (step (config h)) Hn).
    by rewrite <- Hplay.
  - intros before after -> Hn.
    apply (f_equal fst) in Hplay. cbn [fst] in Hplay. rewrite Hplay.
    rewrite fold_left_app. cbn [fold_left].
    destruct (fold_left playback_keys before _) as [p st]. cbn [playback_keys].
    by apply playback_keys_paused.
Qed.

Lemma sync_keys_no_tab events : forall b,
  key_downs SDL_SCANCODE_TAB events = 0%nat ->
  key_ups SDL_SCANCODE_TAB events = 0%nat ->
  fold_left sync_keys events b = b.
Proof.
  unfold key_downs, key_ups.
  induction events as [|ev events IH]; intros b; cbn [fold_left]; [done|].
  rewrite !filter_cons.
  destruct (decide (ev = SDL_KEYDOWN SDL_SCANCODE_TAB)) as [->|Hd]; [discriminate|].
  destruct (decide (ev = SDL_KEYUP SDL_SCANCODE_TAB)) as [->|Hu]; [discriminate|].
  intros Hdown Hup.
  assert (Hb : sync_keys b ev = b) by (by destruct ev as [| |[]|[]| |]).
  rewrite Hb. by apply IH.
Qed.

(** X13.  Only the net change of a batch resets the audio.  Without a
    key-down of [N] and without a [TAB] event, a batch in which [SPACE]
    goes down an even number of times leaves the pacer, the staging
    buffer and the device as they were, and calls neither
    [SDL_ClearQueuedAudio] nor [SDL_PauseAudioDevice]. *)
Theorem poll_even_pauses_keep_audio events h v w :
  key_downs SDL_SCANCODE_N events = 0%nat ->
  key_downs SDL_SCANCODE_TAB events = 0%nat ->
  key_ups SDL_SCANCODE_TAB events = 0%nat ->
  Nat.even (key_downs SDL_SCANCODE_SPACE events) = true ->
  exists running h' v' made w',
    host_poll_events SCREEN_WIDTH SCREEN_HEIGHT events h v w
      = Some (running, h', v', made, w') /\
    audio h' = audio h /\
    audio_queued w' = audio_queued w /\ audio_paused w' = audio_paused w /\
    paused (config h') = paused (config h) /\ no_sync (config h') = no_sync (config h) /\
    exists sdl_made,
      calls w' = calls w ++ sdl_made /\
      (EvClearQueuedAudio ∉ sdl_made) /\
      forall pause_on, EvPauseAudioDevice pause_on ∉ sdl_made.
Proof.
  intros Hn Htabd Htabu Heven.
  destruct (host_poll_events_eq events h v w) as (h' & w' & Hset & Hrun & Hcfg & _).
  destruct (poll_loop_eq events h v) as (_ & _ & _ & _ & Hsync & Hplay & _).
  unfold host_get_config in *.
  assert (Hp : paused (config h') = paused (config h)).
  { rewrite Hcfg. apply (f_equal fst) in Hplay. cbn [fst] in Hplay. rewrite Hplay.
    rewrite playback_keys_paused by done. unfold toggled.
    rewrite <- Nat.negb_even, Heven. by rewrite xorb_false_r. }
  assert (Hs : no_sync (config h') = no_sync (config h)).
  { rewrite Hcfg, Hsync. by apply sync_keys_no_tab. }
  eexists _, h', _, _, w'. split; [exact Hrun|].
  rewrite host_set_config_eq in Hset. cbn [config set_emulator audio hook_ctx_e] in Hset.
  rewrite <- Hcfg in Hset.
  rewrite (bool_decide_eq_false_2 (no_sync (config h) <> no_sync (config h'))) in Hset
    by (intros Hne; by apply Hne).
  rewrite (bool_decide_eq_false_2 (paused (config h) <> paused (config h'))) in Hset
    by (intros Hne; by apply Hne).
  cbn [orb app] in Hset. injection Hset as Hh Hw.
  split; [by rewrite <- Hh|].
  split; [by rewrite <- Hw|]. split; [by rewrite <- Hw|].
  split; [exact Hp|]. split; [exact Hs|].
  eexists. split; [rewrite <- Hw; reflexivity|].
  split; [|intros pause_on]; case_bool_decide; intros Hin; in_log Hin; discriminate.
Qed.

(** X14.  The geometry after a batch is that of its last resize event:
    it depends neither on the geometry before nor on the events that
    precede that resize, and key events do not touch it; a batch without
    a resize event leaves the vertices and the projection matrix alone. *)
Theorem poll_geometry events h v w :
  exists running h' v' made w',
    host_poll_events SCREEN_WIDTH SCREEN_HEIGHT events h v w
      = Some (running, h', v', made, w') /\
    (resizes events = [] -> v' = v) /\
    (forall before data1 data2 after,
       events = before ++ SDL_WINDOWEVENT_RESIZED data1 data2 :: after ->
       resizes after = [] ->
       v' = resize_video SCREEN_WIDTH SCREEN_HEIGHT
                         (f32_of_int data1) (f32_of_int data2)).
Proof.
  destruct (host_poll_events_eq events h v w) as (h' & w' & _ & Hrun & _).
  destruct (poll_loop_eq events h v) as (_ & _ & _ & Hvideo & _).
  eexists _, h', _, _, w'. split; [exact Hrun|]. rewrite Hvideo. unfold resized. split.
  - by intros ->.
  - intros before data1 data2 after -> Hafter. unfold resizes in *.
    rewrite omap_app. cbn [omap list_omap]. rewrite Hafter.
    by rewrite last_snoc.
Qed.

Lemma poll_event_ignored s ev :
  ignored ev = true -> poll_event SCREEN_WIDTH SCREEN_HEIGHT s ev = s.
Proof.
  destruct s as [r c hc v e cs].
  destruct ev as [| |[]|[]| |]; try discriminate; intros _; reflexivity.
Qed.

Lemma host_set_config_same h w : host_set_config h (config h) w = Some (h, w).
Proof.
  rewrite host_set_config_eq.
  rewrite (bool_decide_eq_false_2 (no_sync (config h) <> no_sync (config h))),
    (bool_decide_eq_false_2 (paused (config h) <> paused (config h))),
    (bool_decide_eq_false_2 (fullscreen (config h) <> fullscreen (config h)))
    by (intros Hne; by apply Hne).
  cbn [orb app]. rewrite app_nil_r. by destruct h, w.
Qed.

(** X15.  Events without effect.  A batch made only of window events
    other than a resize, events of other types, key-downs of [F11] or of
    keys without a binding, and key-ups of keys other than [TAB] and
    [F11], the empty batch in particular, returns [TRUE] and changes
    neither the host configuration, the audio, the geometry nor the
    device; its only call hands the core the configuration it already
    has. *)
Theorem poll_ignored_events events h v w :
  forallb ignored events = true ->
  let e := hook_ctx_e h in
  let c := emulator_get_config e in
  host_poll_events SCREEN_WIDTH SCREEN_HEIGHT events h v w =
    Some (true, set_emulator h (emulator_set_config e c), v, [PcEmulatorSetConfig c], w).
Proof.
  intros Hign. cbv zeta.
  assert (Hloop : forall s, fold_left (poll_event SCREEN_WIDTH SCREEN_HEIGHT) events s = s).
  { induction events as [|ev events IH]; intros s; [reflexivity|].
    cbn [forallb] in Hign. apply andb_true_iff in Hign as [Hev Hign].
    cbn [fold_left]. rewrite (poll_event_ignored s ev Hev). by apply IH. }
  unfold host_poll_events, bind, poll_loop. rewrite Hloop.
  cbn [poll_running poll_emu_config poll_host_config poll_video poll_core poll_calls].
  unfold host_get_config.
  change (config h) with (config (set_emulator h (emulator_set_config (hook_ctx_e h)
                                    (emulator_get_config (hook_ctx_e h))))) at 1.
  by rewrite host_set_config_same.
Qed.

End PollMore.

Section PollLaws.
Context {Emulator : Type} `{EmulatorCore Emulator} {Hlaws : EmulatorLaws Emulator}.
Context `{EmulatorConfigAccess Emulator} `{HostHooks Emulator}.
Variables SCREEN_WIDTH SCREEN_HEIGHT : Z.
Implicit Types (h : Host Emulator) (w : SDL) (v : HostVideo).

(** X16.  The step key.  After a batch that ends with a key-down of [N],
    whatever the host was doing (paused or running, a step pending or
    not), the host is unpaused with a step pending, and the next tick of a
    core that honours the contract runs the core up to its target and
    leaves the host paused with no step pending. *)
Theorem step_key_runs_one_tick fuel events h v w delta_ms dc :
  staging_ok h ->
  f64_to_u32 (delta_cycles_expr delta_ms) = Some dc ->
  (Z.to_nat (2 ^ 32) <= fuel)%nat ->
  exists running h1 v1 made w1 h2 w2,
    host_poll_events SCREEN_WIDTH SCREEN_HEIGHT
      (events ++ [SDL_KEYDOWN SDL_SCANCODE_N]) h v w
      = Some (running, h1, v1, made, w1) /\
    paused (config h1) = false /\ step (config h1) = true /\
    host_run_ms fuel h1 delta_ms w1 = Some (h2, w2) /\
    u32 (cycles h1 + dc) <= cycles h2 /\
    paused (config h2) = true /\ step (config h2) = false.
Proof.
  intros Hok Hdc Hfuel.
  destruct (host_poll_events_eq SCREEN_WIDTH SCREEN_HEIGHT
              (events ++ [SDL_KEYDOWN SDL_SCANCODE_N]) h v w)
    as (h1 & w1 & _ & Hrun & Hcfg & _ & _ & Hok1).
  destruct (poll_loop_eq SCREEN_WIDTH SCREEN_HEIGHT
              (events ++ [SDL_KEYDOWN SDL_SCANCODE_N]) h v)
    as (_ & _ & _ & _ & _ & Hplay & _).
  rewrite fold_left_app in Hplay. cbn [fold_left playback_keys] in Hplay.
  injection Hplay as Hp Hst. rewrite <- Hcfg in Hp, Hst.
  specialize (Hok1 Hok).
  assert (Htarget : tick_target h1 delta_ms = Some (dc, u32 (cycles h1 + dc)))
    by (unfold tick_target; rewrite Hdc; reflexivity).
  pose proof (cycles_u32 (hook_ctx_e h1)) as Hc. fold (cycles h1) in Hc.
  pose proof (u32_range (cycles h1 + dc)) as Hu. unfold is_u32 in Hc, Hu.
  destruct (host_run_ms_runs fuel h1 delta_ms w1 dc _ Hok1 Hp Htarget)
    as (h2 & w2 & Htick & _ & Hge & _ & Hcfg2 & _); [lia|].
  rewrite Hst in Hcfg2.
  eexists _, h1, _, _, w1, h2, w2. split; [exact Hrun|].
  split; [exact Hp|]. split; [exact Hst|]. split; [exact Htick|].
  split; [exact Hge|]. by rewrite Hcfg2.
Qed.

End PollLaws.

(** ** Geometry *)

Lemma f32_sub_diag s m e :
  f32_sub (S754_finite s m e) (S754_finite s m e) = S754_zero false.
Proof.
  unfold f32_sub, SFsub. cbv zeta. by rewrite Z.sub_diag.
Qed.

(** X17.  The constrained axis of a resize.  For finite window sizes the
    four vertices form an axis-parallel rectangle, and on the axis that
    limits the picture it spans the whole window exactly: when the window
    is narrower than the screen's aspect ratio the left edge is at [+0]
    and the right edge at [w]; otherwise the top edge is at [+0] and the
    bottom edge at [h]. *)
Theorem resize_fills_constrained_axis SCREEN_WIDTH SCREEN_HEIGHT sw mw ew sh mh eh :
  let w := S754_finite sw mw ew in
  let h := S754_finite sh mh eh in
  let want_aspect := f32_div (f32_of_int SCREEN_WIDTH) (f32_of_int SCREEN_HEIGHT) in
  exists v0 v1 v2 v3,
    vertices (resize_video SCREEN_WIDTH SCREEN_HEIGHT w h) = [v0; v1; v2; v3] /\
    pos_x v0 = pos_x v1 /\ pos_x v2 = pos_x v3 /\
    pos_y v0 = pos_y v2 /\ pos_y v1 = pos_y v3 /\
    if f32_lt (f32_div w h) want_aspect
    then pos_x v0 = S754_zero false /\ pos_x v2 = w
    else pos_y v0 = S754_zero false /\ pos_y v1 = h.
Proof.
  cbv zeta. unfold resize_video. cbv zeta. eexists _, _, _, _.
  split; [reflexivity|]. cbn [pos_x pos_y].
  do 4 (split; [reflexivity|]).
  destruct (f32_lt _ _); by rewrite f32_sub_diag.
Qed.

(** ** The aspect ratio of the quad

    Every binary32 operation of the resize returns a valid finite number
    within [f32_u] of the exact result, relatively, or within [f32_eta];
    the borders and the extent of the quad follow from the errors of the
    five operations that produce them. *)

Section RoundingValid.
Variables prec emax : Z.
Hypothesis Hprec : 0 < prec.
Hypothesis Hemax : 2 <= emax.

(** A mantissa of exactly [prec] bits, or any shorter one at the least
    exponent, is canonical. *)
Lemma canonical_mantissa_intro m e :
  Z.pos m < 2 ^ prec -> emin prec emax <= e ->
  e = emin prec emax \/ 2 ^ (prec - 1) <= Z.pos m ->
  canonical_mantissa prec emax m e = true.
Proof.
  intros Hm He Hc. unfold canonical_mantissa. apply Z.eqb_eq. unfold fexp.
  pose proof (Zdigits2_le (Z.pos m) prec ltac:(lia) ltac:(lia)) as Hd. cbn [Zdigits2] in Hd.
  destruct Hc as [->|Hlo]; [lia|].
  pose proof (Zdigits2_ge (Z.pos m) (prec - 1) Hlo ltac:(lia)) as Hd'. cbn [Zdigits2] in Hd'.
  lia.
Qed.

(** [binary_round_aux] on a positive mantissa whose exponent is not above
    the one its magnitude calls for, and whose magnitude is below
    [2^emax]: the result is a zero or a valid finite number, of magnitude
    [M * 2^E] with [M] the mantissa cut at [E] or one more. *)
Lemma binary_round_aux_valid s q e l :
  0 < q -> e <= fexp prec emax (Zdigits2 q + e) -> Zdigits2 q + e < emax ->
  let E := fexp prec emax (Zdigits2 q + e) in
  exists M,
    (M = q / 2 ^ (E - e) \/
     M = q / 2 ^ (E - e) + 1 /\ (E = e -> l <> loc_Exact)) /\
    match binary_round_aux prec emax s q e l with
    | S754_zero s' => s' = s /\ M = 0
    | S754_finite s' m e' =>
        s' = s /\ E <= e' /\ Z.pos m * 2 ^ (e' - E) = M /\
        valid_binary prec emax (S754_finite s' m e') = true
    | _ => False
    end.
Proof.
  intros Hq He Hmax E.
  destruct (binary_round_aux_spec prec emax Hprec s q e l ltac:(lia)) as (M & HM & Hround).
  cbv zeta in HM, Hround. fold E in HM, Hround.
  replace (Z.max 0 (E - e)) with (E - e) in HM, Hround by lia.
  replace (e + (E - e)) with E in Hround by lia.
  assert (HE : emin prec emax <= E) by (subst E; unfold fexp; lia).
  assert (HEmax : E < emax - prec) by (subst E; unfold fexp, emin; lia).
  exists M. split.
  { destruct HM as [HM|[HM Hc]]; [by left|right]. split; [exact HM|].
    intros HEe ->. destruct Hc as [[_ [?|?]]|[? _]]; try discriminate. lia. }
  destruct (binary_round_aux _ _ _ _ _ _) as [sr|sr| |sr mr er]; cbn [rounded_to] in Hround.
  - exact Hround.
  - lia.
  - done.
  - destruct Hround as (-> & Her & Hval & Hmr & Hrange & Hcarry).
    split; [done|]. split; [lia|]. split; [exact Hval|].
    cbn [valid_binary]. unfold bounded. apply andb_true_iff. split; [|apply Z.leb_le; lia].
    apply canonical_mantissa_intro; [exact Hmr|lia|].
    destruct (Z.eq_dec er (E + 1)) as [Hc|Hc].
    + right. specialize (Hcarry Hc). rewrite Hc in Hval.
      replace (E + 1 - E) with 1 in Hval by lia. change (2 ^ 1) with 2 in Hval.
      assert (2 ^ prec = 2 * 2 ^ (prec - 1)).
      { replace prec with (Z.succ (prec - 1)) at 1 by lia. by rewrite Z.pow_succ_r by lia. }
      lia.
    + assert (er = E) by lia. subst er. rewrite Z.sub_diag in Hval.
      change (2 ^ 0) with 1 in Hval.
      destruct (Z.eq_dec E (emin prec emax)) as [|Hnorm]; [by left|right].
      assert (HEd : E = Zdigits2 q + e - prec) by (subst E; unfold fexp in *; lia).
      destruct (Zdigits2_bounds q Hq) as [Hlo _].
      assert (Hn : 0 <= E - e) by lia.
      assert (H2n : 0 < 2 ^ (E - e)) by (apply Z.pow_pos_nonneg; lia).
      assert (Hdiv : 2 ^ (prec - 1) <= q / 2 ^ (E - e)).
      { apply Z.div_le_lower_bound; [lia|]. rewrite <- Z.pow_add_r by lia.
        replace (E - e + (prec - 1)) with (Zdigits2 q - 1) by lia. exact Hlo. }
      lia.
Qed.

End RoundingValid.

Lemma pow2_gt_0 e : (0 < pow2 e)%Q.
Proof. apply Qpower_0_lt. reflexivity. Qed.

Lemma pow2_add a b : (pow2 (a + b) == pow2 a * pow2 b)%Q.
Proof. apply Qpower_plus. discriminate. Qed.

Lemma pow2_Z n : 0 <= n -> (pow2 n == inject_Z (2 ^ n))%Q.
Proof. intros Hn. unfold pow2. by rewrite Zpower_Qpower. Qed.

Lemma pow2_le a b : a <= b -> (pow2 a <= pow2 b)%Q.
Proof. intros Hab. apply Qpower_le_compat_l; [exact Hab|discriminate]. Qed.

Lemma pow2_lt_inv a b : (pow2 a < pow2 b)%Q -> a < b.
Proof. intros Hab. apply (Qpower_lt_compat_l_inv (2 # 1)); [exact Hab|reflexivity]. Qed.

(** [a * 2^n * 2^e] is [a * 2^(e + n)]. *)
Lemma pow2_shift a n e :
  0 <= n -> (inject_Z (a * 2 ^ n) * pow2 e == inject_Z a * pow2 (e + n))%Q.
Proof.
  intros Hn. rewrite inject_Z_mult, pow2_add, <- (pow2_Z n Hn). ring.
Qed.

Lemma pow2_split e n :
  0 <= n -> (pow2 (e + n) == inject_Z (2 ^ n) * pow2 e)%Q.
Proof. intros Hn. rewrite pow2_add, (pow2_Z n Hn). ring. Qed.

Lemma f64_value_finite s m e :
  (f64_value (S754_finite s m e) == inject_Z (cond_Zopp s (Z.pos m)) * pow2 e)%Q.
Proof.
  unfold f64_value. destruct (Z.leb_spec 0 e) as [He|He].
  - rewrite inject_Z_mult, <- (pow2_Z e He). reflexivity.
  - rewrite Qmake_Qdiv. unfold Qdiv. apply Qmult_comp; [reflexivity|].
    rewrite Pos2Z.inj_pow, Z2Pos.id by lia.
    rewrite <- (pow2_Z (- e)) by lia. unfold pow2.
    rewrite <- Qpower_opp. by rewrite Z.opp_involutive.
Qed.

Lemma inject_Z_cond_Zopp s z :
  (inject_Z (cond_Zopp s z) == (if s then - inject_Z z else inject_Z z))%Q.
Proof. destruct s; cbn [cond_Zopp]; [|reflexivity]. by rewrite inject_Z_opp. Qed.

(** The error of one rounding: for a true magnitude [t] between the
    mantissa [q] and its successor at exponent [e], [binary_round_aux]
    returns, unless [t] reaches [2^127], a valid finite number within
    [2^-23 * t + 2^-149] of [t]. *)
Lemma f32_round_err s q e l t :
  0 < q -> e <= fexp 24 128 (Zdigits2 q + e) ->
  (inject_Z q * pow2 e <= t)%Q -> (t < inject_Z (q + 1) * pow2 e)%Q ->
  (t < pow2 127)%Q ->
  let x := binary_round_aux 24 128 s q e l in
  f32_ok x /\
  exists R, (f32_value x == (if s then - R else R) /\ 0 <= R /\
             Qabs (R - t) <= f32_u * t + f32_eta)%Q.
Proof.
  intros Hq He Hlo Hhi Hmax x.
  pose proof (pow2_gt_0 e) as Hpe.
  destruct (Zdigits2_bounds q Hq) as [Hdlo _].
  set (d := Zdigits2 q) in *.
  pose proof (Zdigits2_pos q Hq) as Hd. fold d in Hd.
  assert (Hdq : (pow2 (d - 1 + e) <= t)%Q).
  { eapply Qle_trans; [|exact Hlo]. replace (d - 1 + e) with (e + (d - 1)) by lia.
    rewrite pow2_split by lia. apply Qmult_le_compat_r; [|lra].
    rewrite <- Zle_Qle. exact Hdlo. }
  assert (Hde : d + e < 128).
  { assert (d - 1 + e < 127); [|lia]. apply pow2_lt_inv. lra. }
  destruct (binary_round_aux_valid 24 128 ltac:(lia) ltac:(lia) s q e l Hq He Hde)
    as (M & HM & Hres).
  cbv zeta in HM, Hres. fold x in Hres. fold d in HM, Hres.
  set (E := fexp 24 128 (d + e)) in *.
  set (n := E - e) in *.
  assert (Hn : 0 <= n) by (subst n; lia).
  assert (H2n : 0 < 2 ^ n) by (apply Z.pow_pos_nonneg; lia).
  set (M0 := q / 2 ^ n) in *.
  assert (HM0 : 2 ^ n * M0 <= q < 2 ^ n * (M0 + 1)).
  { subst M0. split; [apply Z.mul_div_le; lia|].
    replace (q / 2 ^ n + 1) with (Z.succ (q / 2 ^ n)) by lia.
    apply Z.mul_succ_div_gt. lia. }
  assert (HM0nn : 0 <= M0) by (subst M0; apply Z.div_pos; lia).
  assert (HEn : E = e + n) by (subst n; lia).
  pose proof (pow2_gt_0 E) as HpE.
  (* the true magnitude lies between M0 and M0 + 1 at exponent E *)
  assert (Hbelow : (inject_Z M0 * pow2 E <= t)%Q).
  { eapply Qle_trans; [|exact Hlo]. rewrite HEn, <- pow2_shift by lia.
    apply Qmult_le_compat_r; [|lra]. rewrite <- Zle_Qle. lia. }
  assert (Habove : (t < inject_Z (M0 + 1) * pow2 E)%Q).
  { eapply Qlt_le_trans; [exact Hhi|]. rewrite HEn, <- pow2_shift by lia.
    apply Qmult_le_compat_r; [|lra]. rewrite <- Zle_Qle. lia. }
  rewrite inject_Z_plus in Habove. change (inject_Z 1) with 1%Q in Habove.
  (* one unit at exponent E is within the error bound *)
  assert (Hulp : (pow2 E <= f32_u * t + f32_eta)%Q).
  { assert (Ht : (0 <= t)%Q) by (pose proof (pow2_gt_0 (d - 1 + e)); lra).
    subst E. unfold fexp, emin.
    destruct (Z.max_spec (d + e - 24) (3 - 128 - 24)) as [[_ ->]|[_ ->]].
    - change (pow2 (3 - 128 - 24)) with f32_eta.
      assert (0 <= f32_u * t)%Q; [|lra]. apply Qmult_le_0_compat; [done|exact Ht].
    - replace (d + e - 24) with (-23 + (d - 1 + e)) by lia. rewrite pow2_add.
      change (pow2 (-23)) with f32_u.
      assert (f32_u * pow2 (d - 1 + e) <= f32_u * t)%Q.
      { apply Qmult_le_l; [reflexivity|exact Hdq]. }
      assert (0 < f32_eta)%Q by apply pow2_gt_0. lra. }
  assert (HR : (Qabs (inject_Z M * pow2 E - t) <= f32_u * t + f32_eta)%Q).
  { apply Qabs_Qle_condition.
    destruct HM as [->|[-> _]]; rewrite ?inject_Z_plus; change (inject_Z 1) with 1%Q;
      split; lra. }
  assert (HMnn : 0 <= M) by (destruct HM as [->|[-> _]]; lia).
  destruct x as [sr|sr| |sr mr er]; try done.
  - destruct Hres as [-> ->]. split; [done|].
    exists 0%Q. split; [by destruct s|]. split; [lra|].
    change (inject_Z 0) with 0%Q in HR.
    assert (Heq : (0 - t == 0 * pow2 E - t)%Q) by ring. by rewrite Heq.
  - destruct Hres as (-> & Her & Hval & Hvalid). split; [done|].
    exists (inject_Z M * pow2 E)%Q. split; [|split; [|exact HR]].
    + unfold f32_value. rewrite f64_value_finite, inject_Z_cond_Zopp.
      assert (Hm : (inject_Z (Z.pos mr) * pow2 er == inject_Z M * pow2 E)%Q).
      { rewrite <- Hval. replace er with (E + (er - E)) at 1 by lia.
        by rewrite pow2_shift by lia. }
      destruct s; rewrite <- Hm; ring.
    + apply Qmult_le_0_compat; [|lra]. change 0%Q with (inject_Z 0).
      rewrite <- Zle_Qle. exact HMnn.
Qed.

Lemma f32_value_zero s : f32_value (S754_zero s) = 0%Q.
Proof. reflexivity. Qed.

Lemma f32_value_finite s m e :
  (f32_value (S754_finite s m e) == inject_Z (cond_Zopp s (Z.pos m)) * pow2 e)%Q.
Proof. apply f64_value_finite. Qed.

Lemma f32_eta_pos : (0 < f32_eta)%Q.
Proof. apply pow2_gt_0. Qed.

Lemma f32_err_nonneg t : (0 <= f32_u * Qabs t + f32_eta)%Q.
Proof.
  pose proof (Qabs_nonneg t). pose proof f32_eta_pos.
  assert (0 <= f32_u * Qabs t)%Q by (apply Qmult_le_0_compat; [done|lra]). lra.
Qed.

(** What validity says about a mantissa and its exponent. *)
Lemma valid_binary_inv s m e :
  valid_binary 24 128 (S754_finite s m e) = true ->
  let d := Z.pos (digits2_pos m) in
  -149 <= e <= 104 /\ d <= 24 /\ (e = -149 \/ d = 24).
Proof.
  cbn [valid_binary]. unfold bounded, canonical_mantissa, fexp, emin.
  intros [Hc He]%andb_true_iff. apply Z.eqb_eq in Hc. apply Z.leb_le in He.
  cbv zeta. lia.
Qed.

(** The magnitude of a finite number and the number of bits of its
    mantissa. *)
Lemma magnitude_bounds m e :
  let d := Z.pos (digits2_pos m) in
  (pow2 (d - 1 + e) <= inject_Z (Z.pos m) * pow2 e < pow2 (d + e))%Q.
Proof.
  cbv zeta. destruct (digits2_pos_bounds m) as [Hlo Hhi].
  pose proof (pow2_gt_0 e).
  replace (Z.pos (digits2_pos m) - 1 + e) with (e + (Z.pos (digits2_pos m) - 1)) by lia.
  replace (Z.pos (digits2_pos m) + e) with (e + Z.pos (digits2_pos m)) by lia.
  rewrite !pow2_split by lia. split.
  - apply Qmult_le_compat_r; [|lra]. by rewrite <- Zle_Qle.
  - apply Qmult_lt_compat_r; [done|]. by rewrite <- Zlt_Qlt.
Qed.

(** Rounding the exact magnitude [q * 2^e]. *)
Lemma f32_round_exact_err s q e :
  0 < q -> e <= fexp 24 128 (Zdigits2 q + e) ->
  (inject_Z q * pow2 e < pow2 127)%Q ->
  let x := binary_round_aux 24 128 s q e loc_Exact in
  let v := (inject_Z (cond_Zopp s q) * pow2 e)%Q in
  f32_ok x /\ (Qabs (f32_value x - v) <= f32_u * Qabs v + f32_eta)%Q.
Proof.
  intros Hq He Hmax x v.
  pose proof (pow2_gt_0 e) as Hpe.
  assert (Hq0 : (0 < inject_Z q)%Q) by (change 0%Q with (inject_Z 0); by rewrite <- Zlt_Qlt).
  assert (Ht : (0 < inject_Z q * pow2 e)%Q) by (by apply Qmult_lt_0_compat).
  destruct (f32_round_err s q e loc_Exact (inject_Z q * pow2 e) Hq He) as [Hok (R & HR & HR0 & Herr)].
  - lra.
  - rewrite inject_Z_plus. change (inject_Z 1) with 1%Q. lra.
  - exact Hmax.
  - fold x in Hok, HR. split; [exact Hok|]. subst v.
    rewrite HR, inject_Z_cond_Zopp. destruct s.
    + assert (Heq : (- R - - inject_Z q * pow2 e == - (R - inject_Z q * pow2 e))%Q) by ring.
      rewrite Heq, Qabs_opp.
      assert (Heq2 : (- inject_Z q * pow2 e == - (inject_Z q * pow2 e))%Q) by ring.
      rewrite Heq2, Qabs_opp, (Qabs_pos (inject_Z q * pow2 e)) by lra. exact Herr.
    + rewrite (Qabs_pos (inject_Z q * pow2 e)) by lra. exact Herr.
Qed.

(** *** Multiplication *)

Lemma f32_mul_err x y :
  f32_ok x -> f32_ok y ->
  (Qabs (f32_value x * f32_value y) < pow2 127)%Q ->
  f32_ok (f32_mul x y) /\
  (Qabs (f32_value (f32_mul x y) - f32_value x * f32_value y)
   <= f32_u * Qabs (f32_value x * f32_value y) + f32_eta)%Q.
Proof.
  intros [Hfx Hvx] [Hfy Hvy] Hmax.
  assert (Hzero : forall a b : Q, (a == 0 \/ b == 0 ->
    Qabs (0 - a * b) <= f32_u * Qabs (a * b) + f32_eta)%Q).
  { intros a b Hab. assert (Hp : (a * b == 0)%Q) by (destruct Hab as [->| ->]; ring).
    rewrite Hp. pose proof (f32_err_nonneg 0). change (Qabs (0 - 0)) with 0%Q. done. }
  destruct x as [sx|sx| |sx mx ex], y as [sy|sy| |sy my ey]; try discriminate;
    cbn [f32_mul SFmul].
  - split; [done|]. rewrite !f32_value_zero. apply Hzero. by left.
  - split; [done|]. rewrite !f32_value_zero. apply Hzero. by left.
  - split; [done|]. rewrite !f32_value_zero. apply Hzero. by right.
  - unfold f32_mul, SFmul.
    destruct (valid_binary_inv _ _ _ Hvx) as (Hex & Hdx & Hcx).
    destruct (valid_binary_inv _ _ _ Hvy) as (Hey & Hdy & Hcy).
    cbv zeta in Hdx, Hcx, Hdy, Hcy.
    destruct (digits2_pos_bounds mx) as [Hxlo _].
    destruct (digits2_pos_bounds my) as [Hylo _].
    set (dx := Z.pos (digits2_pos mx)) in *. set (dy := Z.pos (digits2_pos my)) in *.
    assert (Hd : dx + dy - 1 <= Zdigits2 (Z.pos (mx * my))).
    { assert (dx + dy - 2 < Zdigits2 (Z.pos (mx * my))); [|lia].
      apply Zdigits2_ge; [|lia]. rewrite Pos2Z.inj_mul.
      replace (dx + dy - 2) with ((dx - 1) + (dy - 1)) by lia.
      rewrite Z.pow_add_r by lia. apply Z.mul_le_mono_nonneg; try lia.
      all: apply Z.pow_nonneg; lia. }
    assert (Hv : (f32_value (S754_finite sx mx ex) * f32_value (S754_finite sy my ey)
                  == inject_Z (cond_Zopp (xorb sx sy) (Z.pos (mx * my))) * pow2 (ex + ey))%Q).
    { rewrite !f32_value_finite, !inject_Z_cond_Zopp, pow2_add, Pos2Z.inj_mul, inject_Z_mult.
      destruct sx, sy; cbn [xorb]; ring. }
    rewrite Hv in Hmax |- *.
    assert (Hmag : (inject_Z (Z.pos (mx * my)) * pow2 (ex + ey) < pow2 127)%Q).
    { pose proof (pow2_gt_0 (ex + ey)).
      rewrite inject_Z_cond_Zopp in Hmax.
      assert (0 <= inject_Z (Z.pos (mx * my)) * pow2 (ex + ey))%Q
        by (apply Qmult_le_0_compat; [done|lra]).
      destruct (xorb sx sy).
      - assert (Heq : (- inject_Z (Z.pos (mx * my)) * pow2 (ex + ey)
                       == - (inject_Z (Z.pos (mx * my)) * pow2 (ex + ey)))%Q) by ring.
        rewrite Heq, Qabs_opp, Qabs_pos in Hmax by done. exact Hmax.
      - rewrite Qabs_pos in Hmax by done. exact Hmax. }
    apply f32_round_exact_err; [lia| |exact Hmag].
    unfold fexp, emin. lia.
Qed.

(** *** Alignment *)

Lemma iter_xO_spec d : forall m, Z.pos (Pos.iter xO m d) = Z.pos m * 2 ^ Z.pos d.
Proof.
  induction d as [|d IH] using Pos.peano_ind; intros m.
  - cbn [Pos.iter]. lia.
  - rewrite Pos.iter_succ, Pos2Z.inj_succ, Z.pow_succ_r by lia.
    rewrite Pos2Z.inj_xO, IH. lia.
Qed.

Lemma shl_align_spec m e e' :
  snd (shl_align m e e') = Z.min e e' /\
  Z.pos (fst (shl_align m e e')) = Z.pos m * 2 ^ (e - Z.min e e').
Proof.
  unfold shl_align. destruct (e' - e) as [|d|d] eqn:Hd; cbn [fst snd].
  - replace (Z.min e e') with e by lia. rewrite Z.sub_diag. lia.
  - replace (Z.min e e') with e by lia. rewrite Z.sub_diag. lia.
  - replace (Z.min e e') with e' by lia. split; [reflexivity|].
    rewrite iter_xO_spec. do 2 f_equal. lia.
Qed.

Lemma Zdigits2_shift q k : 0 < q -> 0 <= k -> Zdigits2 (q * 2 ^ k) = Zdigits2 q + k.
Proof.
  intros Hq Hk. destruct (Zdigits2_bounds q Hq) as [Hlo Hhi].
  pose proof (Zdigits2_pos q Hq) as Hd.
  assert (H2k : 0 < 2 ^ k) by (apply Z.pow_pos_nonneg; lia).
  assert (2 ^ (Zdigits2 q + k - 1) <= q * 2 ^ k).
  { replace (Zdigits2 q + k - 1) with (Zdigits2 q - 1 + k) by lia.
    rewrite Z.pow_add_r by lia. apply Z.mul_le_mono_nonneg_r; lia. }
  assert (q * 2 ^ k < 2 ^ (Zdigits2 q + k)).
  { rewrite Z.pow_add_r by lia. apply Z.mul_lt_mono_pos_r; lia. }
  pose proof (Zdigits2_ge (q * 2 ^ k) (Zdigits2 q + k - 1) ltac:(lia) ltac:(lia)).
  pose proof (Zdigits2_le (q * 2 ^ k) (Zdigits2 q + k) ltac:(lia) ltac:(lia)).
  lia.
Qed.

(** *** Rounding an integer multiple of a power of two *)

Lemma f32_binary_round_err s p e :
  (inject_Z (Z.pos p) * pow2 e < pow2 127)%Q ->
  let x := binary_round 24 128 s p e in
  let v := (inject_Z (cond_Zopp s (Z.pos p)) * pow2 e)%Q in
  f32_ok x /\ (Qabs (f32_value x - v) <= f32_u * Qabs v + f32_eta)%Q.
Proof.
  intros Hmax. cbv zeta. unfold binary_round.
  destruct (shl_align_spec p e (fexp 24 128 (Z.pos (digits2_pos p) + e))) as [He Hm].
  destruct (shl_align _ _ _) as [mz ez]. cbn [fst snd] in He, Hm.
  set (E := fexp 24 128 (Z.pos (digits2_pos p) + e)) in *.
  assert (Hk : 0 <= e - ez) by lia.
  assert (Hd : Zdigits2 (Z.pos mz) + ez = Z.pos (digits2_pos p) + e).
  { rewrite Hm, He, Zdigits2_shift by lia. cbn [Zdigits2]. lia. }
  assert (Hv : forall a : Z, (inject_Z (a * 2 ^ (e - ez)) * pow2 ez == inject_Z a * pow2 e)%Q).
  { intros a. rewrite pow2_shift by lia. by replace (ez + (e - ez)) with e by lia. }
  assert (Hval : (inject_Z (cond_Zopp s (Z.pos p)) * pow2 e
                  == inject_Z (cond_Zopp s (Z.pos mz)) * pow2 ez)%Q).
  { rewrite Hm, He. fold E. rewrite <- He.
    destruct s; cbn [cond_Zopp]; [|by rewrite Hv].
    rewrite <- Z.mul_opp_l. by rewrite Hv. }
  rewrite Hval.
  apply f32_round_exact_err; [lia| |].
  - rewrite Hd. fold E. lia.
  - rewrite Hm, He. fold E. rewrite <- He, Hv. exact Hmax.
Qed.

Lemma f32_normalize_err z e :
  (Qabs (inject_Z z * pow2 e) < pow2 127)%Q ->
  let x := binary_normalize 24 128 z e false in
  let v := (inject_Z z * pow2 e)%Q in
  f32_ok x /\ (Qabs (f32_value x - v) <= f32_u * Qabs v + f32_eta)%Q.
Proof.
  intros Hmax. cbv zeta. pose proof (pow2_gt_0 e) as Hpe.
  destruct z as [|p|p]; cbn [binary_normalize].
  - split; [done|]. rewrite f32_value_zero.
    assert (Heq : (0 - inject_Z 0 * pow2 e == 0)%Q) by (change (inject_Z 0) with 0%Q; ring).
    rewrite Heq. apply (f32_err_nonneg (inject_Z 0 * pow2 e)).
  - apply (f32_binary_round_err false p e).
    assert (0 <= inject_Z (Z.pos p) * pow2 e)%Q by (apply Qmult_le_0_compat; [done|lra]).
    by rewrite Qabs_pos in Hmax.
  - apply (f32_binary_round_err true p e).
    assert (0 <= inject_Z (Z.pos p) * pow2 e)%Q by (apply Qmult_le_0_compat; [done|lra]).
    assert (Heq : (inject_Z (Z.neg p) * pow2 e == - (inject_Z (Z.pos p) * pow2 e))%Q).
    { change (Z.neg p) with (- Z.pos p). rewrite inject_Z_opp. ring. }
    by rewrite Heq, Qabs_opp, Qabs_pos in Hmax.
Qed.

(** The two operands of a sum, brought to the smaller exponent. *)
Lemma aligned_value s m e ez :
  ez <= e ->
  (inject_Z (cond_Zopp s (Z.pos (fst (shl_align m e ez)))) * pow2 ez
   == f32_value (S754_finite s m e))%Q.
Proof.
  intros Hez. destruct (shl_align_spec m e ez) as [_ Hm].
  rewrite Hm, f32_value_finite. replace (Z.min e ez) with ez by lia.
  assert (Hv : forall a : Z, (inject_Z (a * 2 ^ (e - ez)) * pow2 ez == inject_Z a * pow2 e)%Q).
  { intros a. rewrite pow2_shift by lia. by replace (ez + (e - ez)) with e by lia. }
  destruct s; cbn [cond_Zopp]; [|by rewrite Hv].
  rewrite <- Z.mul_opp_l. by rewrite Hv.
Qed.

(** *** Addition and subtraction *)

Lemma f32_exact_err (a b : Q) : (a == b -> Qabs (a - b) <= f32_u * Qabs b + f32_eta)%Q.
Proof.
  intros Hab. assert (Heq : (a - b == 0)%Q) by (rewrite Hab; ring).
  rewrite Heq. apply f32_err_nonneg.
Qed.

Lemma f32_add_err x y :
  f32_ok x -> f32_ok y ->
  (Qabs (f32_value x + f32_value y) < pow2 127)%Q ->
  f32_ok (f32_add x y) /\
  (Qabs (f32_value (f32_add x y) - (f32_value x + f32_value y))
   <= f32_u * Qabs (f32_value x + f32_value y) + f32_eta)%Q.
Proof.
  intros [Hfx Hvx] [Hfy Hvy] Hmax.
  destruct x as [sx|sx| |sx mx ex], y as [sy|sy| |sy my ey]; try discriminate.
  - split; [by destruct sx, sy|]. apply f32_exact_err.
    destruct sx, sy; cbn [f32_add SFadd]; rewrite !f32_value_zero; ring.
  - split; [done|]. apply f32_exact_err. cbn [f32_add SFadd]. rewrite f32_value_zero. ring.
  - split; [done|]. apply f32_exact_err. cbn [f32_add SFadd]. rewrite f32_value_zero. ring.
  - unfold f32_add, SFadd. cbv zeta.
    set (ez := Z.min ex ey).
    set (z := cond_Zopp sx (Z.pos (fst (shl_align mx ex ez)))
              + cond_Zopp sy (Z.pos (fst (shl_align my ey ez)))).
    assert (Hv : (inject_Z z * pow2 ez
                  == f32_value (S754_finite sx mx ex) + f32_value (S754_finite sy my ey))%Q).
    { subst z. rewrite inject_Z_plus, Qmult_plus_distr_l.
      rewrite !aligned_value by (subst ez; lia). reflexivity. }
    rewrite <- Hv in Hmax |- *. by apply f32_normalize_err.
Qed.

Lemma f32_sub_err x y :
  f32_ok x -> f32_ok y ->
  (Qabs (f32_value x - f32_value y) < pow2 127)%Q ->
  f32_ok (f32_sub x y) /\
  (Qabs (f32_value (f32_sub x y) - (f32_value x - f32_value y))
   <= f32_u * Qabs (f32_value x - f32_value y) + f32_eta)%Q.
Proof.
  intros [Hfx Hvx] [Hfy Hvy] Hmax.
  destruct x as [sx|sx| |sx mx ex], y as [sy|sy| |sy my ey]; try discriminate.
  - split; [by destruct sx, sy|]. apply f32_exact_err.
    destruct sx, sy; cbn [f32_sub SFsub]; rewrite !f32_value_zero; ring.
  - split; [done|]. apply f32_exact_err. cbn [f32_sub SFsub].
    rewrite f32_value_zero, !f32_value_finite, !inject_Z_cond_Zopp.
    destruct sy; cbn [negb]; ring.
  - split; [done|]. apply f32_exact_err. cbn [f32_sub SFsub]. rewrite f32_value_zero. ring.
  - unfold f32_sub, SFsub. cbv zeta.
    set (ez := Z.min ex ey).
    set (z := cond_Zopp sx (Z.pos (fst (shl_align mx ex ez)))
              - cond_Zopp sy (Z.pos (fst (shl_align my ey ez)))).
    assert (Hv : (inject_Z z * pow2 ez
                  == f32_value (S754_finite sx mx ex) - f32_value (S754_finite sy my ey))%Q).
    { subst z. unfold Z.sub. rewrite inject_Z_plus, inject_Z_opp.
      assert (Hd : forall a b c : Q, ((a + - b) * c == a * c - b * c)%Q) by (intros; ring).
      rewrite Hd. rewrite !aligned_value by (subst ez; lia). reflexivity. }
    rewrite <- Hv in Hmax |- *. by apply f32_normalize_err.
Qed.

(** *** Conversion of an integer *)

Lemma f32_of_int_exact z :
  0 < z < 2 ^ 24 ->
  f32_ok (f32_of_int z) /\ (f32_value (f32_of_int z) == inject_Z z)%Q.
Proof.
  intros [Hz0 Hz]. destruct z as [|p|p]; try lia.
  unfold f32_of_int. cbn [binary_normalize]. unfold binary_round.
  destruct (shl_align_spec p 0 (fexp 24 128 (Z.pos (digits2_pos p) + 0))) as [He Hm].
  destruct (shl_align _ _ _) as [mz ez]. cbn [fst snd] in He, Hm.
  pose proof (Zdigits2_le (Z.pos p) 24 ltac:(lia) ltac:(lia)) as Hd. cbn [Zdigits2] in Hd.
  pose proof (Zdigits2_pos (Z.pos p) ltac:(lia)) as Hd0. cbn [Zdigits2] in Hd0.
  set (d := Z.pos (digits2_pos p)) in *.
  assert (Hez : ez = d - 24) by (unfold fexp, emin in He; lia).
  assert (Hmz : Z.pos mz = Z.pos p * 2 ^ (24 - d)).
  { rewrite Hm. do 2 f_equal. unfold fexp, emin. lia. }
  assert (Hdz : Zdigits2 (Z.pos mz) = 24).
  { rewrite Hmz, Zdigits2_shift by lia. cbn [Zdigits2]. fold d. lia. }
  assert (HE : fexp 24 128 (Zdigits2 (Z.pos mz) + ez) = ez)
    by (rewrite Hdz; unfold fexp, emin; lia).
  destruct (binary_round_aux_valid 24 128 ltac:(lia) ltac:(lia) false (Z.pos mz) ez loc_Exact)
    as (M & HM & Hres); [lia|lia|lia|].
  cbv zeta in HM, Hres. rewrite HE in HM, Hres. rewrite Z.sub_diag in HM.
  change (2 ^ 0) with 1 in HM. rewrite Z.div_1_r in HM.
  assert (M = Z.pos mz) by (destruct HM as [->|[_ Hc]]; [done|by destruct Hc]).
  subst M.
  destruct (binary_round_aux _ _ _ _ _ _) as [sr|sr| |sr mr er]; try done.
  - destruct Hres as [_ ?]. lia.
  - destruct Hres as (-> & Her & Hval & Hvalid). split; [done|].
    rewrite f32_value_finite. cbn [cond_Zopp].
    replace er with (ez + (er - ez)) at 1 by lia.
    rewrite <- pow2_shift, Hval, Hmz by lia.
    rewrite pow2_shift by lia. replace (ez + (24 - d)) with 0 by lia.
    change (pow2 0) with 1%Q. ring.
Qed.

Lemma f32_half_ok : f32_ok f32_half /\ (f32_value f32_half == 1 # 2)%Q.
Proof. done. Qed.

(** *** Division *)

Lemma f32_div_err sx mx ex sy my ey :
  let x := S754_finite sx mx ex in
  let y := S754_finite sy my ey in
  (pow2 (-120) <= Qabs (f32_value x / f32_value y))%Q ->
  (Qabs (f32_value x / f32_value y) < pow2 127)%Q ->
  f32_ok (f32_div x y) /\
  (Qabs (f32_value (f32_div x y) - f32_value x / f32_value y)
   <= f32_u * Qabs (f32_value x / f32_value y) + f32_eta)%Q.
Proof.
  intros x y Hmin Hmax. subst x y.
  pose proof (magnitude_bounds mx ex) as [Hxlo Hxhi].
  pose proof (magnitude_bounds my ey) as [Hylo Hyhi]. cbv zeta in *.
  destruct (digits2_pos_bounds mx) as [Hmxlo Hmxhi].
  destruct (digits2_pos_bounds my) as [Hmylo Hmyhi].
  set (dx := Z.pos (digits2_pos mx)) in *. set (dy := Z.pos (digits2_pos my)) in *.
  assert (Hdx : 0 < dx) by (subst dx; lia). assert (Hdy : 0 < dy) by (subst dy; lia).
  set (X := (inject_Z (Z.pos mx) * pow2 ex)%Q) in *.
  set (Y := (inject_Z (Z.pos my) * pow2 ey)%Q) in *.
  assert (HX : (0 < X)%Q) by (pose proof (pow2_gt_0 (dx - 1 + ex)); lra).
  assert (HY : (0 < Y)%Q) by (pose proof (pow2_gt_0 (dy - 1 + ey)); lra).
  assert (HXY : (0 < X / Y)%Q) by (apply Qlt_shift_div_l; [done|lra]).
  assert (Hv : (f32_value (S754_finite sx mx ex) / f32_value (S754_finite sy my ey)
                == (if xorb sx sy then - (X / Y) else X / Y))%Q).
  { rewrite !f32_value_finite, !inject_Z_cond_Zopp. unfold X, Y.
    pose proof (pow2_gt_0 ey).
    assert (0 < inject_Z (Z.pos my))%Q by (change 0%Q with (inject_Z 0); by rewrite <- Zlt_Qlt).
    destruct sx, sy; cbn [xorb]; field; split; lra. }
  assert (Habs : (Qabs (f32_value (S754_finite sx mx ex) / f32_value (S754_finite sy my ey))
                  == X / Y)%Q).
  { rewrite Hv. destruct (xorb sx sy); rewrite ?Qabs_opp; apply Qabs_pos; lra. }
  rewrite Habs in Hmin, Hmax |- *.
  (* the quotient is not below 2^-120: its exponent is in the normal range *)
  assert (Hnorm : -121 < dx + ex - (dy + ey)).
  { assert (-120 < dx + ex - (dy - 1 + ey)); [|lia]. apply pow2_lt_inv.
    eapply Qle_lt_trans; [exact Hmin|]. apply Qlt_shift_div_r; [done|].
    assert (Hsplit : (pow2 (dx + ex)
                      == pow2 (dx + ex - (dy - 1 + ey)) * pow2 (dy - 1 + ey))%Q).
    { rewrite <- pow2_add. by replace (dx + ex - (dy - 1 + ey) + (dy - 1 + ey))
        with (dx + ex) by lia. }
    assert (pow2 (dx + ex - (dy - 1 + ey)) * pow2 (dy - 1 + ey)
            <= pow2 (dx + ex - (dy - 1 + ey)) * Y)%Q
      by (apply Qmult_le_l; [apply pow2_gt_0|done]).
    lra. }
  unfold f32_div, SFdiv, SFdiv_core_binary. cbn [Zdigits2]. fold dx dy.
  set (e' := Z.min (fexp 24 128 (dx + ex - (dy + ey))) (ex - ey)).
  set (s := ex - ey - e').
  assert (Hfexp : fexp 24 128 (dx + ex - (dy + ey)) = dx + ex - (dy + ey) - 24)
    by (unfold fexp, emin; lia).
  assert (Hs : 0 <= s) by (subst s e'; lia).
  assert (Hs' : 24 + dy - dx <= s) by (subst s e'; lia).
  set (m' := match s with Z.pos _ => Z.shiftl (Z.pos mx) s | 0 => Z.pos mx | Z.neg _ => 0 end).
  assert (Hm' : m' = Z.pos mx * 2 ^ s).
  { subst m'. destruct s as [|p|p] eqn:Hsp; [lia| |lia]. by rewrite Z.shiftl_mul_pow2. }
  clearbody m'.
  assert (H2s : 0 < 2 ^ s) by (apply Z.pow_pos_nonneg; lia).
  pose proof (Z.div_eucl_eq m' (Z.pos my) ltac:(lia)) as Heucl.
  pose proof (Z.mod_pos_bound m' (Z.pos my) ltac:(lia)) as Hrem.
  unfold Z.modulo in Hrem.
  destruct (Z.div_eucl m' (Z.pos my)) as [q r].
  (* the quotient has at least 24 bits *)
  assert (Hq23 : 2 ^ (dx + s - dy - 1) <= q).
  { destruct (Z.le_gt_cases (2 ^ (dx + s - dy - 1)) q) as [|Hlt]; [done|exfalso].
    assert (Hpow : 2 ^ (dx + s - dy - 1) * 2 ^ dy = 2 ^ (dx - 1) * 2 ^ s).
    { rewrite <- !Z.pow_add_r by lia. f_equal. lia. }
    assert (H1 : 2 ^ (dx - 1) * 2 ^ s <= m')
      by (rewrite Hm'; apply Z.mul_le_mono_nonneg_r; lia).
    assert (H2 : (q + 1) * Z.pos my <= 2 ^ (dx + s - dy - 1) * Z.pos my)
      by (apply Z.mul_le_mono_nonneg_r; lia).
    assert (H3 : 2 ^ (dx + s - dy - 1) * Z.pos my < 2 ^ (dx + s - dy - 1) * 2 ^ dy).
    { apply Z.mul_lt_mono_pos_l; [apply Z.pow_pos_nonneg; lia|lia]. }
    lia. }
  assert (Hq : 0 < q) by (pose proof (Z.pow_pos_nonneg 2 (dx + s - dy - 1)); lia).
  assert (Hdq : dx + s - dy <= Zdigits2 q).
  { pose proof (Zdigits2_ge q (dx + s - dy - 1) Hq23 ltac:(lia)). lia. }
  (* the true quotient lies between q and q + 1 at exponent e' *)
  assert (Hscale : (X == inject_Z m' * pow2 (e' + ey))%Q).
  { unfold X. rewrite Hm', pow2_shift by lia. by replace (e' + ey + s) with ex by (subst s; lia). }
  assert (HYe : (Y * pow2 e' == inject_Z (Z.pos my) * pow2 (e' + ey))%Q).
  { unfold Y. rewrite pow2_add. ring. }
  pose proof (pow2_gt_0 (e' + ey)) as Hpee. pose proof (pow2_gt_0 e') as Hpe'.
  assert (Hlo : (inject_Z q * pow2 e' <= X / Y)%Q).
  { apply Qle_shift_div_l; [done|].
    assert (Heq : (inject_Z q * pow2 e' * Y == inject_Z (q * Z.pos my) * pow2 (e' + ey))%Q).
    { rewrite inject_Z_mult, <- Qmult_assoc, (Qmult_comm (pow2 e')), HYe. ring. }
    rewrite Heq, Hscale. apply Qmult_le_compat_r; [|lra]. rewrite <- Zle_Qle. lia. }
  assert (Hhi : (X / Y < inject_Z (q + 1) * pow2 e')%Q).
  { apply Qlt_shift_div_r; [done|].
    assert (Heq : (inject_Z (q + 1) * pow2 e' * Y
                   == inject_Z ((q + 1) * Z.pos my) * pow2 (e' + ey))%Q).
    { rewrite inject_Z_mult, <- Qmult_assoc, (Qmult_comm (pow2 e')), HYe. ring. }
    rewrite Heq, Hscale. apply Qmult_lt_compat_r; [done|]. rewrite <- Zlt_Qlt. lia. }
  destruct (f32_round_err (xorb sx sy) q e' (new_location (Z.pos my) r) (X / Y) Hq)
    as [Hok (R & HR & HR0 & Herr)]; [|exact Hlo|exact Hhi|exact Hmax|].
  { assert (fexp 24 128 (dx + ex - (dy + ey)) <= fexp 24 128 (Zdigits2 q + e')).
    { unfold fexp. apply Z.max_le_compat_r. subst s. lia. }
    subst e'. lia. }
  split; [exact Hok|]. rewrite HR, Hv.
  destruct (xorb sx sy); [|exact Herr].
  assert (Heq : (- R - - (X / Y) == - (R - X / Y))%Q) by ring.
  by rewrite Heq, Qabs_opp.
Qed.

(** *** The geometry *)

Lemma f32_eta_val : (f32_eta == 1 # 713623846352979940529142984724747568191373312)%Q.
Proof. reflexivity. Qed.

Lemma pow2_127_big : (1152921504606846976 < pow2 127)%Q.
Proof. reflexivity. Qed.

Lemma pow2_120_small : (pow2 (-120) < 1 # 1152921504606846976)%Q.
Proof. reflexivity. Qed.

(** *** Centring: the error of [(a - n) * 0.5f] and of the far edge *)

(** The arithmetic of the two borders.  [S], [L] and [R] are the rounded
    difference, its half and the far edge. *)
Lemma centre_arith (a n S L R : Q) :
  (0 <= a -> 0 <= n ->
   Qabs (S - (a - n)) <= f32_u * Qabs (a - n) + f32_eta ->
   Qabs (L - S * (1 # 2)) <= f32_u * Qabs (S * (1 # 2)) + f32_eta ->
   Qabs (R - (L + n)) <= f32_u * Qabs (L + n) + f32_eta ->
   Qabs S <= 2 * (a + n) + 1 /\
   Qabs (L + n) <= 2 * (a + n) + 1 /\
   Qabs (L - (a - R)) <= (1 # 2097152) * (a + n) + 5 * f32_eta /\
   Qabs (R - L - n) <= (1 # 4194304) * (a + n) + 2 * f32_eta)%Q.
Proof.
  intros Ha Hn H1 H2 H3.
  pose proof f32_eta_pos as Heta0. pose proof f32_eta_val as Heta.
  unfold f32_u in *.
  assert (Han : (Qabs (a - n) <= a + n)%Q) by (apply Qabs_Qle_condition; split; lra).
  pose proof (Qabs_nonneg (a - n)) as Han0.
  apply Qabs_Qle_condition in H1.
  assert (HS : (Qabs (S * (1 # 2)) <= ((1 + (1 # 8388608)) * (a + n) + f32_eta) * (1 # 2))%Q)
    by (apply Qabs_Qle_condition; split; lra).
  pose proof (Qabs_nonneg (S * (1 # 2))) as HS0.
  apply Qabs_Qle_condition in H2.
  assert (HL : (Qabs (L + n) <= (1 + (1 # 8388608)) * (1 + (1 # 8388608)) * (a + n) * (1 # 2)
                                + (a + n) + 2 * f32_eta)%Q)
    by (apply Qabs_Qle_condition; split; lra).
  pose proof (Qabs_nonneg (L + n)) as HL0.
  apply Qabs_Qle_condition in H3.
  split; [apply Qabs_Qle_condition; split; lra|].
  split; [lra|].
  split; apply Qabs_Qle_condition; split; lra.
Qed.

Lemma centre_err a n :
  f32_ok a -> f32_ok n ->
  (0 <= f32_value a <= 1125899906842624)%Q -> (0 <= f32_value n <= 1125899906842624)%Q ->
  let S := f32_sub a n in
  let L := f32_mul S f32_half in
  let R := f32_add L n in
  f32_ok L /\ f32_ok R /\
  (Qabs (f32_value L - (f32_value a - f32_value R))
     <= (1 # 2097152) * (f32_value a + f32_value n) + 5 * f32_eta /\
   Qabs (f32_value R - f32_value L - f32_value n)
     <= (1 # 4194304) * (f32_value a + f32_value n) + 2 * f32_eta)%Q.
Proof.
  intros Hoka Hokn Ha Hn S L R.
  pose proof pow2_127_big as Hbig. pose proof f32_eta_pos as Heta0.
  pose proof f32_eta_val as Heta.
  destruct f32_half_ok as [Hokh Hhalf].
  destruct (f32_sub_err a n Hoka Hokn) as [HokS HS].
  { eapply Qle_lt_trans; [|exact Hbig]. apply Qabs_Qle_condition. split; lra. }
  fold S in HokS, HS.
  assert (Hpre : (Qabs (f32_value S) <= 2 * (f32_value a + f32_value n) + 1)%Q).
  { assert (Han : (Qabs (f32_value a - f32_value n) <= f32_value a + f32_value n)%Q)
      by (apply Qabs_Qle_condition; split; lra).
    pose proof (Qabs_nonneg (f32_value a - f32_value n)).
    apply Qabs_Qle_condition in HS. unfold f32_u in HS.
    apply Qabs_Qle_condition. split; lra. }
  destruct (f32_mul_err S f32_half HokS Hokh) as [HokL HL].
  { rewrite Hhalf. eapply Qle_lt_trans; [|exact Hbig].
    apply Qabs_Qle_condition in Hpre. apply Qabs_Qle_condition. split; lra. }
  fold L in HokL, HL. rewrite Hhalf in HL.
  assert (HpreL : (Qabs (f32_value L) <= 2 * (f32_value a + f32_value n) + 2)%Q).
  { assert (HSh : (Qabs (f32_value S * (1 # 2)) <= f32_value a + f32_value n + 1)%Q).
    { apply Qabs_Qle_condition in Hpre. apply Qabs_Qle_condition. split; lra. }
    pose proof (Qabs_nonneg (f32_value S * (1 # 2))).
    apply Qabs_Qle_condition in HL. unfold f32_u in HL.
    apply Qabs_Qle_condition in Hpre.
    apply Qabs_Qle_condition. split; lra. }
  destruct (f32_add_err L n HokL Hokn) as [HokR HR].
  { eapply Qle_lt_trans; [|exact Hbig].
    apply Qabs_Qle_condition in HpreL. apply Qabs_Qle_condition. split; lra. }
  fold R in HokR, HR.
  split; [exact HokL|]. split; [exact HokR|].
  destruct (centre_arith (f32_value a) (f32_value n) (f32_value S) (f32_value L)
              (f32_value R)) as (_ & _ & Hc & Hw); try done; lra.
Qed.

(** A finite number above zero is a positive finite number. *)
Lemma f32_ok_pos x :
  f32_ok x -> (0 < f32_value x)%Q -> exists m e, x = S754_finite false m e.
Proof.
  intros [Hf _] Hpos. destruct x as [s|s| |s m e]; try discriminate.
  destruct s; [|by eauto]. exfalso.
  rewrite f32_value_finite in Hpos. cbn [cond_Zopp] in Hpos.
  pose proof (pow2_gt_0 e).
  assert (0 < inject_Z (Z.pos m))%Q by (change 0%Q with (inject_Z 0); by rewrite <- Zlt_Qlt).
  change (- Z.pos m) with (Z.neg m) in Hpos.
  assert (Heq : (inject_Z (Z.neg m) == - inject_Z (Z.pos m))%Q) by (by rewrite <- inject_Z_opp).
  rewrite Heq in Hpos. nra.
Qed.

(** Division of two positive finite numbers. *)
Lemma f32_div_pos_err x y :
  f32_ok x -> f32_ok y -> (0 < f32_value x)%Q -> (0 < f32_value y)%Q ->
  ((1 # 1152921504606846976) <= f32_value x / f32_value y)%Q ->
  (f32_value x / f32_value y <= 1152921504606846976)%Q ->
  f32_ok (f32_div x y) /\
  (Qabs (f32_value (f32_div x y) - f32_value x / f32_value y)
   <= f32_u * (f32_value x / f32_value y) + f32_eta)%Q.
Proof.
  intros Hx Hy Hxpos Hypos Hlo Hhi.
  destruct (f32_ok_pos x Hx Hxpos) as (mx & ex & ->).
  destruct (f32_ok_pos y Hy Hypos) as (my & ey & ->).
  pose proof pow2_127_big. pose proof pow2_120_small.
  set (t := (f32_value (S754_finite false mx ex) / f32_value (S754_finite false my ey))%Q) in *.
  assert (Habs : (Qabs t == t)%Q) by (apply Qabs_pos; lra).
  destruct (f32_div_err false mx ex false my ey) as [Hok Herr].
  - fold t. rewrite Habs. lra.
  - fold t. rewrite Habs. lra.
  - fold t in Herr. rewrite Habs in Herr. by split.
Qed.

(** Comparison of two positive valid numbers. *)
Lemma f32_lt_value x y :
  f32_ok x -> f32_ok y -> (0 < f32_value x)%Q -> (0 < f32_value y)%Q ->
  if f32_lt x y then (f32_value x < f32_value y)%Q
  else (f32_value y <= f32_value x)%Q.
Proof.
  intros Hx Hy Hxpos Hypos.
  destruct (f32_ok_pos x Hx Hxpos) as (mx & ex & ->).
  destruct (f32_ok_pos y Hy Hypos) as (my & ey & ->).
  destruct Hx as [_ Hvx], Hy as [_ Hvy].
  destruct (valid_binary_inv _ _ _ Hvx) as (Hex & Hdx & Hcx).
  destruct (valid_binary_inv _ _ _ Hvy) as (Hey & Hdy & Hcy).
  cbv zeta in Hdx, Hcx, Hdy, Hcy.
  pose proof (magnitude_bounds mx ex) as [Hxlo Hxhi].
  pose proof (magnitude_bounds my ey) as [Hylo Hyhi]. cbv zeta in Hxlo, Hxhi, Hylo, Hyhi.
  assert (Hx : (f32_value (S754_finite false mx ex) == inject_Z (Z.pos mx) * pow2 ex)%Q)
    by apply f32_value_finite.
  assert (Hy : (f32_value (S754_finite false my ey) == inject_Z (Z.pos my) * pow2 ey)%Q)
    by apply f32_value_finite.
  unfold f32_lt, SFltb, SFcompare.
  destruct (Z.compare_spec ex ey) as [Heq|Hlt|Hgt].
  - subst ey. pose proof (pow2_gt_0 ex) as Hp. rewrite Pos.compare_cont_spec. cbn [Pos.switch_Eq].
    destruct (Pos.compare_spec mx my) as [Hm|Hm|Hm]; cbn [Pos.switch_Eq].
    + subst my. lra.
    + rewrite Hx, Hy. apply Qmult_lt_compat_r; [done|]. by rewrite <- Zlt_Qlt.
    + rewrite Hx, Hy. apply Qmult_le_compat_r; [|lra]. rewrite <- Zle_Qle. lia.
  - (* the larger exponent is not the least one, so [y] has 24 bits *)
    assert (Hle : (pow2 (Z.pos (digits2_pos mx) + ex)
                   <= pow2 (Z.pos (digits2_pos my) - 1 + ey))%Q) by (apply pow2_le; lia).
    lra.
  - assert (Hle : (pow2 (Z.pos (digits2_pos my) + ey)
                   <= pow2 (Z.pos (digits2_pos mx) - 1 + ex))%Q) by (apply pow2_le; lia).
    lra.
Qed.

(** Sizes and the ratio of the screen as rationals. *)
Lemma inject_Z_size z :
  0 < z < 2 ^ 24 -> (1 <= inject_Z z <= 16777216)%Q.
Proof.
  intros [Hlo Hhi]. split.
  - change 1%Q with (inject_Z 1). rewrite <- Zle_Qle. lia.
  - change 16777216%Q with (inject_Z 16777216). rewrite <- Zle_Qle. lia.
Qed.

Lemma ratio_bounds (a b : Q) :
  (1 <= a <= 16777216 -> 1 <= b <= 16777216 ->
   (1 # 16777216) <= a / b <= 16777216 /\ a / b * b == a)%Q.
Proof.
  intros Ha Hb. split; [split|].
  - apply Qle_shift_div_l; lra.
  - apply Qle_shift_div_r; [lra|]. nra.
  - field. lra.
Qed.

(** The rounded target aspect is within a factor [1 +- 2^-22] of the
    ratio. *)
Lemma aspect_arith (r A : Q) :
  ((1 # 16777216) <= r <= 16777216 ->
   Qabs (A - r) <= f32_u * r + f32_eta ->
   (1 - (1 # 4194304)) * r <= A <= (1 + (1 # 4194304)) * r)%Q.
Proof.
  intros Hr HA. pose proof f32_eta_val as Heta. unfold f32_u in HA.
  apply Qabs_Qle_condition in HA. lra.
Qed.

(** The free extent when the height constrains: [N] is the rounded
    product [h * want_aspect]. *)
Lemma pillarbox_arith (W H r A N L R : Q) :
  (1 <= W <= 16777216 -> 1 <= H <= 16777216 ->
   (1 # 16777216) <= r <= 16777216 ->
   (1 - (1 # 4194304)) * r <= A <= (1 + (1 # 4194304)) * r ->
   Qabs (N - H * A) <= f32_u * Qabs (H * A) + f32_eta ->
   Qabs (L - (W - R)) <= (1 # 2097152) * (W + N) + 5 * f32_eta ->
   Qabs (R - L - N) <= (1 # 4194304) * (W + N) + 2 * f32_eta ->
   Qabs (L - (W - R)) <= (1 # 1048576) * (W + H * r) /\
   Qabs (R - L - H * r) <= (1 # 1048576) * (W + H * r))%Q.
Proof.
  intros HW HH Hr HA HN Hc Hq. pose proof f32_eta_val as Heta. unfold f32_u in HN.
  assert (HHr : (0 < H * r)%Q) by nra.
  assert (HHA : ((1 - (1 # 4194304)) * (H * r) <= H * A <= (1 + (1 # 4194304)) * (H * r))%Q)
    by nra.
  rewrite (Qabs_pos (H * A)) in HN by lra.
  apply Qabs_Qle_condition in HN, Hc, Hq.
  split; apply Qabs_Qle_condition; split; lra.
Qed.

(** The free extent when the width constrains: [N] is the rounded
    quotient [w / want_aspect]. *)
Lemma letterbox_arith (W H r A X Q1 N T B : Q) :
  (1 <= W <= 16777216 -> 1 <= H <= 16777216 ->
   (1 # 16777216) <= r <= 16777216 ->
   (1 - (1 # 4194304)) * r <= A <= (1 + (1 # 4194304)) * r ->
   X * A == W -> Q1 * r == W ->
   Qabs (N - X) <= f32_u * X + f32_eta ->
   Qabs (T - (H - B)) <= (1 # 2097152) * (H + N) + 5 * f32_eta ->
   Qabs (B - T - N) <= (1 # 4194304) * (H + N) + 2 * f32_eta ->
   Qabs (T - (H - B)) <= (1 # 1048576) * (H + Q1) /\
   Qabs (B - T - Q1) <= (1 # 1048576) * (H + Q1))%Q.
Proof.
  intros HW HH Hr HA HX HQ1 HN Hc Hq. pose proof f32_eta_val as Heta. unfold f32_u in HN.
  assert (HQ1pos : (0 < Q1)%Q) by nra.
  assert (HXpos : (0 < X)%Q) by nra.
  assert (HXQ : ((1 - (1 # 4194304)) * X <= Q1 <= (1 + (1 # 4194304)) * X)%Q) by nra.
  apply Qabs_Qle_condition in HN, Hc, Hq.
  split; apply Qabs_Qle_condition; split; lra.
Qed.

(** Which branch is taken: the comparison of the two rounded quotients
    decides as the exact ratios do, except within a factor [1 +- 2^-21]
    of a tie. *)
Lemma branch_arith (W H r A G a : Q) :
  (1 <= W <= 16777216 -> 1 <= H <= 16777216 ->
   (1 # 16777216) <= r <= 16777216 ->
   (1 - (1 # 4194304)) * r <= A <= (1 + (1 # 4194304)) * r ->
   G * H == W ->
   Qabs (a - G) <= f32_u * G + f32_eta ->
   (a < A -> G < r * (1 + (1 # 2097152))) /\
   (A <= a -> r * (1 - (1 # 2097152)) < G))%Q.
Proof.
  intros HW HH Hr HA HG Ha. pose proof f32_eta_val as Heta. unfold f32_u in Ha.
  assert (HGlo : ((1 # 16777216) <= G)%Q) by nra.
  apply Qabs_Qle_condition in Ha.
  split; intros Hcmp; lra.
Qed.

(** C5, as the code has it.  The window and the screen are sizes below
    [2^24], which [float] holds exactly.  The four vertices form an
    axis-parallel rectangle with finite coordinates.  When the rounded
    quotient [w / h] is below the rounded target aspect, which the exact
    ratios allow only for [w / h] below [1 + 2^-21] times the target, the
    width constrains: the quad spans the window from [+0] to [w], its
    height is [w * SCREEN_HEIGHT / SCREEN_WIDTH] and the top and bottom
    borders are equal, both up to [2^-20] of the sum of the window's
    height and that height.  Otherwise, a tie included and only for
    [w / h] above [1 - 2^-21] times the target, the height constrains:
    the quad spans the window from [+0] to [h], its width is
    [h * SCREEN_WIDTH / SCREEN_HEIGHT] and the left and right borders are
    equal, both up to [2^-20] of the sum of the window's width and that
    width.  The errors are those of the binary32 operations, each within
    [2^-23] of its exact result. *)
Theorem resize_keeps_aspect SCREEN_WIDTH SCREEN_HEIGHT data1 data2 :
  0 < SCREEN_WIDTH < 2 ^ 24 -> 0 < SCREEN_HEIGHT < 2 ^ 24 ->
  0 < data1 < 2 ^ 24 -> 0 < data2 < 2 ^ 24 ->
  let w := f32_of_int data1 in
  let h := f32_of_int data2 in
  let want_aspect := f32_div (f32_of_int SCREEN_WIDTH) (f32_of_int SCREEN_HEIGHT) in
  let W := inject_Z data1 in
  let H := inject_Z data2 in
  let ratio := (inject_Z SCREEN_WIDTH / inject_Z SCREEN_HEIGHT)%Q in
  exists left top right bottom u_right v_bottom,
    vertices (resize_video SCREEN_WIDTH SCREEN_HEIGHT w h) =
      [mkVertex left top (f32_of_int 0) (f32_of_int 0);
       mkVertex left bottom (f32_of_int 0) v_bottom;
       mkVertex right top u_right (f32_of_int 0);
       mkVertex right bottom u_right v_bottom] /\
    (f32_value w == W)%Q /\ (f32_value h == H)%Q /\
    f32_finite left = true /\ f32_finite top = true /\
    f32_finite right = true /\ f32_finite bottom = true /\
    let L := f32_value left in
    let T := f32_value top in
    let R := f32_value right in
    let B := f32_value bottom in
    if f32_lt (f32_div w h) want_aspect
    then left = S754_zero false /\ right = w /\
         (W / H < ratio * (1 + (1 # 2097152)))%Q /\
         (Qabs (T - (H - B)) <= (1 # 1048576) * (H + W / ratio))%Q /\
         (Qabs (B - T - W / ratio) <= (1 # 1048576) * (H + W / ratio))%Q
    else top = S754_zero false /\ bottom = h /\
         (ratio * (1 - (1 # 2097152)) < W / H)%Q /\
         (Qabs (L - (W - R)) <= (1 # 1048576) * (W + H * ratio))%Q /\
         (Qabs (R - L - H * ratio) <= (1 # 1048576) * (W + H * ratio))%Q.
Proof.
  intros Hsw Hsh Hd1 Hd2. cbv zeta.
  destruct (f32_of_int_exact data1 Hd1) as [Hokw Hvw].
  destruct (f32_of_int_exact data2 Hd2) as [Hokh Hvh].
  destruct (f32_of_int_exact SCREEN_WIDTH Hsw) as [Hoksw Hvsw].
  destruct (f32_of_int_exact SCREEN_HEIGHT Hsh) as [Hoksh Hvsh].
  pose proof (inject_Z_size data1 Hd1) as HW.
  pose proof (inject_Z_size data2 Hd2) as HH.
  pose proof (inject_Z_size SCREEN_WIDTH Hsw) as HSW.
  pose proof (inject_Z_size SCREEN_HEIGHT Hsh) as HSH.
  set (w := f32_of_int data1) in *. set (h := f32_of_int data2) in *.
  set (fsw := f32_of_int SCREEN_WIDTH) in *. set (fsh := f32_of_int SCREEN_HEIGHT) in *.
  set (W := inject_Z data1) in *. set (H := inject_Z data2) in *.
  set (ratio := (inject_Z SCREEN_WIDTH / inject_Z SCREEN_HEIGHT)%Q).
  destruct (ratio_bounds _ _ HSW HSH) as [Hr Hrmul]. fold ratio in Hr, Hrmul.
  destruct (ratio_bounds _ _ HW HH) as [HG HGmul].
  pose proof f32_eta_val as Heta.
  (* the target aspect *)
  destruct (f32_div_pos_err fsw fsh Hoksw Hoksh) as [HokA HerrA].
  { rewrite Hvsw. lra. } { rewrite Hvsh. lra. }
  { rewrite Hvsw, Hvsh. fold ratio. lra. } { rewrite Hvsw, Hvsh. fold ratio. lra. }
  rewrite Hvsw, Hvsh in HerrA. fold ratio in HerrA.
  set (want_aspect := f32_div fsw fsh) in *.
  pose proof (aspect_arith ratio (f32_value want_aspect) Hr HerrA) as HA.
  assert (HApos : (0 < f32_value want_aspect)%Q) by lra.
  (* the aspect of the window *)
  destruct (f32_div_pos_err w h Hokw Hokh) as [Hoka Herra].
  { rewrite Hvw. lra. } { rewrite Hvh. lra. }
  { rewrite Hvw, Hvh. lra. } { rewrite Hvw, Hvh. lra. }
  rewrite Hvw, Hvh in Herra.
  set (aspect := f32_div w h) in *.
  assert (Hapos : (0 < f32_value aspect)%Q).
  { unfold f32_u in Herra. apply Qabs_Qle_condition in Herra. lra. }
  pose proof (f32_lt_value aspect want_aspect Hoka HokA Hapos HApos) as Hcmp.
  destruct (branch_arith W H ratio (f32_value want_aspect) (W / H) (f32_value aspect)
              HW HH Hr HA HGmul Herra) as [Hnarrow Hwide].
  (* the window sizes are positive finite numbers *)
  destruct (f32_ok_pos w Hokw) as (mw & ew & Hfw); [rewrite Hvw; lra|].
  destruct (f32_ok_pos h Hokh) as (mh & eh & Hfh); [rewrite Hvh; lra|].
  assert (Hww : f32_mul (f32_sub w w) f32_half = S754_zero false)
    by (rewrite Hfw, f32_sub_diag; reflexivity).
  assert (Hhh : f32_mul (f32_sub h h) f32_half = S754_zero false)
    by (rewrite Hfh, f32_sub_diag; reflexivity).
  assert (H0w : f32_add (S754_zero false) w = w) by (by rewrite Hfw).
  assert (H0h : f32_add (S754_zero false) h = h) by (by rewrite Hfh).
  unfold resize_video. cbv zeta. fold fsw fsh. fold want_aspect. fold aspect.
  eexists _, _, _, _, _, _. split; [reflexivity|].
  split; [exact Hvw|]. split; [exact Hvh|].
  destruct (f32_lt aspect want_aspect).
  - (* the width constrains *)
    rewrite Hww, H0w.
    destruct (f32_div_pos_err w want_aspect Hokw HokA) as [Hokn Herrn];
      [rewrite Hvw; lra|exact HApos| | |].
    { rewrite Hvw. apply Qle_shift_div_l; [done|]. lra. }
    { rewrite Hvw. apply Qle_shift_div_r; [done|]. lra. }
    rewrite Hvw in Herrn.
    set (new_h := f32_div w want_aspect) in *.
    set (X := (W / f32_value want_aspect)%Q) in *.
    assert (HX : (X * f32_value want_aspect == W)%Q) by (unfold X; field; lra).
    assert (HAlo : ((1 # 33554432) <= f32_value want_aspect <= 33554432)%Q) by lra.
    assert (HXpos : (0 < X)%Q) by (clear -HX HAlo HW; clearbody X; nra).
    assert (HXhi : (X <= 562949953421312)%Q) by (clear -HX HAlo HW HXpos; clearbody X; nra).
    assert (HXlo : ((1 # 67108864) <= X)%Q) by (clear -HX HAlo HW HXpos; clearbody X; nra).
    assert (Hnb : (0 <= f32_value new_h <= 1125899906842624)%Q).
    { unfold f32_u in Herrn. apply Qabs_Qle_condition in Herrn. lra. }
    destruct (centre_err h new_h Hokh Hokn) as (HokT & HokB & Hc & Hq);
      [rewrite Hvh; lra|exact Hnb|].
    cbv zeta in HokT, HokB, Hc, Hq. rewrite Hvh in Hc, Hq.
    split; [done|]. split; [exact (proj1 HokT)|].
    split; [exact (proj1 Hokw)|]. split; [exact (proj1 HokB)|].
    cbv zeta. split; [reflexivity|]. split; [reflexivity|].
    split; [by apply Hnarrow|].
    assert (HQ1 : (W / ratio * ratio == W)%Q) by (field; lra).
    exact (letterbox_arith W H ratio (f32_value want_aspect) X (W / ratio)
             (f32_value new_h) _ _ HW HH Hr HA HX HQ1 Herrn Hc Hq).
  - (* the height constrains *)
    rewrite Hhh, H0h.
    assert (HAlo : ((1 # 33554432) <= f32_value want_aspect <= 33554432)%Q) by lra.
    assert (Hprod : ((1 # 67108864) <= H * f32_value want_aspect <= 562949953421312)%Q)
      by (clear -HAlo HH; nra).
    destruct (f32_mul_err h want_aspect Hokh HokA) as [Hokn Herrn].
    { rewrite Hvh. pose proof pow2_127_big. rewrite Qabs_pos by lra. lra. }
    rewrite Hvh in Herrn.
    set (new_w := f32_mul h want_aspect) in *.
    assert (Hnb : (0 <= f32_value new_w <= 1125899906842624)%Q).
    { rewrite (Qabs_pos (H * f32_value want_aspect)) in Herrn by lra.
      unfold f32_u in Herrn. apply Qabs_Qle_condition in Herrn. lra. }
    destruct (centre_err w new_w Hokw Hokn) as (HokL & HokR & Hc & Hq);
      [rewrite Hvw; lra|exact Hnb|].
    cbv zeta in HokL, HokR, Hc, Hq. rewrite Hvw in Hc, Hq.
    split; [exact (proj1 HokL)|]. split; [done|].
    split; [exact (proj1 HokR)|]. split; [exact (proj1 Hokh)|].
    cbv zeta. split; [reflexivity|]. split; [reflexivity|].
    split; [by apply Hwide|].
    exact (pillarbox_arith W H ratio (f32_value want_aspect) (f32_value new_w) _ _
             HW HH Hr HA Herrn Hc Hq).
Qed.

(** C5 as stated fails on a 160x144 screen.  In an 800x600 window, wider
    than 10:9, the height constrains and the quad spans it exactly, but
    the left border [8738132 * 2^-17] is not the right border
    [800 - 12014934 * 2^-14], and the quad's width is not 160/144 of its
    height.  In a 480x432 window, exactly 10:9 and so not wider than the
    target, it is still the height that constrains: the quad's width is
    not the window's, its left edge lies [2^-16] outside the window and
    its right edge on the window's.  And a width of [2^24 + 1] is not a
    [float]: in a window of 16777217 by 33554432 the width constrains,
    but the quad ends at 16777216, one pixel short of the window's right
    side, while it starts on its left side. *)
Lemma resize_not_exact :
  let want_aspect := f32_div (f32_of_int 160) (f32_of_int 144) in
  (let w := f32_of_int 800 in
   let h := f32_of_int 600 in
   let left := S754_finite false 8738132 (-17) in
   let right := S754_finite false 12014934 (-14) in
   let top := S754_zero false in
   let bottom := h in
   f32_lt (f32_div w h) want_aspect = false /\
   (f32_value w == 800 /\ f32_value h == 600)%Q /\
   (pos_x <$> vertices (resize_video 160 144 w h)) = [left; left; right; right] /\
   (pos_y <$> vertices (resize_video 160 144 w h)) = [top; bottom; top; bottom] /\
   ~ (f32_value left == f32_value w - f32_value right)%Q /\
   ~ ((f32_value right - f32_value left) * 144
      == (f32_value bottom - f32_value top) * 160)%Q) /\
  (let w := f32_of_int 480 in
   let h := f32_of_int 432 in
   let left := S754_finite true 8388608 (-39) in
   let right := w in
   let top := S754_zero false in
   let bottom := h in
   f32_div w h = want_aspect /\ f32_lt (f32_div w h) want_aspect = false /\
   (f32_value w == 480 /\ f32_value h == 432)%Q /\
   (pos_x <$> vertices (resize_video 160 144 w h)) = [left; left; right; right] /\
   (pos_y <$> vertices (resize_video 160 144 w h)) = [top; bottom; top; bottom] /\
   (f32_value left == - (1 # 65536))%Q /\
   ~ (f32_value right - f32_value left == f32_value w)%Q /\
   ~ (f32_value left == f32_value w - f32_value right)%Q) /\
  (let w := f32_of_int 16777217 in
   let h := f32_of_int 33554432 in
   f32_lt (f32_div w h) want_aspect = true /\
   (pos_x <$> vertices (resize_video 160 144 w h)) = [S754_zero false; S754_zero false; w; w] /\
   (f32_value w == 16777216)%Q /\
   ~ (f32_value (S754_zero false) == 16777217 - f32_value w)%Q).
Proof.
  cbv zeta. split; [|split].
  - split; [reflexivity|]. split; [split; reflexivity|].
    split; [reflexivity|]. split; [reflexivity|].
    split; intros Heq; vm_compute in Heq; discriminate.
  - split; [reflexivity|]. split; [reflexivity|]. split; [split; reflexivity|].
    split; [reflexivity|]. split; [reflexivity|]. split; [reflexivity|].
    split; intros Heq; vm_compute in Heq; discriminate.
  - split; [reflexivity|]. split; [reflexivity|]. split; [reflexivity|].
    intros Heq; vm_compute in Heq; discriminate.
Qed.

Lemma resize_keeps_aspect_witness :
  0 < 160 < 2 ^ 24 /\ 0 < 144 < 2 ^ 24 /\ 0 < 800 < 2 ^ 24 /\ 0 < 600 < 2 ^ 24 /\
  let w := f32_of_int 800 in
  let h := f32_of_int 600 in
  let want_aspect := f32_div (f32_of_int 160) (f32_of_int 144) in
  let W := inject_Z 800 in
  let H := inject_Z 600 in
  let ratio := (inject_Z 160 / inject_Z 144)%Q in
  exists left top right bottom u_right v_bottom,
    vertices (resize_video 160 144 w h) =
      [mkVertex left top (f32_of_int 0) (f32_of_int 0);
       mkVertex left bottom (f32_of_int 0) v_bottom;
       mkVertex right top u_right (f32_of_int 0);
       mkVertex right bottom u_right v_bottom] /\
    (f32_value w == W)%Q /\ (f32_value h == H)%Q /\
    f32_finite left = true /\ f32_finite top = true /\
    f32_finite right = true /\ f32_finite bottom = true /\
    let L := f32_value left in
    let T := f32_value top in
    let R := f32_value right in
    let B := f32_value bottom in
    if f32_lt (f32_div w h) want_aspect
    then left = S754_zero false /\ right = w /\
         (W / H < ratio * (1 + (1 # 2097152)))%Q /\
         (Qabs (T - (H - B)) <= (1 # 1048576) * (H + W / ratio))%Q /\
         (Qabs (B - T - W / ratio) <= (1 # 1048576) * (H + W / ratio))%Q
    else top = S754_zero false /\ bottom = h /\
         (ratio * (1 - (1 # 2097152)) < W / H)%Q /\
         (Qabs (L - (W - R)) <= (1 # 1048576) * (W + H * ratio))%Q /\
         (Qabs (R - L - H * ratio) <= (1 # 1048576) * (W + H * ratio))%Q.
Proof.
  assert (H1 : 0 < 160 < 2 ^ 24) by lia. assert (H2 : 0 < 144 < 2 ^ 24) by lia.
  assert (H3 : 0 < 800 < 2 ^ 24) by lia. assert (H4 : 0 < 600 < 2 ^ 24) by lia.
  split; [exact H1|]. split; [exact H2|]. split; [exact H3|]. split; [exact H4|].
  exact (resize_keeps_aspect 160 144 800 600 H1 H2 H3 H4).
Defined.

(** ** Time *)

Lemma f64_of_int_sign z :
  0 <= z -> f64_negative (f64_of_int z) = false.
Proof.
  intros Hz. destruct (f64_negative _) eqn:Hneg; [exfalso|reflexivity].
  unfold f64_of_int, binary_normalize in Hneg. destruct z as [|p|p]; [done| |lia].
  unfold binary_round in Hneg. destruct (shl_align _ _ _) as [mz ez].
  apply binary_round_aux_sign in Hneg. discriminate.
Qed.

(** X18.  The elapsed time is never negative.  The counter difference is
    taken in 64 bits without sign, so whatever the two counter values
    (also after the counter wrapped around, or with a reading below the
    start) [host_get_time_ms] does not return a double below zero. *)
Theorem host_get_time_ms_not_negative c now :
  0 <= performance_frequency c ->
  f64_negative (host_get_time_ms c now) = false.
Proof.
  intros Hfreq. destruct (f64_negative _) eqn:Hneg; [exfalso|reflexivity].
  unfold host_get_time_ms in Hneg.
  apply f64_div_sign in Hneg as (sx & sy & Hxor & Hx & Hy).
  pose proof (f64_of_int_sign (performance_frequency c) Hfreq) as Hf.
  destruct (f64_of_int (performance_frequency c)) as [| | |s m e]; try done.
  cbn in Hf. subst sy. destruct s; [discriminate|].
  destruct (f64_mul _ _) as [| | |s m' e'] eqn:Hmul; try done. subst sx.
  destruct s; [|discriminate].
  assert (Hneg : f64_negative (f64_mul (f64_of_int (u64 (now - start_counter c)))
                                       (f64_of_int 1000)) = true)
    by (by rewrite Hmul).
  apply f64_mul_sign in Hneg as (sx & sy & Hxor' & Hx & Hy).
  rewrite f64_of_int_1000 in Hy. subst sy.
  assert (Hd : 0 <= u64 (now - start_counter c))
    by (unfold u64; apply Z.mod_pos_bound; lia).
  pose proof (f64_of_int_sign _ Hd) as Hs.
  destruct (f64_of_int (u64 _)) as [| | |s m1 e1]; try done.
  cbn in Hs. subst sx. by destruct s.
Qed.

(** X19.  The refresh period never divides by zero.  The rate
    [host_get_monitor_refresh_ms] divides by is never [0]: a display mode
    that cannot be queried, or that reports [0] Hz, counts as 60 Hz and
    gives the double nearest to 1000/60; every other rate is used as
    reported. *)
Theorem monitor_refresh_fallback :
  (forall display_mode, monitor_refresh_rate display_mode <> 0) /\
  (forall rate, rate <> 0 -> monitor_refresh_rate (Some rate) = rate) /\
  host_get_monitor_refresh_ms None = host_get_monitor_refresh_ms (Some 60) /\
  host_get_monitor_refresh_ms (Some 0) = host_get_monitor_refresh_ms (Some 60) /\
  host_get_monitor_refresh_ms (Some 60) = S754_finite false 4691249611844267 (-48).
Proof.
  split; [|split; [|split; [|split]]]; try reflexivity.
  - intros [rate|]; unfold monitor_refresh_rate; case_bool_decide; done.
  - intros rate Hrate. unfold monitor_refresh_rate. by rewrite bool_decide_eq_false_2.
Qed.

(** ** Start-up and the pacer invariant *)

Section Clients.
Context {Emulator : Type} `{EmulatorCore Emulator}.
Implicit Types (h : Host Emulator) (w : SDL).

(** X20.  A new host.  When [host_new] returns a host, [SDL_Init], the
    video set-up, [SDL_OpenAudioDevice] (asked for
    [audio_frames * 2] samples modulo [2^16]) and [calloc] all succeeded;
    the host is running, in sync, windowed and has no step pending,
    whatever [HostInit] says; its core is the one it was given, with the
    joypad callback installed; the pacer is not ready, the staging buffer
    is zeroed and has the size of the device buffer, and for a device
    buffer that is not empty the pacer invariant holds. *)
Theorem host_new_initial_state set_joypad_callback env init (e : Emulator) h w :
  host_new set_joypad_callback env init e = Some (h, w) ->
  exists obtained,
    SDL_Init_ok env = true /\ host_init_video_ok env = true /\
    SDL_OpenAudioDevice env
      (mkWant (audio_frequency init) 2 (u16 (audio_frames init * 2))) = Some obtained /\
    calloc_ok env (size obtained) = true /\
    config h = mkConfig false false false false /\
    hook_ctx_e h = set_joypad_callback e /\
    spec (audio h) = obtained /\ ready (audio h) = false /\
    buffer (audio h) = replicate (Z.to_nat (size obtained / 2)) 0 /\
    w = mkSDL 0 true [] /\
    (0 <= size obtained -> staging_ok h) /\
    (0 < size obtained -> 5 * size obtained < 2 ^ 32 -> pacer_inv h w).
Proof.
  unfold host_new, host_init, host_init_audio.
  destruct (SDL_Init_ok env); [|discriminate].
  destruct (host_init_video_ok env); [|discriminate].
  change (mkWant (audio_frequency init) AUDIO_SPEC_CHANNELS
                 (u16 (audio_frames init * AUDIO_SPEC_CHANNELS)))
    with (mkWant (audio_frequency init) 2 (u16 (audio_frames init * 2))).
  destruct (SDL_OpenAudioDevice env _) as [obtained|] eqn:Hopen; [|discriminate].
  destruct (calloc_ok env (size obtained)) eqn:Hcalloc; [|discriminate].
  intros [= <- <-]. exists obtained.
  cbn [config hook_ctx_e set_audio set_emulator audio spec ready buffer].
  do 10 (split; [first [reflexivity | exact Hcalloc]|]).
  assert (Hok : 0 <= size obtained ->
                staging_ok (set_emulator (set_audio
                  (mkHost (mkConfig false false false false)
                          (mkAudio (mkSpec 0) [] false) e)
                  (mkAudio obtained
                     (replicate (Z.to_nat (size obtained / AUDIO_SPEC_SAMPLE_SIZE)) 0)
                     false)) (set_joypad_callback e))).
  { intros Hsz. split; [exact Hsz|]. unfold spec_size.
    cbn [audio set_audio set_emulator buffer spec].
    rewrite length_replicate, Z2Nat.id; [reflexivity|].
    apply Z.div_pos; [exact Hsz|reflexivity]. }
  split; [exact Hok|].
  intros Hpos Hfit. split; [apply Hok; lia|]. split; [|reflexivity].
  unfold AUDIO_MAX_QUEUED_SIZE, spec_size.
  cbn [audio set_audio set_emulator spec audio_queued].
  rewrite u32_small by (unfold is_u32; lia). lia.
Qed.

Lemma pacer_inv_spec h h' w :
  spec (audio h') = spec (audio h) ->
  buffer (audio h') = buffer (audio h) -> ready (audio h') = ready (audio h) ->
  pacer_inv h w -> pacer_inv h' w.
Proof.
  intros Hs Hb Hr (Hok & Hq & Hp).
  destruct (same_spec_size h h' Hs) as (Hsz & Hmax & _).
  unfold pacer_inv, staging_ok in *. by rewrite Hsz, Hmax, Hb, Hr.
Qed.

(** A delivery keeps the pacer invariant. *)
Lemma host_render_audio_pacer h w :
  pacer_inv h w -> 6 * spec_size h < 2 ^ 32 ->
  exists h' w',
    host_render_audio h w = Some (h', w') /\
    pacer_inv h' w' /\ spec (audio h') = spec (audio h) /\
    config h' = config h /\ hook_ctx_e h' = hook_ctx_e h.
Proof.
  intros (Hok & Hq & Hp) Hfit.
  destruct (deliver_step h w Hok (proj1 Hq))
    as (h' & w' & Hrun & Hok' & Hspec & Hcfg & He & Hle & Hcase & Hpacer).
  exists h', w'. split; [exact Hrun|]. split; [|done].
  destruct (same_spec_size h h' Hspec) as (Hsz & Hmax & _).
  assert (Hmax5 : AUDIO_MAX_QUEUED_SIZE h = 5 * spec_size h).
  { apply u32_small. destruct Hok. unfold is_u32; lia. }
  assert (Hq' : 0 <= audio_queued w' < AUDIO_MAX_QUEUED_SIZE h + spec_size h) by lia.
  destruct Hpacer as (Hr & Hpa & _); [lia|].
  split; [exact Hok'|]. rewrite Hsz, Hmax. split; [exact Hq'|].
  rewrite Hpa, Hr, Hp. by rewrite negb_orb.
Qed.

(** [host_set_config] keeps the pacer invariant. *)
Lemma host_set_config_pacer h new_config w :
  pacer_inv h w ->
  exists h' w',
    host_set_config h new_config w = Some (h', w') /\
    pacer_inv h' w' /\ spec (audio h') = spec (audio h) /\
    config h' = new_config /\ hook_ctx_e h' = hook_ctx_e h.
Proof.
  intros (Hok & Hq & Hp). rewrite host_set_config_eq.
  eexists _, _; split; [reflexivity|]. cbn [config hook_ctx_e audio].
  split; [|by destruct (_ || _)].
  unfold pacer_inv, staging_ok, AUDIO_MAX_QUEUED_SIZE, spec_size in *.
  cbn [audio audio_queued audio_paused].
  destruct (_ || _); cbn [spec buffer ready negb]; [|done].
  split; [exact Hok|]. split; [lia|reflexivity].
Qed.

End Clients.

Section ClientLaws.
Context {Emulator : Type} `{EmulatorCore Emulator} {Hlaws : EmulatorLaws Emulator}.
Context `{EmulatorConfigAccess Emulator} `{HostHooks Emulator}.
Variables SCREEN_WIDTH SCREEN_HEIGHT : Z.
Implicit Types (h : Host Emulator) (w : SDL) (v : HostVideo).

(** The loop of a tick keeps the pacer invariant. *)
Lemma run_loop_pacer fuel : forall h w until,
  pacer_inv h w -> 6 * spec_size h < 2 ^ 32 -> is_u32 until ->
  (Z.to_nat (until - cycles h) < fuel)%nat ->
  exists h' w',
    run_loop fuel h until w = Some (h', w') /\
    pacer_inv h' w' /\ spec (audio h') = spec (audio h) /\ config h' = config h.
Proof.
  induction fuel as [|fuel IH]; intros h w until Hinv Hfit Hu Hfuel; [lia|].
  cbn [run_loop]. unfold bind at 1. cbn [record].
  pose proof (run_until_reached (hook_ctx_e h) until Hu) as Hreach.
  pose proof (run_until_progress (hook_ctx_e h) until Hu) as Hprog.
  destruct (emulator_run_until (hook_ctx_e h) until) as [e' [new_frame audio_full reached]].
  cbn [fst snd EMULATOR_EVENT_NEW_FRAME EMULATOR_EVENT_AUDIO_BUFFER_FULL
       EMULATOR_EVENT_UNTIL_CYCLES] in *.
  set (w1 := mkSDL _ _ (calls w ++ [EvRunUntil until])).
  assert (Hupload : exists w2,
    (if new_frame then host_upload_video (set_emulator h e') else ret tt) w1
    = Some (tt, w2) /\ pacer_inv (set_emulator h e') w2).
  { destruct new_frame; eexists; (split; [reflexivity|]); exact Hinv. }
  destruct Hupload as (w2 & Hupload & Hinv2).
  unfold bind at 1. rewrite Hupload.
  assert (Haudio : exists h1 w3,
    (if audio_full then host_render_audio (set_emulator h e') else ret (set_emulator h e')) w2
    = Some (h1, w3) /\
    pacer_inv h1 w3 /\ spec (audio h1) = spec (audio h) /\
    config h1 = config h /\ hook_ctx_e h1 = e').
  { destruct audio_full.
    - destruct (host_render_audio_pacer (set_emulator h e') w2 Hinv2 Hfit)
        as (h1 & w3 & Hrun & ? & ? & ? & ?). by exists h1, w3.
    - by exists (set_emulator h e'), w2. }
  destruct Haudio as (h1 & w3 & Haudio & Hinv1 & Hspec1 & Hcfg1 & He1).
  unfold bind at 1. rewrite Haudio.
  destruct reached; [by exists h1, w3|].
  assert (Hlt : emulator_get_cycles e' < until).
  { destruct (decide (until <= emulator_get_cycles e')) as [Hge|]; [|lia].
    apply Hreach in Hge. discriminate. }
  specialize (Hprog eq_refl).
  destruct (same_spec_size h h1 Hspec1) as (Hsz & _).
  destruct (IH h1 w3 until Hinv1) as (h' & w' & Hrun & Hinv' & Hspec' & Hcfg');
    [by rewrite Hsz|exact Hu|unfold cycles in *; rewrite He1; lia|].
  exists h', w'. split; [exact Hrun|]. split; [exact Hinv'|]. split; congruence.
Qed.

(** A tick keeps the pacer invariant. *)
Lemma host_run_ms_pacer fuel h delta_ms w :
  pacer_inv h w -> 6 * spec_size h < 2 ^ 32 ->
  (Z.to_nat (2 ^ 32) <= fuel)%nat ->
  is_Some (f64_to_u32 (delta_cycles_expr delta_ms)) ->
  exists h' w',
    host_run_ms fuel h delta_ms w = Some (h', w') /\
    pacer_inv h' w' /\ spec (audio h') = spec (audio h).
Proof.
  intros Hinv Hfit Hfuel [dc Hdc]. unfold host_run_ms.
  destruct (paused (config h)) eqn:Hp; [by exists h, w|].
  unfold tick_target. rewrite Hdc. cbn [mbind option_bind]. unfold bind at 1.
  cbn [lift snd].
  pose proof (cycles_u32 (hook_ctx_e h)) as Hc.
  pose proof (u32_range (emulator_get_cycles (hook_ctx_e h) + dc)) as Hu.
  destruct (run_loop_pacer fuel h w _ Hinv Hfit Hu)
    as (h1 & w1 & Hloop & Hinv1 & Hspec1 & Hcfg1).
  { unfold is_u32, cycles in *. lia. }
  unfold bind at 1. rewrite Hloop. unfold host_get_config.
  destruct (step (config h1)); [|by exists h1, w1].
  destruct (host_set_config_pacer h1
              (mkConfig (no_sync (config h1)) true false (fullscreen (config h1))) w1 Hinv1)
    as (h' & w' & Hset & Hinv' & Hspec' & _).
  exists h', w'. split; [exact Hset|]. split; [exact Hinv'|]. congruence.
Qed.

(** X21.  The pacer invariant.  Whatever a client does with a core that
    honours the contract (ticks, configuration changes, event batches,
    deliveries, in any order and with the device playing in between),
    every call returns and the pacer and the device stay in step: the
    device is paused exactly while the pacer is not ready, the queued byte
    count stays below six device buffers, and the device spec and the
    size of the staging buffer never change. *)
Theorem client_keeps_pacer_invariant fuel cs : forall h v w,
  pacer_inv h w -> 6 * spec_size h < 2 ^ 32 ->
  (Z.to_nat (2 ^ 32) <= fuel)%nat -> Forall call_castable cs ->
  exists h' v' w',
    host_calls SCREEN_WIDTH SCREEN_HEIGHT fuel cs h v w = Some (h', v', w') /\
    pacer_inv h' w' /\
    audio_paused w' = negb (ready (audio h')) /\
    0 <= audio_queued w' < 6 * spec_size h /\
    spec (audio h') = spec (audio h) /\
    length (buffer (audio h')) = length (buffer (audio h)).
Proof.
  assert (Hfinal : forall h h' w',
    pacer_inv h' w' -> 6 * spec_size h < 2 ^ 32 -> staging_ok h ->
    spec (audio h') = spec (audio h) ->
    pacer_inv h' w' /\
    audio_paused w' = negb (ready (audio h')) /\
    0 <= audio_queued w' < 6 * spec_size h /\
    spec (audio h') = spec (audio h) /\
    length (buffer (audio h')) = length (buffer (audio h))).
  { intros h h' w' Hinv' Hfit [Hsz Hlen] Hspec.
    destruct (same_spec_size h h' Hspec) as (Hsz' & Hmax & _).
    pose proof Hinv' as ([_ Hlen'] & Hq & Hp).
    rewrite Hsz', Hmax in Hq. rewrite Hsz' in Hlen'.
    assert (Hmax5 : AUDIO_MAX_QUEUED_SIZE h = 5 * spec_size h)
      by (apply u32_small; unfold is_u32; lia).
    split; [exact Hinv'|]. split; [exact Hp|]. split; [lia|]. split; [exact Hspec|]. lia. }
  induction cs as [|c cs IH]; intros h v w Hinv Hfit Hfuel Hcast.
  - exists h, v, w. split; [reflexivity|]. apply (Hfinal h); try done. apply Hinv.
  - apply Forall_cons in Hcast as [Hc Hcast].
    assert (Hnext : forall h1 v1 w1,
      pacer_inv h1 w1 -> spec (audio h1) = spec (audio h) ->
      exists h' v' w',
        host_calls SCREEN_WIDTH SCREEN_HEIGHT fuel cs h1 v1 w1 = Some (h', v', w') /\
        pacer_inv h' w' /\
        audio_paused w' = negb (ready (audio h')) /\
        0 <= audio_queued w' < 6 * spec_size h /\
        spec (audio h') = spec (audio h) /\
        length (buffer (audio h')) = length (buffer (audio h))).
    { intros h1 v1 w1 Hinv1 Hspec1.
      destruct (same_spec_size h h1 Hspec1) as (Hsz1 & _).
      destruct (IH h1 v1 w1 Hinv1) as (h' & v' & w' & Hrun & Hinv' & _ & _ & Hspec' & _);
        [by rewrite Hsz1|done|done|].
      exists h', v', w'. split; [exact Hrun|].
      apply (Hfinal h); [done|done|apply Hinv|congruence]. }
    destruct c as [delta_ms|new_config|events| |n]; cbn [host_calls].
    + destruct (host_run_ms_pacer fuel h delta_ms w Hinv Hfit Hfuel Hc)
        as (h1 & w1 & -> & Hinv1 & Hspec1).
      cbn [mbind option_bind]. by apply Hnext.
    + destruct (host_set_config_pacer h new_config w Hinv)
        as (h1 & w1 & -> & Hinv1 & Hspec1 & _).
      cbn [mbind option_bind]. by apply Hnext.
    + destruct (host_poll_events_eq SCREEN_WIDTH SCREEN_HEIGHT events h v w)
        as (h1 & w1 & Hset & -> & _).
      cbn [mbind option_bind fst snd].
      match type of Hset with
      | host_set_config ?h0 ?c0 _ = _ =>
          destruct (host_set_config_pacer h0 c0 w Hinv)
            as (h2 & w2 & Hset2 & Hinv1 & Hspec1 & _)
      end.
      rewrite Hset in Hset2. injection Hset2 as <- <-.
      by apply Hnext.
    + destruct (host_render_audio_pacer h w Hinv Hfit)
        as (h1 & w1 & -> & Hinv1 & Hspec1 & _).
      cbn [mbind option_bind]. by apply Hnext.
    + apply Hnext; [|reflexivity].
      destruct Hinv as (Hok & Hq & Hp).
      pose proof (device_consume_queued n w (proj1 Hq)).
      split; [exact Hok|]. split; [lia|]. by rewrite device_consume_paused.
Qed.

End ClientLaws.

(** ** The further properties on concrete inputs *)

Lemma deliver_keeps_playing_witness :
  let h := sim_host 16 running (sim_at 0) in
  staging_ok h /\
  exists h' w' made,
    host_render_audio h sdl_idle = Some (h', w') /\
    calls w' = calls sdl_idle ++ made /\
    (EvClearQueuedAudio ∉ made) /\ (EvPauseAudioDevice true ∉ made) /\
    config h' = config h /\ hook_ctx_e h' = hook_ctx_e h /\
    spec (audio h') = spec (audio h) /\
    audio_queued sdl_idle <= audio_queued w' /\
    (audio_paused sdl_idle = false -> audio_paused w' = false) /\
    (ready (audio h) = true ->
       ready (audio h') = true /\ audio_paused w' = audio_paused sdl_idle /\
       forall pause_on, EvPauseAudioDevice pause_on ∉ made).
Proof.
  cbv zeta.
  assert (Hok : staging_ok (sim_host 16 running (sim_at 0)))
    by (split; [vm_compute; discriminate | reflexivity]).
  split; [exact Hok|].
  exact (deliver_keeps_playing _ sdl_idle Hok).
Defined.

Lemma deliver_hooks_report_witness :
  let h := sim_host 16 running (sim_at 0) in
  staging_ok h /\ 0 <= audio_queued sdl_idle /\
  audio_queued sdl_idle + spec_size h < 2 ^ 32 /\
  exists h' w' made,
    host_render_audio h sdl_idle = Some (h', w') /\
    calls w' = calls sdl_idle ++ made /\
    (forall old_size new_size, EvHookAudioAddBuffer old_size new_size ∈ made ->
       old_size = audio_queued sdl_idle /\ new_size = audio_queued w') /\
    (forall queued_size, EvHookAudioBufferReady queued_size ∈ made ->
       queued_size = audio_queued w') /\
    ((exists chunk, EvQueueAudio chunk ∈ made)
     <-> exists old_size new_size, EvHookAudioAddBuffer old_size new_size ∈ made) /\
    (EvPauseAudioDevice false ∈ made
     <-> exists queued_size, EvHookAudioBufferReady queued_size ∈ made).
Proof.
  cbv zeta.
  assert (Hok : staging_ok (sim_host 16 running (sim_at 0)))
    by (split; [vm_compute; discriminate | reflexivity]).
  assert (Hq : 0 <= audio_queued sdl_idle) by (vm_compute; discriminate).
  assert (Hfit : audio_queued sdl_idle + spec_size (sim_host 16 running (sim_at 0)) < 2 ^ 32)
    by reflexivity.
  split; [exact Hok|]. split; [exact Hq|]. split; [exact Hfit|].
  exact (deliver_hooks_report _ sdl_idle Hok Hq Hfit).
Defined.

Lemma deliver_empty_witness :
  let h := sim_host 16 running (sim_frames 0) in
  let w := mkSDL 32 true [] in
  staging_ok h /\
  ((length (data (emulator_get_audio_buffer (hook_ctx_e h))) < 2)%nat
   \/ spec_size h < AUDIO_FRAME_SIZE) /\
  exists h' w',
    host_render_audio h w = Some (h', w') /\
    buffer (audio h') = buffer (audio h) /\
    audio_queued w' = audio_queued w /\
    (audio_queued w < AUDIO_MAX_QUEUED_SIZE h ->
       enqueued (calls w') = enqueued (calls w) ++ [[]]) /\
    (is_u32 (audio_queued w) ->
       let starts := negb (ready (audio h))
                     && bool_decide (AUDIO_TARGET_QUEUED_SIZE h <= audio_queued w) in
       ready (audio h') =
         ready (audio h) || bool_decide (AUDIO_TARGET_QUEUED_SIZE h <= audio_queued w) /\
       audio_paused w' = audio_paused w && negb starts /\
       unpauses (calls w') = (unpauses (calls w) + (if starts then 1 else 0))%nat /\
       (starts = true ->
        exists before,
          calls w' = before ++ [EvHookAudioBufferReady (audio_queued w);
                                EvPauseAudioDevice false])).
Proof.
  cbv zeta.
  assert (Hok : staging_ok (sim_host 16 running (sim_frames 0)))
    by (split; [vm_compute; discriminate | reflexivity]).
  assert (Hshort :
    (length (data (emulator_get_audio_buffer
                     (hook_ctx_e (sim_host 16 running (sim_frames 0))))) < 2)%nat
    \/ spec_size (sim_host 16 running (sim_frames 0)) < AUDIO_FRAME_SIZE)
    by (left; cbn; lia).
  split; [exact Hok|]. split; [exact Hshort|].
  exact (deliver_empty _ (mkSDL 32 true []) Hok Hshort).
Defined.

Lemma set_config_idempotent_witness :
  let h := sim_host 16 running (sim_at 0) in
  let new_config := mkConfig true false false false in
  let h' := sim_host 16 new_config (sim_at 0) in
  let w' := mkSDL 0 true [EvSetSwapInterval 0; EvClearQueuedAudio;
                          EvPauseAudioDevice true] in
  host_set_config h new_config sdl_idle = Some (h', w') /\
  host_set_config h' new_config w' = Some (h', w').
Proof.
  cbv zeta.
  assert (Hrun : host_set_config (sim_host 16 running (sim_at 0))
                   (mkConfig true false false false) sdl_idle
                 = Some (sim_host 16 (mkConfig true false false false) (sim_at 0),
                         mkSDL 0 true [EvSetSwapInterval 0; EvClearQueuedAudio;
                                       EvPauseAudioDevice true]))
    by reflexivity.
  split; [exact Hrun|].
  exact (set_config_idempotent _ _ _ _ _ Hrun).
Defined.

Lemma tick_calls_witness :
  let h := sim_host 16 running (mkSim 0 3000 [128; 128; 128; 128]) in
  let delta_ms := f64_of_int 1 in
  staging_ok h /\ paused (config h) = false /\
  tick_target h delta_ms = Some (4194, 4194) /\
  reaches_target 2 (hook_ctx_e h) 4194 = true /\
  let reports := core_reports 2 (hook_ctx_e h) 4194 in
  exists h' w' made,
    host_run_ms 2 h delta_ms sdl_idle = Some (h', w') /\
    calls w' = calls sdl_idle ++ made /\
    core_and_video_calls made = flat_map (report_calls 4194) reports /\
    (length (enqueued made) <=
     length (filter (fun ev => EMULATOR_EVENT_AUDIO_BUFFER_FULL ev = true) reports))%nat.
Proof.
  cbv zeta.
  assert (Hok : staging_ok (sim_host 16 running (mkSim 0 3000 [128; 128; 128; 128])))
    by (split; [vm_compute; discriminate | reflexivity]).
  assert (Htarget : tick_target (sim_host 16 running (mkSim 0 3000 [128; 128; 128; 128]))
                      (f64_of_int 1) = Some (4194, 4194))
    by (vm_compute; reflexivity).
  assert (Hreach : reaches_target 2
                     (hook_ctx_e (sim_host 16 running (mkSim 0 3000 [128; 128; 128; 128])))
                     4194 = true)
    by (vm_compute; reflexivity).
  split; [exact Hok|]. split; [reflexivity|]. split; [exact Htarget|].
  split; [exact Hreach|].
  exact (tick_calls 2 _ _ sdl_idle 4194 4194 Hok eq_refl Htarget Hreach).
Defined.

Lemma tick_target_behind_witness :
  let h := sim_host 16 running (sim_at 100) in
  let delta_ms := S754_zero false in
  staging_ok h /\ paused (config h) = false /\
  tick_target h delta_ms = Some (0, 100) /\
  100 <= cycles h /\ (0 < 1)%nat /\
  exists h' w' made,
    host_run_ms 1 h delta_ms sdl_idle = Some (h', w') /\
    calls w' = calls sdl_idle ++ made /\
    core_and_video_calls made =
      report_calls 100 (emulator_run_until (hook_ctx_e h) 100).2 /\
    cycles h <= cycles h'.
Proof.
  cbv zeta.
  assert (Hok : staging_ok (sim_host 16 running (sim_at 100)))
    by (split; [vm_compute; discriminate | reflexivity]).
  assert (Htarget : tick_target (sim_host 16 running (sim_at 100)) (S754_zero false)
                    = Some (0, 100))
    by (vm_compute; reflexivity).
  assert (Hbehind : 100 <= cycles (sim_host 16 running (sim_at 100)))
    by (vm_compute; discriminate).
  assert (Hfuel : (0 < 1)%nat) by lia.
  split; [exact Hok|]. split; [reflexivity|]. split; [exact Htarget|].
  split; [exact Hbehind|]. split; [exact Hfuel|].
  exact (tick_target_behind 1 _ _ sdl_idle 0 100 Hok eq_refl Htarget Hbehind Hfuel).
Defined.

Lemma single_step_resets_audio_witness :
  let h := sim_host 16 (mkConfig false false true false) (sim_at 0) in
  let delta_ms := f64_of_int 1 in
  staging_ok h /\ paused (config h) = false /\ step (config h) = true /\
  tick_target h delta_ms = Some (4194, 4194) /\
  (Z.to_nat (4194 - cycles h) < 4195)%nat /\
  exists h' w' made,
    host_run_ms 4195 h delta_ms sdl_idle = Some (h', w') /\
    calls w' = calls sdl_idle ++ made ++ [EvClearQueuedAudio; EvPauseAudioDevice true] /\
    audio_queued w' = 0 /\ audio_paused w' = true /\ ready (audio h') = false.
Proof.
  cbv zeta.
  assert (Hok : staging_ok (sim_host 16 (mkConfig false false true false) (sim_at 0)))
    by (split; [vm_compute; discriminate | reflexivity]).
  assert (Htarget : tick_target (sim_host 16 (mkConfig false false true false) (sim_at 0))
                      (f64_of_int 1) = Some (4194, 4194))
    by (vm_compute; reflexivity).
  assert (Hfuel : (Z.to_nat (4194 - cycles (sim_host 16 (mkConfig false false true false)
                                               (sim_at 0))) < 4195)%nat)
    by (change (cycles _) with 0; lia).
  split; [exact Hok|]. split; [reflexivity|]. split; [reflexivity|].
  split; [exact Htarget|]. split; [exact Hfuel|].
  exact (single_step_resets_audio 4195 _ _ sdl_idle 4194 4194 Hok eq_refl eq_refl
           Htarget Hfuel).
Defined.

Lemma paused_ticks_do_nothing_witness :
  let h := sim_host 16 (mkConfig false true true false) (sim_at 0) in
  paused (config h) = true /\
  ticks 0 (Tick <$> [f64_of_int 1; S754_nan]) h sdl_idle = Some ([], (h, sdl_idle)).
Proof.
  cbv zeta. split; [reflexivity|].
  exact (paused_ticks_do_nothing 0 [f64_of_int 1; S754_nan]
           (sim_host 16 (mkConfig false true true false) (sim_at 0)) sdl_idle eq_refl).
Defined.

Lemma poll_even_pauses_keep_audio_witness :
  let events := [SDL_KEYDOWN SDL_SCANCODE_SPACE; SDL_KEYUP SDL_SCANCODE_SPACE;
                 SDL_KEYDOWN SDL_SCANCODE_SPACE] in
  let h := sim_host 16 running (sim_at 0) in
  let v := mkVideo [] [] in
  key_downs SDL_SCANCODE_N events = 0%nat /\
  key_downs SDL_SCANCODE_TAB events = 0%nat /\
  key_ups SDL_SCANCODE_TAB events = 0%nat /\
  Nat.even (key_downs SDL_SCANCODE_SPACE events) = true /\
  exists running h' v' made w',
    host_poll_events 160 144 events h v sdl_idle = Some (running, h', v', made, w') /\
    audio h' = audio h /\
    audio_queued w' = audio_queued sdl_idle /\ audio_paused w' = audio_paused sdl_idle /\
    paused (config h') = paused (config h) /\ no_sync (config h') = no_sync (config h) /\
    exists sdl_made,
      calls w' = calls sdl_idle ++ sdl_made /\
      (EvClearQueuedAudio ∉ sdl_made) /\
      forall pause_on, EvPauseAudioDevice pause_on ∉ sdl_made.
Proof.
  cbv zeta. do 4 (split; [reflexivity|]).
  exact (poll_even_pauses_keep_audio 160 144
           [SDL_KEYDOWN SDL_SCANCODE_SPACE; SDL_KEYUP SDL_SCANCODE_SPACE;
            SDL_KEYDOWN SDL_SCANCODE_SPACE]
           (sim_host 16 running (sim_at 0)) (mkVideo [] []) sdl_idle
           eq_refl eq_refl eq_refl eq_refl).
Defined.

Lemma poll_ignored_events_witness :
  let events := [SDL_KEYUP SDL_SCANCODE_1; SDL_EVENT_other;
                 SDL_KEYDOWN (SDL_SCANCODE_other 4)] in
  let h := sim_host 16 running (sim_at 0) in
  let v := mkVideo [] [] in
  forallb ignored events = true /\
  let e := hook_ctx_e h in
  let c := emulator_get_config e in
  host_poll_events 160 144 events h v sdl_idle =
    Some (true, set_emulator h (emulator_set_config e c), v, [PcEmulatorSetConfig c],
          sdl_idle).
Proof.
  cbv zeta. split; [reflexivity|].
  exact (poll_ignored_events 160 144
           [SDL_KEYUP SDL_SCANCODE_1; SDL_EVENT_other; SDL_KEYDOWN (SDL_SCANCODE_other 4)]
           (sim_host 16 running (sim_at 0)) (mkVideo [] []) sdl_idle eq_refl).
Defined.

Lemma step_key_runs_one_tick_witness :
  let h := sim_host 16 (mkConfig false true false false) (sim_at 0) in
  let v := mkVideo [] [] in
  let delta_ms := f64_of_int 1 in
  let fuel := Z.to_nat (2 ^ 32) in
  staging_ok h /\
  f64_to_u32 (delta_cycles_expr delta_ms) = Some 4194 /\
  (Z.to_nat (2 ^ 32) <= fuel)%nat /\
  exists running h1 v1 made w1 h2 w2,
    host_poll_events 160 144 ([] ++ [SDL_KEYDOWN SDL_SCANCODE_N]) h v sdl_idle
      = Some (running, h1, v1, made, w1) /\
    paused (config h1) = false /\ step (config h1) = true /\
    host_run_ms fuel h1 delta_ms w1 = Some (h2, w2) /\
    u32 (cycles h1 + 4194) <= cycles h2 /\
    paused (config h2) = true /\ step (config h2) = false.
Proof.
  cbv zeta.
  assert (Hok : staging_ok (sim_host 16 (mkConfig false true false false) (sim_at 0)))
    by (split; [vm_compute; discriminate | reflexivity]).
  assert (Hdc : f64_to_u32 (delta_cycles_expr (f64_of_int 1)) = Some 4194)
    by (vm_compute; reflexivity).
  assert (Hfuel : (Z.to_nat (2 ^ 32) <= Z.to_nat (2 ^ 32))%nat) by apply le_n.
  split; [exact Hok|]. split; [exact Hdc|]. split; [exact Hfuel|].
  exact (step_key_runs_one_tick 160 144 _ [] _ (mkVideo [] []) sdl_idle _ 4194
           Hok Hdc Hfuel).
Defined.

Lemma host_get_time_ms_not_negative_witness :
  let c := host_init_time 1000000 5 in
  0 <= performance_frequency c /\ f64_negative (host_get_time_ms c 3) = false.
Proof.
  cbv zeta.
  assert (Hfreq : 0 <= performance_frequency (host_init_time 1000000 5))
    by (vm_compute; discriminate).
  split; [exact Hfreq|].
  exact (host_get_time_ms_not_negative _ 3 Hfreq).
Defined.

Lemma host_new_initial_state_witness :
  let env := mkEnv true true (fun _ => Some (mkSpec 16)) (fun _ => true) in
  let init := mkInit 4 44100 2048 in
  let h := sim_host 16 running (sim_at 0) in
  host_new (fun e => e) env init (sim_at 0) = Some (h, sdl_idle) /\
  exists obtained,
    SDL_Init_ok env = true /\ host_init_video_ok env = true /\
    SDL_OpenAudioDevice env
      (mkWant (audio_frequency init) 2 (u16 (audio_frames init * 2))) = Some obtained /\
    calloc_ok env (size obtained) = true /\
    config h = mkConfig false false false false /\
    hook_ctx_e h = (fun e => e) (sim_at 0) /\
    spec (audio h) = obtained /\ ready (audio h) = false /\
    buffer (audio h) = replicate (Z.to_nat (size obtained / 2)) 0 /\
    sdl_idle = mkSDL 0 true [] /\
    (0 <= size obtained -> staging_ok h) /\
    (0 < size obtained -> 5 * size obtained < 2 ^ 32 -> pacer_inv h sdl_idle).
Proof.
  cbv zeta.
  assert (Hnew : host_new (fun e => e)
                   (mkEnv true true (fun _ => Some (mkSpec 16)) (fun _ => true))
                   (mkInit 4 44100 2048) (sim_at 0)
                 = Some (sim_host 16 running (sim_at 0), sdl_idle))
    by reflexivity.
  split; [exact Hnew|].
  exact (host_new_initial_state _ _ _ _ _ _ Hnew).
Defined.

Lemma client_keeps_pacer_invariant_witness :
  let h := sim_host 16 running (sim_at 0) in
  let v := mkVideo [] [] in
  let cs := [CallPollEvents [SDL_KEYDOWN SDL_SCANCODE_SPACE;
                             SDL_WINDOWEVENT_RESIZED 320 288];
             CallRunMs (f64_of_int 1); CallRenderAudio; DevicePlays 4;
             CallSetConfig running; CallRunMs (f64_of_int 1); CallRenderAudio] in
  let fuel := Z.to_nat (2 ^ 32) in
  pacer_inv h sdl_idle /\ 6 * spec_size h < 2 ^ 32 /\
  (Z.to_nat (2 ^ 32) <= fuel)%nat /\ Forall call_castable cs /\
  exists h' v' w',
    host_calls 160 144 fuel cs h v sdl_idle = Some (h', v', w') /\
    pacer_inv h' w' /\
    audio_paused w' = negb (ready (audio h')) /\
    0 <= audio_queued w' < 6 * spec_size h /\
    spec (audio h') = spec (audio h) /\
    length (buffer (audio h')) = length (buffer (audio h)).
Proof.
  cbv zeta.
  assert (Hinv : pacer_inv (sim_host 16 running (sim_at 0)) sdl_idle).
  { split; [split; [vm_compute; discriminate | reflexivity]|].
    split; [split; [vm_compute; discriminate | reflexivity]|reflexivity]. }
  assert (Hfit : 6 * spec_size (sim_host 16 running (sim_at 0)) < 2 ^ 32) by reflexivity.
  assert (Hfuel : (Z.to_nat (2 ^ 32) <= Z.to_nat (2 ^ 32))%nat) by apply le_n.
  assert (Hcast : Forall call_castable
                    [CallPollEvents [SDL_KEYDOWN SDL_SCANCODE_SPACE;
                                     SDL_WINDOWEVENT_RESIZED 320 288];
                     CallRunMs (f64_of_int 1); CallRenderAudio; DevicePlays 4;
                     CallSetConfig running; CallRunMs (f64_of_int 1); CallRenderAudio]).
  { repeat constructor; cbn [call_castable]; eexists; vm_compute; reflexivity. }
  split; [exact Hinv|]. split; [exact Hfit|]. split; [exact Hfuel|]. split; [exact Hcast|].
  exact (client_keeps_pacer_invariant 160 144 _ _ _ (mkVideo [] []) sdl_idle
           Hinv Hfit Hfuel Hcast).
Defined.
